(** * CodeContext-AI: chunking, vector store and retrieval

    A shallow embedding of the retrieval pipeline of the backend:

    - [app/services/chunking.py]     ([chunk_file] and its three strategies),
    - [app/services/vector_store.py] ([add_chunks], [query_chunks],
      [delete_collection] over the cached, persisted collections),
    - [app/services/retrieval.py]    ([retrieve], [build_context_prompt]),
    - [app/config.py]                (the settings the above read).

    Conventions.  Python [int] is [Z].  Python [str] is a [string] holding
    the UTF-8 encoding of the text, so that the line boundaries and the white
    space of [str.splitlines] and [str.strip] that lie outside ASCII are
    recognised by their byte sequences.  A [float32] of NumPy is taken as
    the real number it stands for (no NaN, no infinity); the query is stated
    once for an arithmetic that is a parameter ([np_similarities],
    [np_distance]) and once in exact arithmetic over [R], for the properties
    that rounding does not touch.  Exceptions are values of [exn] in a sum
    type; a loop that does not terminate is [None] of a fuel-bounded
    iteration, together with the theorem that no amount of fuel helps.
    Calls into libraries whose code is not part of the repository
    ([ast.parse], [re], the embedding model, NumPy) are Section
    variables. *)

From Stdlib Require Import ZArith List String Ascii Lia Bool DecimalString.
From Stdlib Require Import Reals Lra Permutation Sorted.
From Stdlib Require Import DecimalPos DecimalZ.
From stdpp Require Import gmap.
Import ListNotations.

Local Open Scope Z_scope.

(** ** Python strings *)

Definition chr (n : nat) : ascii := ascii_of_nat n.
Definition ord (c : ascii) : nat := nat_of_ascii c.

(** The one-character string ["\n"]. *)
Definition nl : string := String (chr 10) EmptyString.

(** [sep.join(parts)]. *)
Definition join (sep : string) (parts : list string) : string :=
  String.concat sep parts.

(** [str(n)] for an integer. *)
Definition str_of_int (n : Z) : string := NilZero.string_of_int (Z.to_int n).

(** One-byte line boundaries of [str.splitlines] other than carriage return:
    LF, VT, FF, FS, GS, RS. *)
Definition is_break1 (c : ascii) : bool :=
  let n := ord c in
  (n =? 10)%nat || (n =? 11)%nat || (n =? 12)%nat ||
  (n =? 28)%nat || (n =? 29)%nat || (n =? 30)%nat.

Definition cons_line (c : ascii) (ls : list string) : list string :=
  match ls with
  | [] => [String c EmptyString]
  | l :: ls' => String c l :: ls'
  end.

(** [s.splitlines()]: lines are ended by LF, CR, CR LF, VT, FF, FS, GS, RS,
    NEL (U+0085, bytes C2 85), LS and PS (U+2028, U+2029, bytes E2 80 A8 and
    E2 80 A9); the boundaries are dropped and a final boundary does not open
    an empty last line. *)
Fixpoint splitlines (s : string) : list string :=
  match s with
  | EmptyString => []
  | String c rest =>
      if is_break1 c then EmptyString :: splitlines rest
      else if (ord c =? 13)%nat then
        match rest with
        | String c2 rest2 =>
            if (ord c2 =? 10)%nat then EmptyString :: splitlines rest2
            else EmptyString :: splitlines rest
        | EmptyString => [EmptyString]
        end
      else if (ord c =? 194)%nat then
        match rest with
        | String c2 rest2 =>
            if (ord c2 =? 133)%nat then EmptyString :: splitlines rest2
            else cons_line c (splitlines rest)
        | EmptyString => cons_line c (splitlines rest)
        end
      else if (ord c =? 226)%nat then
        match rest with
        | String c2 (String c3 rest3) =>
            if (ord c2 =? 128)%nat && ((ord c3 =? 168)%nat || (ord c3 =? 169)%nat)
            then EmptyString :: splitlines rest3
            else cons_line c (splitlines rest)
        | _ => cons_line c (splitlines rest)
        end
      else cons_line c (splitlines rest)
  end.

(** White space in the sense of [str.isspace], one byte long:
    U+0009..U+000D, U+001C..U+001F and the space. *)
Definition is_space1 (c : ascii) : bool :=
  let n := ord c in
  ((9 <=? n)%nat && (n <=? 13)%nat) || ((28 <=? n)%nat && (n <=? 32)%nat).

(** Two bytes long: U+0085 and U+00A0. *)
Definition is_space2 (c1 c2 : ascii) : bool :=
  (ord c1 =? 194)%nat && ((ord c2 =? 133)%nat || (ord c2 =? 160)%nat).

(** Three bytes long: U+1680, U+2000..U+200A, U+2028, U+2029, U+202F,
    U+205F and U+3000. *)
Definition is_space3 (c1 c2 c3 : ascii) : bool :=
  let a := ord c1 in let b := ord c2 in let c := ord c3 in
  ((a =? 225)%nat && (b =? 154)%nat && (c =? 128)%nat) ||
  ((a =? 226)%nat && (b =? 128)%nat &&
     (((128 <=? c)%nat && (c <=? 138)%nat) || (c =? 168)%nat || (c =? 169)%nat
      || (c =? 175)%nat)) ||
  ((a =? 226)%nat && (b =? 129)%nat && (c =? 159)%nat) ||
  ((a =? 227)%nat && (b =? 128)%nat && (c =? 128)%nat).

(** [s.lstrip()]. *)
Fixpoint lstrip (s : string) : string :=
  match s with
  | EmptyString => EmptyString
  | String c1 r1 =>
      if is_space1 c1 then lstrip r1
      else
        match r1 with
        | String c2 r2 =>
            if is_space2 c1 c2 then lstrip r2
            else
              match r2 with
              | String c3 r3 => if is_space3 c1 c2 c3 then lstrip r3 else s
              | EmptyString => s
              end
        | EmptyString => s
        end
  end.

(** The string consists of white space only. *)
Definition all_space (s : string) : bool :=
  match lstrip s with EmptyString => true | _ => false end.

(** [s.rstrip()]. *)
Fixpoint rstrip (s : string) : string :=
  match s with
  | EmptyString => EmptyString
  | String c rest => if all_space s then EmptyString else String c (rstrip rest)
  end.

(** [s.strip()]. *)
Definition strip (s : string) : string := rstrip (lstrip s).

(** Truth value of a string. *)
Definition truthy (s : string) : bool :=
  match s with EmptyString => false | _ => true end.

(** ** Python sequences *)

(** [len(l)] as an integer. *)
Definition len {A} (l : list A) : Z := Z.of_nat (length l).

(** A slice bound brought into [0 .. n], a negative one counting from the
    end. *)
Definition clamp (n i : Z) : Z :=
  if i <? 0 then Z.max 0 (i + n) else Z.min i n.

(** [l[lo:hi]]. *)
Definition slice {A} (l : list A) (lo hi : Z) : list A :=
  let a := clamp (len l) lo in
  let b := clamp (len l) hi in
  firstn (Z.to_nat (b - a)) (skipn (Z.to_nat a) l).

(** [l[:hi]]. *)
Definition slice_to {A} (l : list A) (hi : Z) : list A := slice l 0 hi.

(** [x or d] for an optional integer: [None] and [0] are false. *)
Definition or_else (x : option Z) (d : Z) : Z :=
  match x with
  | Some v => if v =? 0 then d else v
  | None => d
  end.

(** ** Exceptions *)

(** The exceptions that the code meets.  [SyntaxError] stands for the class
    with its subclasses, which is what [except SyntaxError] catches. *)
Inductive exn :=
| IndexError | ValueError | SyntaxError | RecursionError | MemoryError
| RuntimeError.

Inductive result (A : Type) :=
| Ok (a : A)
| Raise (e : exn).
Arguments Ok {A} a.
Arguments Raise {A} e.

Definition bind {A B} (r : result A) (k : A -> result B) : result B :=
  match r with
  | Ok a => k a
  | Raise e => Raise e
  end.

Notation "'let!' x ':=' r 'in' k" := (bind r (fun x => k))
  (at level 10, x name, r at level 100, k at level 200).

(** ** Configuration ([app/config.py]) *)

Record Settings := {
  MAX_CHUNK_LINES : Z;
  FALLBACK_CHUNK_LINES : Z;
  DEFAULT_TOP_K : Z
}.

(** The values of the class body of [Settings]. *)
Definition default_settings : Settings :=
  {| MAX_CHUNK_LINES := 200; FALLBACK_CHUNK_LINES := 150; DEFAULT_TOP_K := 20 |}.

(** ** Chunking ([app/services/chunking.py]) *)

Record CodeChunk := {
  file_path : string;
  symbol : string;
  code : string;
  language : string;
  start_line : Z;
  end_line : Z
}.

(** The part of an [ast] tree that [_chunk_python] looks at: the child nodes
    of the module and of a class, in the order of [ast.iter_child_nodes].
    [FunctionDef] stands for [ast.FunctionDef] and [ast.AsyncFunctionDef]
    alike, [OtherNode] for every other node. *)
#[warnings="-register-all"]
Inductive node :=
| FunctionDef (name : string) (lineno : Z) (end_lineno : option Z)
| ClassDef (name : string) (lineno : Z) (end_lineno : option Z)
           (children : list node)
| OtherNode.

(** The patterns of [_JS_PATTERNS], in their order. *)
Definition _JS_PATTERNS : list string :=
  [ "^(export\s+(?:default\s+)?(?:async\s+)?function\s+\w+)";
    "^((?:async\s+)?function\s+\w+)";
    "^((?:export\s+)?(?:const|let|var)\s+\w+\s*=\s*(?:async\s+)?(?:\([^)]*\)|[^=])\s*=>)";
    "^((?:export\s+(?:default\s+)?)?class\s+\w+)" ]%string.

(** The patterns of [_extract_js_symbol], in their order. *)
Definition js_symbol_patterns : list string :=
  [ "(?:export\s+(?:default\s+)?)?(?:async\s+)?function\s+(\w+)";
    "(?:export\s+)?(?:const|let|var)\s+(\w+)";
    "(?:export\s+(?:default\s+)?)?class\s+(\w+)" ]%string.

(** The hard-coded overlap of the line windows. *)
Definition overlap : Z := 20.

(** State of the [while] loop of [_chunk_by_lines]. *)
Record loop_state := {
  ls_i : Z;
  ls_idx : Z;
  ls_chunks : list CodeChunk
}.

Section Chunking.

(** The settings object, the parser and the regular-expression engine.
    [ast_parse] is what [ast.parse] does with a text: it returns the tree,
    or raises [SyntaxError], or raises another exception ([ValueError] for
    a null byte in CPython up to 3.11, [RecursionError] or [MemoryError]
    for deep nesting); [re_match p s] tells whether
    [re.compile(p, re.MULTILINE).match(s)] finds a match; [re_search p s]
    is group 1 of [re.search(p, s)]. *)
Variable settings : Settings.
Variable ast_parse : string -> result (list node).
Variable re_match : string -> string -> bool.
Variable re_search : string -> string -> option string.

(** [lineno] of the first function or class among the nodes. *)
Fixpoint first_node_line (nodes : list node) : option Z :=
  match nodes with
  | [] => None
  | FunctionDef _ l _ :: _ => Some l
  | ClassDef _ l _ _ :: _ => Some l
  | OtherNode :: rest => first_node_line rest
  end.

(** [lineno] of the first function among the nodes. *)
Fixpoint first_method_line (nodes : list node) : option Z :=
  match nodes with
  | [] => None
  | FunctionDef _ l _ :: _ => Some l
  | _ :: rest => first_method_line rest
  end.

(** The module preamble: docstring and imports before the first
    definition. *)
Definition python_preamble (fp : string) (lines : list string)
    (nodes : list node) : list CodeChunk :=
  match first_node_line nodes with
  | Some l =>
      if negb (l =? 0) && (1 <? l) then
        let preamble := strip (join nl (slice_to lines (l - 1))) in
        if truthy preamble && (3 <=? len (splitlines preamble)) then
          [ {| file_path := fp; symbol := "<module>"; code := preamble;
               language := "python"; start_line := 1; end_line := l - 1 |} ]
        else []
      else []
  | None => []
  end.

(** The chunk of one method of a split class. *)
Definition method_chunks (fp : string) (lines : list string)
    (cls : string) (child : node) : list CodeChunk :=
  match child with
  | FunctionDef name lineno end_lineno =>
      let c_start := lineno in
      let c_end := or_else end_lineno c_start in
      [ {| file_path := fp; symbol := cls ++ "." ++ name;
           code := join nl (slice lines (c_start - 1) c_end);
           language := "python"; start_line := c_start; end_line := c_end |} ]
  | _ => []
  end.

(** The header of a split class, when it is not blank. *)
Definition header_chunks (fp : string) (lines : list string)
    (cls : string) (start : Z) (children : list node) : list CodeChunk :=
  let class_header_end :=
    match first_method_line children with
    | Some l => l - 1
    | None => start
    end in
  let header := join nl (slice lines (start - 1) class_header_end) in
  if truthy (strip header) then
    [ {| file_path := fp; symbol := cls ++ ".<header>"; code := header;
         language := "python"; start_line := start;
         end_line := class_header_end |} ]
  else [].

(** The chunks of one top-level node. *)
Definition node_chunks (fp : string) (lines : list string) (n : node)
    : list CodeChunk :=
  match n with
  | FunctionDef name lineno end_lineno =>
      let start := lineno in
      let end_ := or_else end_lineno start in
      [ {| file_path := fp; symbol := name;
           code := join nl (slice lines (start - 1) end_);
           language := "python"; start_line := start; end_line := end_ |} ]
  | ClassDef name lineno end_lineno children =>
      let start := lineno in
      let end_ := or_else end_lineno start in
      let code := join nl (slice lines (start - 1) end_) in
      if end_ - start <=? MAX_CHUNK_LINES settings then
        [ {| file_path := fp; symbol := name; code := code;
             language := "python"; start_line := start; end_line := end_ |} ]
      else
        header_chunks fp lines name start children
        ++ flat_map (method_chunks fp lines name) children
  | OtherNode => []
  end.

(** Only [SyntaxError] is caught; any other exception of [ast.parse]
    leaves the function. *)
Definition _chunk_python (fp content : string) : result (list CodeChunk) :=
  let lines := splitlines content in
  match ast_parse content with
  | Raise SyntaxError => Ok []
  | Raise e => Raise e
  | Ok nodes =>
      Ok (python_preamble fp lines nodes
          ++ flat_map (node_chunks fp lines) nodes)
  end.

(** First pattern of the list with a group, ["<anonymous>"] without. *)
Fixpoint first_group (patterns : list string) (line : string) : string :=
  match patterns with
  | [] => "<anonymous>"
  | p :: rest =>
      match re_search p line with
      | Some g => g
      | None => first_group rest line
      end
  end.

Definition _extract_js_symbol (line : string) : string :=
  first_group js_symbol_patterns line.

(** The boundary lines, numbered from [i]: index and symbol. *)
Fixpoint find_boundaries (i : Z) (lines : list string)
    : list (Z * string) :=
  match lines with
  | [] => []
  | line :: rest =>
      if existsb (fun p => re_match p line) _JS_PATTERNS
      then (i, _extract_js_symbol line) :: find_boundaries (i + 1) rest
      else find_boundaries (i + 1) rest
  end.

(** The text before the first boundary. *)
Definition js_preamble (fp language : string) (lines : list string)
    (first : Z) : list CodeChunk :=
  if 0 <? first then
    let preamble := strip (join nl (slice_to lines first)) in
    if truthy preamble && (2 <=? len (splitlines preamble)) then
      [ {| file_path := fp; symbol := "<imports>"; code := preamble;
           language := language; start_line := 1; end_line := first |} ]
    else []
  else [].

(** One chunk from each boundary to the line before the next one. *)
Fixpoint js_chunks (fp language : string) (lines : list string)
    (boundaries : list (Z * string)) : list CodeChunk :=
  match boundaries with
  | [] => []
  | (line_idx, sym) :: rest =>
      let start := line_idx in
      let end_ :=
        match rest with
        | (next, _) :: _ => next - 1
        | [] => len lines - 1
        end in
      let code := rstrip (join nl (slice lines start (end_ + 1))) in
      (if truthy (strip code) then
         [ {| file_path := fp; symbol := sym; code := code;
              language := language; start_line := start + 1;
              end_line := end_ + 1 |} ]
       else [])
      ++ js_chunks fp language lines rest
  end.

Definition _chunk_javascript (fp content language : string)
    : list CodeChunk :=
  let lines := splitlines content in
  match lines with
  | [] => []
  | _ =>
      let boundaries := find_boundaries 0 lines in
      match boundaries with
      | [] => []
      | (first, _) :: _ =>
          js_preamble fp language lines first
          ++ js_chunks fp language lines boundaries
      end
  end.

(** The chunk of the window that starts at index [i]. *)
Definition window_chunk (fp language : string) (lines : list string)
    (i idx : Z) : CodeChunk :=
  let end_ := Z.min (i + FALLBACK_CHUNK_LINES settings) (len lines) in
  {| file_path := fp; symbol := "<block_" ++ str_of_int idx ++ ">";
     code := join nl (slice lines i end_); language := language;
     start_line := i + 1; end_line := end_ |}.

(** One run of the body of the [while] loop. *)
Definition loop_body (fp language : string) (lines : list string)
    (st : loop_state) : loop_state :=
  {| ls_i := ls_i st + (FALLBACK_CHUNK_LINES settings - overlap);
     ls_idx := ls_idx st + 1;
     ls_chunks :=
       ls_chunks st ++ [window_chunk fp language lines (ls_i st) (ls_idx st)] |}.

(** [while i < len(lines)], run for at most [fuel] rounds: [None] when the
    condition still holds after them. *)
Fixpoint while_loop (fuel : nat) (fp language : string)
    (lines : list string) (st : loop_state) : option loop_state :=
  if ls_i st <? len lines then
    match fuel with
    | O => None
    | S fuel' => while_loop fuel' fp language lines (loop_body fp language lines st)
    end
  else Some st.

Definition loop_init : loop_state :=
  {| ls_i := 0; ls_idx := 0; ls_chunks := [] |}.

(** [_chunk_by_lines] with an explicit bound on the rounds of its loop. *)
Definition chunk_by_lines_fuel (fuel : nat) (fp content language : string)
    : option (list CodeChunk) :=
  let lines := splitlines content in
  match lines with
  | [] => Some []
  | _ =>
      if len lines <=? MAX_CHUNK_LINES settings then
        Some [ {| file_path := fp; symbol := "<file>"; code := content;
                  language := language; start_line := 1;
                  end_line := len lines |} ]
      else
        option_map ls_chunks (while_loop fuel fp language lines loop_init)
  end.

(** The loop is given one round per line of the file, which is all it can
    use when it terminates ([chunk_by_lines_fuel_stable]); the result is
    [None] exactly when the loop runs forever
    ([chunk_by_lines_none_diverges]). *)
Definition _chunk_by_lines (fp content language : string)
    : option (list CodeChunk) :=
  chunk_by_lines_fuel (length (splitlines content)) fp content language.

(** [None] when the loop of the fallback does not end; otherwise the list
    that is returned, or the exception that [_chunk_python] lets through. *)
Definition chunk_file (fp content language : string)
    : option (result (list CodeChunk)) :=
  match (if (language =? "python")%string
         then _chunk_python fp content else Ok []) with
  | Raise e => Some (Raise e)
  | Ok ((_ :: _) as chunks) => Some (Ok chunks)
  | Ok [] =>
      match (if (language =? "javascript")%string
                || (language =? "typescript")%string
             then _chunk_javascript fp content language else []) with
      | (_ :: _) as chunks => Some (Ok chunks)
      | [] => option_map Ok (_chunk_by_lines fp content language)
      end
  end.

End Chunking.

(** [l[i]] for an index that is not negative. *)
Definition getitem {A} (l : list A) (i : nat) : result A :=
  match nth_error l i with
  | Some x => Ok x
  | None => Raise IndexError
  end.

(** [[l[i] for i in idx]]. *)
Fixpoint gather {A} (l : list A) (idx : list nat) : result (list A) :=
  match idx with
  | [] => Ok []
  | i :: rest =>
      let! x := getitem l i in
      let! xs := gather l rest in
      Ok (x :: xs)
  end.

(** ** Vector arithmetic, over the reals, without rounding *)

Definition vec := list R.

(** Dot product of two vectors of one length. *)
Definition dot (u v : vec) : R :=
  fold_right Rplus 0%R (map (fun p => (fst p * snd p)%R) (combine u v)).

(** [np.linalg.norm]. *)
Definition norm (v : vec) : R := sqrt (dot v v).

(** The constant [1e-10] that keeps the division defined. *)
Definition tiny : R := (1 / 10 ^ 10)%R.

(** [v / (np.linalg.norm(v) + 1e-10)]. *)
Definition normalize (v : vec) : vec :=
  map (fun x => (x / (norm v + tiny))%R) v.

(** [np.array(rows)] is a matrix when all rows have one length, which is
    returned with it ([0] columns for no row); otherwise NumPy raises
    [ValueError]. *)
Definition columns (rows : list vec) : result nat :=
  match rows with
  | [] => Ok O
  | r :: rest =>
      if forallb (fun r' => (length r' =? length r)%nat) rest
      then Ok (length r) else Raise ValueError
  end.

(** [np.argsort] is specified by what its documentation promises for the
    default kind: the indices of the array, ordered so that the values
    ascend.  The order among equal values is left open. *)
Definition argsort_spec (argsort : list R -> list nat) : Prop :=
  forall v : list R,
    Permutation (argsort v) (seq 0 (length v)) /\
    StronglySorted (fun i j => (nth i v 0 <= nth j v 0)%R) (argsort v).

Definition Rleb (x y : R) : bool := if Rle_dec x y then true else false.

(** Insertion of index [i] behind the indices whose value is not above
    its own. *)
Fixpoint insert_index (v : list R) (i : nat) (sorted : list nat) : list nat :=
  match sorted with
  | [] => [i]
  | j :: rest =>
      if Rleb (nth j v 0%R) (nth i v 0%R)
      then j :: insert_index v i rest
      else i :: sorted
  end.

Fixpoint argsort_upto (v : list R) (n : nat) : list nat :=
  match n with
  | O => []
  | S m => insert_index v m (argsort_upto v m)
  end.

(** A stable instance of [np.argsort]: insertion sort, which is what
    NumPy's scalar introsort runs on arrays of at most sixteen elements. *)
Definition argsort_stable (v : list R) : list nat :=
  argsort_upto v (length v).

(** ** Vector store ([app/services/vector_store.py]) *)

(** A metadata dictionary: each of the keys written at ingestion may be
    missing. *)
Record Metadata := {
  m_file_path : option string;
  m_symbol : option string;
  m_language : option string;
  m_start_line : option Z;
  m_end_line : option Z
}.

(** The dictionary of a collection, with its four lists. *)
Record Collection := {
  ids : list string;
  documents : list string;
  embeddings : list vec;
  metadatas : list Metadata
}.

(** The module state: the dictionary [_collections] and the JSON files of
    [CHROMA_PERSIST_DIR], both keyed by project id. *)
Record Store := {
  cache : gmap Z Collection;
  disk : gmap Z Collection
}.

(** The dictionary that [query_chunks] returns; each list is wrapped in an
    outer list. *)
Record QueryResult := {
  r_ids : list (list string);
  r_documents : list (list string);
  r_metadatas : list (list Metadata);
  r_distances : list (list R)
}.

Definition empty_collection : Collection :=
  {| ids := []; documents := []; embeddings := []; metadatas := [] |}.

Definition empty_result : QueryResult :=
  {| r_ids := [[]]; r_documents := [[]]; r_metadatas := [[]];
     r_distances := [[]] |}.

Definition _load_collection (st : Store) (project_id : Z)
    : Store * Collection :=
  match cache st !! project_id with
  | Some c => (st, c)
  | None =>
      match disk st !! project_id with
      | Some data =>
          ({| cache := <[project_id := data]> (cache st); disk := disk st |},
           data)
      | None =>
          ({| cache := <[project_id := empty_collection]> (cache st);
              disk := disk st |},
           empty_collection)
      end
  end.

(** Writes the cached collection to its file.  Every call follows a
    [_load_collection] of the same project, so the default of
    [_collections.get] is never taken; the model leaves the file alone
    there. *)
Definition _save_collection (st : Store) (project_id : Z) : Store :=
  match cache st !! project_id with
  | Some data =>
      {| cache := cache st; disk := <[project_id := data]> (disk st) |}
  | None => st
  end.

(** The four [extend] calls act on the dictionary that the cache holds. *)
Definition add_chunks (st : Store) (project_id : Z) (new_ids : list string)
    (new_documents : list string) (new_embeddings : list vec)
    (new_metadatas : list Metadata) : Store :=
  let (st1, collection) := _load_collection st project_id in
  let collection' :=
    {| ids := ids collection ++ new_ids;
       documents := documents collection ++ new_documents;
       embeddings := embeddings collection ++ new_embeddings;
       metadatas := metadatas collection ++ new_metadatas |} in
  _save_collection
    {| cache := <[project_id := collection']> (cache st1); disk := disk st1 |}
    project_id.

Definition delete_collection (st : Store) (project_id : Z) : Store :=
  {| cache := delete project_id (cache st);
     disk := delete project_id (disk st) |}.

(** [stored_norms @ query_norm] in exact arithmetic, with the shape checks
    of NumPy. *)
Definition similarities (stored : list vec) (query_embedding : vec)
    : result (list R) :=
  let! d := columns stored in
  if (d =? length query_embedding)%nat then
    let query_norm := normalize query_embedding in
    Ok (map (fun s => dot (normalize s) query_norm) stored)
  else Raise ValueError.

Section Query.

(** The arithmetic of NumPy.  The arrays of the query hold [float32]; a
    value is taken as the real number it stands for, and what the operations
    round to is left to two functions: [np_similarities stored query] is the
    array [stored_norms @ query_norm] as NumPy computes it from the two
    lists, or the [ValueError] of NumPy for rows that do not fit, and
    [np_distance s] is [float(1.0 - s)].  [argsort] is [np.argsort], one of
    the functions that meet [argsort_spec]. *)
Variable np_similarities : list vec -> vec -> result (list R).
Variable np_distance : R -> R.
Variable argsort : list R -> list nat.

(** [np.argsort(similarities)[::-1][:k]]. *)
Definition top_indices (sims : list R) (top_k : Z) : list nat :=
  let k := Z.min top_k (len sims) in
  slice_to (rev (argsort sims)) k.

(** The query on a loaded collection.  The arguments of the debug message
    are evaluated before it is logged, and [top_indices[0]] is one of
    them. *)
Definition query_collection_np (collection : Collection)
    (query_embedding : vec) (top_k : Z) : result QueryResult :=
  match embeddings collection with
  | [] => Ok empty_result
  | _ =>
      let! sims := np_similarities (embeddings collection) query_embedding in
      let top := top_indices sims top_k in
      let! best := getitem top 0 in
      let! _ := getitem sims best in
      let! result_ids := gather (ids collection) top in
      let! result_docs := gather (documents collection) top in
      let! result_metas := gather (metadatas collection) top in
      let! sim_top := gather sims top in
      let result_distances := map np_distance sim_top in
      Ok {| r_ids := [result_ids]; r_documents := [result_docs];
            r_metadatas := [result_metas];
            r_distances := [result_distances] |}
  end.

Definition query_chunks_np (st : Store) (project_id : Z)
    (query_embedding : vec) (top_k : Z) : Store * result QueryResult :=
  let (st1, collection) := _load_collection st project_id in
  (st1, query_collection_np collection query_embedding top_k).

(** ** Retrieval ([app/services/retrieval.py]) *)

(** The embedding model behind [embed_query]. *)
Variable embed_query : string -> vec.
Variable settings : Settings.

Record RetrievedChunk := {
  rc_file_path : string;
  rc_symbol : string;
  rc_code : string;
  rc_language : string;
  rc_distance : R;
  rc_start_line : option Z;
  rc_end_line : option Z
}.

(** [d.get(key, "unknown")]. *)
Definition get_or_unknown (field : option string) : string :=
  match field with
  | Some s => s
  | None => "unknown"
  end.

(** The metadata dictionary without any key. *)
Definition no_metadata : Metadata :=
  {| m_file_path := None; m_symbol := None; m_language := None;
     m_start_line := None; m_end_line := None |}.

(** [xs[i] if xs else default]. *)
Definition getitem_or {A} (xs : list A) (i : nat) (default : A) : result A :=
  match xs with
  | [] => Ok default
  | _ => getitem xs i
  end.

(** The body of the loop over [enumerate(results["ids"][0])], from
    position [i] on. *)
Fixpoint retrieve_loop (i : nat) (doc_ids : list string)
    (metas : list Metadata) (docs : list string) (dists : list R)
    : result (list RetrievedChunk) :=
  match doc_ids with
  | [] => Ok []
  | _ :: rest =>
      let! meta := getitem_or metas i no_metadata in
      let! code := getitem_or docs i EmptyString in
      let! distance := getitem_or dists i 1%R in
      let! chunks := retrieve_loop (S i) rest metas docs dists in
      Ok ({| rc_file_path := get_or_unknown (m_file_path meta);
             rc_symbol := get_or_unknown (m_symbol meta);
             rc_code := code;
             rc_language := get_or_unknown (m_language meta);
             rc_distance := distance;
             rc_start_line := m_start_line meta;
             rc_end_line := m_end_line meta |} :: chunks)
  end.

Definition retrieve_np (st : Store) (project_id : Z) (question : string)
    (top_k : option Z) : Store * result (list RetrievedChunk) :=
  let top_k :=
    match top_k with
    | None => DEFAULT_TOP_K settings
    | Some k => k
    end in
  let query_emb := embed_query question in
  let (st1, r) := query_chunks_np st project_id query_emb top_k in
  (st1,
   let! results := r in
   match r_ids results with
   | [] => Ok []
   | [] :: _ => Ok []
   | doc_ids :: _ =>
       let! metas := getitem (r_metadatas results) 0 in
       let! docs := getitem (r_documents results) 0 in
       let! dists := getitem (r_distances results) 0 in
       retrieve_loop 0 doc_ids metas docs dists
   end).

End Query.

(** The query and the retrieval in exact arithmetic: the similarities are
    the cosines over the real numbers and the distance is [1 - s], without
    rounding. *)
Definition query_collection (argsort : list R -> list nat)
    (collection : Collection) (query_embedding : vec) (top_k : Z)
    : result QueryResult :=
  query_collection_np similarities (fun s => (1 - s)%R) argsort collection
    query_embedding top_k.

Definition query_chunks (argsort : list R -> list nat) (st : Store)
    (project_id : Z) (query_embedding : vec) (top_k : Z)
    : Store * result QueryResult :=
  query_chunks_np similarities (fun s => (1 - s)%R) argsort st project_id
    query_embedding top_k.

Definition retrieve (argsort : list R -> list nat)
    (embed_query : string -> vec) (settings : Settings) (st : Store)
    (project_id : Z) (question : string) (top_k : option Z)
    : Store * result (list RetrievedChunk) :=
  retrieve_np similarities (fun s => (1 - s)%R) argsort embed_query settings
    st project_id question top_k.

(** The arrow of the location line, U+2192, in UTF-8. *)
Definition arrow : string :=
  String (chr 226) (String (chr 134) (String (chr 146) EmptyString)).

(** The symbols that stand for no symbol. *)
Definition sentinel_symbols : list string :=
  ["<file>"; "<module>"; "<imports>"]%string.

(** An optional integer in an f-string. *)
Definition fmt_opt_int (x : option Z) : string :=
  match x with
  | Some n => str_of_int n
  | None => "None"
  end.

(** The file path, with the line range and the symbol where they are
    shown. *)
Definition location (chunk : RetrievedChunk) : string :=
  let loc := rc_file_path chunk in
  let loc :=
    match rc_start_line chunk with
    | Some s =>
        if s =? 0 then loc
        else (loc ++ " (lines " ++ str_of_int s ++ "-"
                  ++ fmt_opt_int (rc_end_line chunk) ++ ")")%string
    | None => loc
    end in
  if truthy (rc_symbol chunk)
     && negb (existsb (String.eqb (rc_symbol chunk)) sentinel_symbols)
  then (loc ++ " " ++ arrow ++ " " ++ rc_symbol chunk)%string
  else loc.

(** The section of the chunk at position [i]. *)
Definition context_section (i : Z) (chunk : RetrievedChunk) : string :=
  ("--- [" ++ str_of_int i ++ "] " ++ location chunk
   ++ " (" ++ rc_language chunk ++ ") ---" ++ nl ++ rc_code chunk)%string.

(** The sections of [enumerate(chunks, i)]. *)
Fixpoint context_sections (i : Z) (chunks : list RetrievedChunk)
    : list string :=
  match chunks with
  | [] => []
  | chunk :: rest => context_section i chunk :: context_sections (i + 1) rest
  end.

Definition build_context_prompt (chunks : list RetrievedChunk) : string :=
  match chunks with
  | [] => "No relevant code found in the repository."
  | _ => join (nl ++ nl) (context_sections 1 chunks)
  end.

(** ** Notions in which the properties are stated *)

(** The text of the lines [start_line .. end_line] of the content, as the
    chunk numbers them: ["\n".join(lines[start - 1 : end])]. *)
Definition line_range (content : string) (c : CodeChunk) : string :=
  join nl (slice (splitlines content) (start_line c - 1) (end_line c)).

(** The code of the chunk is the text of its line range. *)
Definition exact_code (content : string) (c : CodeChunk) : Prop :=
  code c = line_range content c.

(** The code of the chunk is the text of its line range without the white
    space at its end. *)
Definition rstripped_code (content : string) (c : CodeChunk) : Prop :=
  code c = rstrip (line_range content c).

(** A preamble: no chunk, or one chunk with the symbol [sym] that starts at
    line 1 and whose code is the text of its line range without the white
    space at both ends. *)
Definition preamble_of (sym : string) (content : string)
    (preamble : list CodeChunk) : Prop :=
  (length preamble <= 1)%nat /\
  Forall (fun c => symbol c = sym /\ start_line c = 1 /\
                   code c = strip (line_range content c)) preamble.

(** Number of lines that the ranges of two chunks have in common. *)
Definition shared_lines (c1 c2 : CodeChunk) : Z :=
  Z.max 0 (Z.min (end_line c1) (end_line c2)
           - Z.max (start_line c1) (start_line c2) + 1).

(** The line lies in the range of the chunk. *)
Definition covers (c : CodeChunk) (line : Z) : Prop :=
  start_line c <= line <= end_line c.

(** Number of lines of a chunk. *)
Definition line_count (c : CodeChunk) : Z := end_line c - start_line c + 1.

Section Windows.

Variable settings : Settings.
Variables fp language : string.
Variable lines : list string.

(** The state after [n] rounds of the loop body. *)
Fixpoint rounds (n : nat) (st : loop_state) : loop_state :=
  match n with
  | O => st
  | S m => rounds m (loop_body settings fp language lines st)
  end.

(** The chunks of [n] windows in a row, the first one numbered [idx] and
    starting at index [i]. *)
Fixpoint windows (n : nat) (i idx : Z) : list CodeChunk :=
  match n with
  | O => []
  | S m =>
      window_chunk settings fp language lines i idx
      :: windows m (i + (FALLBACK_CHUNK_LINES settings - overlap)) (idx + 1)
  end.

(** Number of windows over [n] lines: the least [k] with
    [k * (window - overlap) >= n]. *)
Definition window_count (n : Z) : nat :=
  Z.to_nat ((n + (FALLBACK_CHUNK_LINES settings - overlap) - 1)
            / (FALLBACK_CHUNK_LINES settings - overlap)).

End Windows.

(** Every two consecutive chunks share [overlap] lines, the pair with the
    last chunk set aside. *)
Definition overlap_except_final (chunks : list CodeChunk) : Prop :=
  forall k c1 c2,
    nth_error chunks k = Some c1 -> nth_error chunks (S k) = Some c2 ->
    (S (S k) < length chunks)%nat ->
    shared_lines c1 c2 = overlap.

(** A file of [n] lines, each ["x"] followed by a line feed. *)
Fixpoint file_of_lines (n : nat) : string :=
  match n with
  | O => EmptyString
  | S m => ("x" ++ nl ++ file_of_lines m)%string
  end.

(** The settings of [app/config.py] with a window of 38 lines. *)
Definition settings_window_38 : Settings :=
  {| MAX_CHUNK_LINES := 200; FALLBACK_CHUNK_LINES := 38; DEFAULT_TOP_K := 20 |}.

(** The functions among the child nodes of a class: name, first line and
    last line. *)
Fixpoint methods (children : list node) : list (string * Z * option Z) :=
  match children with
  | [] => []
  | FunctionDef name lineno end_lineno :: rest =>
      (name, lineno, end_lineno) :: methods rest
  | _ :: rest => methods rest
  end.


(** The last line of the header of a split class: the line before the
    first method, the first line of a class without methods. *)
Definition class_header_end (lineno : Z) (children : list node) : Z :=
  match methods children with
  | (_, l, _) :: _ => l - 1
  | [] => lineno
  end.


(** A file with a class of two lines. *)
Definition small_class_file : string :=
  ("class A:" ++ nl ++ "    x = 1" ++ nl)%string.




(** The four lists of a collection have one length. *)
Definition aligned (c : Collection) : Prop :=
  length (ids c) = length (embeddings c) /\
  length (documents c) = length (embeddings c) /\
  length (metadatas c) = length (embeddings c).

(** Every collection, cached or stored in a file, is aligned. *)
Definition store_aligned (st : Store) : Prop :=
  (forall pid c, cache st !! pid = Some c -> aligned c) /\
  (forall pid c, disk st !! pid = Some c -> aligned c).

(** A cached collection is the one of the file, or the empty collection
    of a project without file. *)
Definition coherent (st : Store) : Prop :=
  forall pid c,
    cache st !! pid = Some c ->
    disk st !! pid = Some c \/ (disk st !! pid = None /\ c = empty_collection).

(** The collection of a project as the module sees it. *)
Definition collection_of (st : Store) (project_id : Z) : Collection :=
  snd (_load_collection st project_id).

(** The state of a process that has just started, without any file. *)
Definition fresh_store : Store := {| cache := ∅; disk := ∅ |}.

(** The states that the module can be in: a process starts with an empty
    cache over whatever files there are, and then adds, queries and
    deletes. *)
Inductive reachable : Store -> Prop :=
| reach_start (files : gmap Z Collection) :
    reachable {| cache := ∅; disk := files |}
| reach_add st pid new_ids new_docs new_embs new_metas :
    reachable st ->
    reachable (add_chunks st pid new_ids new_docs new_embs new_metas)
| reach_query argsort st pid query top_k :
    reachable st ->
    reachable (fst (query_chunks argsort st pid query top_k))
| reach_delete st pid :
    reachable st -> reachable (delete_collection st pid).

(** The metadata that ingestion writes for a chunk
    ([app/routers/upload.py]). *)
Definition chunk_metadata (c : CodeChunk) : Metadata :=
  {| m_file_path := Some (file_path c); m_symbol := Some (symbol c);
     m_language := Some (language c);
     m_start_line := Some (or_else (Some (start_line c)) 0);
     m_end_line := Some (or_else (Some (end_line c)) 0) |}.

(** A chunk for the examples. *)
Definition sample_chunk : CodeChunk :=
  {| file_path := "a.py"; symbol := "f"; code := "def f(): pass";
     language := "python"; start_line := 1; end_line := 1 |}.

(** The line range of a header: there when the start line is present (and
    not the [0] that ingestion writes for a missing line). *)
Definition range_text (chunk : RetrievedChunk) : string :=
  match rc_start_line chunk with
  | Some s =>
      if s =? 0 then EmptyString
      else (" (lines " ++ str_of_int s ++ "-"
              ++ fmt_opt_int (rc_end_line chunk) ++ ")")%string
  | None => EmptyString
  end.

(** The symbol of a header: there unless the symbol is empty or one of
    [<file>], [<module>], [<imports>]. *)
Definition symbol_text (chunk : RetrievedChunk) : string :=
  if String.eqb (rc_symbol chunk) EmptyString
     || String.eqb (rc_symbol chunk) "<file>"
     || String.eqb (rc_symbol chunk) "<module>"
     || String.eqb (rc_symbol chunk) "<imports>"
  then EmptyString
  else (" " ++ arrow ++ " " ++ rc_symbol chunk)%string.

(** Two chunks for the examples. *)
Definition retrieved_f : RetrievedChunk :=
  {| rc_file_path := "src/a.py"; rc_symbol := "f"; rc_code := "def f(): pass";
     rc_language := "python"; rc_distance := 0%R;
     rc_start_line := Some 3; rc_end_line := Some 3 |}.

Definition retrieved_readme : RetrievedChunk :=
  {| rc_file_path := "README.md"; rc_symbol := "<file>"; rc_code := "# Title";
     rc_language := "markdown"; rc_distance := 1%R;
     rc_start_line := None; rc_end_line := None |}.

(** Order of the indices under the stable ascending sort: by value, and by
    position among equal values. *)
Definition sorted_before (v : list R) (i j : nat) : Prop :=
  (nth i v 0 < nth j v 0)%R \/ (nth i v 0%R = nth j v 0%R /\ (i < j)%nat).

(** Order of the indices in a ranking that reverses the stable ascending
    sort: the higher value first, and among equal values the later position
    first. *)
Definition ranked_before (v : list R) (i j : nat) : Prop :=
  (nth j v 0 < nth i v 0)%R \/ (nth i v 0%R = nth j v 0%R /\ (j < i)%nat).

(** The four lists of a result for the indices [top] of a collection, the
    distances taken from the similarities [sims]. *)
Definition result_at (c : Collection) (sims : list R) (top : list nat)
    : QueryResult :=
  {| r_ids := [map (fun i => nth i (ids c) EmptyString) top];
     r_documents := [map (fun i => nth i (documents c) EmptyString) top];
     r_metadatas := [map (fun i => nth i (metadatas c) no_metadata) top];
     r_distances := [map (fun i => (1 - nth i sims 0)%R) top] |}.

(** The same for a distance that is computed by [distance]. *)
Definition result_with (distance : R -> R) (c : Collection) (sims : list R)
    (top : list nat) : QueryResult :=
  {| r_ids := [map (fun i => nth i (ids c) EmptyString) top];
     r_documents := [map (fun i => nth i (documents c) EmptyString) top];
     r_metadatas := [map (fun i => nth i (metadatas c) no_metadata) top];
     r_distances := [map (fun i => distance (nth i sims 0%R)) top] |}.

(** The similarities of the stored vectors to the query vector, when all of
    them have the length of the query vector. *)
Definition cosines (stored : list vec) (query : vec) : list R :=
  map (fun s => dot (normalize s) (normalize query)) stored.

(** A store with two chunks that have the same embedding. *)
Definition tied_store : Store :=
  add_chunks fresh_store 1 ["first"; "second"]%string
    ["def f(): pass"; "def g(): pass"]%string [[1%R]; [1%R]]
    [chunk_metadata sample_chunk; chunk_metadata sample_chunk].

(** A store with one chunk. *)
Definition single_store : Store :=
  add_chunks fresh_store 1 ["chunk_1_0"%string] [code sample_chunk] [[1%R]]
    [chunk_metadata sample_chunk].

(** The settings of [app/config.py] with a window of 20 lines. *)
Definition settings_window_20 : Settings :=
  {| MAX_CHUNK_LINES := 200; FALLBACK_CHUNK_LINES := 20; DEFAULT_TOP_K := 20 |}.

(** ** Definitions for the further properties *)

(** The chunk that [retrieve] builds for the entry at index [i] of a
    collection, with the similarities [sims]. *)
Definition retrieved_at (c : Collection) (sims : list R) (i : nat)
    : RetrievedChunk :=
  {| rc_file_path :=
       get_or_unknown (m_file_path (nth i (metadatas c) no_metadata));
     rc_symbol := get_or_unknown (m_symbol (nth i (metadatas c) no_metadata));
     rc_code := nth i (documents c) EmptyString;
     rc_language :=
       get_or_unknown (m_language (nth i (metadatas c) no_metadata));
     rc_distance := (1 - nth i sims 0)%R;
     rc_start_line := m_start_line (nth i (metadatas c) no_metadata);
     rc_end_line := m_end_line (nth i (metadatas c) no_metadata) |}.

(** The same for a distance that is computed by [distance]. *)
Definition retrieved_with (distance : R -> R) (c : Collection)
    (sims : list R) (i : nat) : RetrievedChunk :=
  {| rc_file_path :=
       get_or_unknown (m_file_path (nth i (metadatas c) no_metadata));
     rc_symbol := get_or_unknown (m_symbol (nth i (metadatas c) no_metadata));
     rc_code := nth i (documents c) EmptyString;
     rc_language :=
       get_or_unknown (m_language (nth i (metadatas c) no_metadata));
     rc_distance := distance (nth i sims 0%R);
     rc_start_line := m_start_line (nth i (metadatas c) no_metadata);
     rc_end_line := m_end_line (nth i (metadatas c) no_metadata) |}.

(** ** The sources of an answer ([app/routers/chat.py]) *)

(** An entry of the list [sources]. *)
Record Source := {
  src_file_path : string;
  src_symbol : string;
  src_language : string;
  src_start_line : option Z;
  src_end_line : option Z
}.

Definition source_of (chunk : RetrievedChunk) : Source :=
  {| src_file_path := rc_file_path chunk; src_symbol := rc_symbol chunk;
     src_language := rc_language chunk;
     src_start_line := rc_start_line chunk;
     src_end_line := rc_end_line chunk |}.

(** The loop of [chat_with_project] over the chunks, from the lists
    [sources] and the set [seen_files] that it has built so far. *)
Fixpoint sources_loop (sources : list Source) (seen_files : gset string)
    (chunks : list RetrievedChunk) : list Source :=
  match chunks with
  | [] => sources
  | chunk :: rest =>
      if decide (rc_file_path chunk ∈ seen_files)
      then sources_loop sources seen_files rest
      else sources_loop (sources ++ [source_of chunk])
             (seen_files ∪ {[rc_file_path chunk]}) rest
  end.

(** The list [sources] of [chat_with_project]. *)
Definition chat_sources (chunks : list RetrievedChunk) : list Source :=
  sources_loop [] ∅ chunks.

(** ** More string functions of Python *)

(** [s.startswith(prefix)]. *)
Definition startswith (prefix s : string) : bool := String.prefix prefix s.

(** [c in s] for a string [c] of one character. *)
Fixpoint contains_char (c : ascii) (s : string) : bool :=
  match s with
  | EmptyString => false
  | String x rest => Ascii.eqb x c || contains_char c rest
  end.

(** [s.split(c, 1)[0]]: the text in front of the first [c], all of [s]
    without one. *)
Fixpoint before_char (c : ascii) (s : string) : string :=
  match s with
  | EmptyString => EmptyString
  | String x rest =>
      if Ascii.eqb x c then EmptyString else String x (before_char c rest)
  end.

(** [s.split(c)] for a string [c] of one character. *)
Fixpoint split_char (c : ascii) (s : string) : list string :=
  match s with
  | EmptyString => [EmptyString]
  | String x rest =>
      if Ascii.eqb x c then EmptyString :: split_char c rest
      else cons_line x (split_char c rest)
  end.

(** ** Masking of [.env] files ([app/services/repo_service.py]) *)

(** The body of the loop of [_mask_env_content]: what is appended to
    [masked_lines] for a line. *)
Definition mask_line (line : string) : string :=
  let stripped := strip line in
  if truthy stripped && negb (startswith "#" stripped)
     && contains_char "=" stripped
  then (before_char "=" stripped ++ "=***MASKED***")%string
  else line.

Definition _mask_env_content (content : string) : string :=
  join nl (map mask_line (splitlines content)).

(** ** Code edits ([app/services/llm_service.py]) *)

Section CodeEdit.

(** The call of the provider behind [_generate], with the prompt, the
    temperature, the token limit and the provider name, and the setting
    [LLM_CODE_TEMPERATURE]. *)
Variable _generate : string -> R -> Z -> string -> result string.
Variable LLM_CODE_TEMPERATURE : R.

Definition _edit_prompt (context file_content file_path instruction : string)
    : string :=
  ("You are an expert software engineer. You need to modify a source file."
   ++ nl ++ nl
   ++ "Here is relevant context from the project:" ++ nl ++ nl
   ++ context ++ nl ++ nl
   ++ "---" ++ nl ++ nl
   ++ "File to modify: " ++ file_path ++ nl ++ nl
   ++ "```" ++ nl
   ++ file_content ++ nl
   ++ "```" ++ nl ++ nl
   ++ "---" ++ nl ++ nl
   ++ "Modification instruction:" ++ nl
   ++ instruction ++ nl ++ nl
   ++ "---" ++ nl ++ nl
   ++ "IMPORTANT RULES:" ++ nl
   ++ "1. Return the COMPLETE modified file content." ++ nl
   ++ "2. Do NOT omit any existing code unless the instruction specifically asks to remove it."
   ++ nl
   ++ "3. Do NOT add explanatory comments unless asked." ++ nl
   ++ "4. Return ONLY the code, no markdown code fences, no explanations before or after."
   ++ nl
   ++ "5. Preserve the original formatting style, indentation, and conventions."
   ++ nl)%string.

Definition generate_code_edit
    (context file_content file_path instruction provider : string)
    : result string :=
  let prompt := _edit_prompt context file_content file_path instruction in
  let! result := _generate prompt LLM_CODE_TEMPERATURE 8192 provider in
  let result := strip result in
  if startswith "```" result then
    let lines := split_char (chr 10) result in
    let lines := List.tl lines in
    let lines :=
      match lines with
      | [] => lines
      | _ =>
          if String.eqb (strip (List.last lines EmptyString)) "```"
          then List.removelast lines else lines
      end in
    Ok (join nl lines)
  else Ok result.

End CodeEdit.

(** ** Ingestion ([app/routers/upload.py]) *)

(** A file that [filter_files] has found. *)
Record FileInfo := {
  fi_path : string;
  fi_relative_path : string;
  fi_language : string;
  fi_content : string
}.

(** The columns of a project that ingestion reads or writes. *)
Record Project := {
  p_status : string;
  p_total_files : Z;
  p_total_chunks : Z
}.

(** A row of the table [chunks]. *)
Record ChunkRow := {
  row_project_id : Z;
  row_file_path : string;
  row_symbol : string;
  row_content : string;
  row_language : string;
  row_start_line : Z;
  row_end_line : Z;
  row_chunk_index : Z
}.

(** The committed tables. *)
Record Database := {
  projects : gmap Z Project;
  chunk_rows : list ChunkRow
}.

(** The text that is embedded for a chunk. *)
Definition embedding_text (c : CodeChunk) : string :=
  ("File: " ++ file_path c ++ nl ++ "Symbol: " ++ symbol c ++ nl
   ++ "Language: " ++ language c ++ nl ++ nl ++ code c)%string.

(** The id of the chunk at position [i] of a project. *)
Definition chunk_id (project_id : Z) (i : nat) : string :=
  ("chunk_" ++ str_of_int project_id ++ "_" ++ str_of_int (Z.of_nat i))%string.

(** The rows of [enumerate(all_chunks)], from position [i] on. *)
Fixpoint chunk_rows_from (project_id : Z) (i : nat)
    (chunks : list CodeChunk) : list ChunkRow :=
  match chunks with
  | [] => []
  | c :: rest =>
      {| row_project_id := project_id; row_file_path := file_path c;
         row_symbol := symbol c; row_content := code c;
         row_language := language c; row_start_line := start_line c;
         row_end_line := end_line c; row_chunk_index := Z.of_nat i |}
      :: chunk_rows_from project_id (S i) rest
  end.

Section Ingestion.

(** The chunker with its libraries, [repo_service.filter_files] and
    [embedding.embed_texts], which raises when the model fails. *)
Variable settings : Settings.
Variable ast_parse : string -> result (list node).
Variable re_match : string -> string -> bool.
Variable re_search : string -> string -> option string.
Variable filter_files : string -> list FileInfo.
Variable embed_texts : list string -> result (list vec).

(** The loop that chunks every file: [None] when a file keeps the fallback
    running forever, the exception of the first file on which [chunk_file]
    raises, otherwise the chunks of all files in a row. *)
Fixpoint chunk_all (files : list FileInfo)
    : option (result (list CodeChunk)) :=
  match files with
  | [] => Some (Ok [])
  | f :: rest =>
      match chunk_file settings ast_parse re_match re_search
              (fi_relative_path f) (fi_content f) (fi_language f) with
      | None => None
      | Some (Raise e) => Some (Raise e)
      | Some (Ok file_chunks) =>
          match chunk_all rest with
          | None => None
          | Some (Raise e) => Some (Raise e)
          | Some (Ok more) => Some (Ok (file_chunks ++ more))
          end
      end
  end.

(** The background task, on the committed tables and the vector store.
    An exception of the chunker or of the embedder is caught at the end of
    the task, where the project is marked as failed; the file count is
    committed before.  The writes themselves, to the file of the collection
    and to the tables, are taken to succeed, as in [add_chunks]: a task
    whose write fails half-way is outside this function. *)
Definition _process_repo (db : Database) (st : Store) (project_id : Z)
    (repo_path : string) : option (Database * Store) :=
  match projects db !! project_id with
  | None => Some (db, st)
  | Some project =>
      let files := filter_files repo_path in
      let project :=
        {| p_status := p_status project; p_total_files := len files;
           p_total_chunks := p_total_chunks project |} in
      let commit (p : Project) : Database :=
        {| projects := <[project_id := p]> (projects db);
           chunk_rows := chunk_rows db |} in
      match files with
      | [] =>
          Some (commit {| p_status := "ready";
                          p_total_files := p_total_files project;
                          p_total_chunks := 0 |}, st)
      | _ =>
          match chunk_all files with
          | None => None
          | Some (Raise _) =>
              Some (commit {| p_status := "error";
                              p_total_files := p_total_files project;
                              p_total_chunks := p_total_chunks project |}, st)
          | Some (Ok []) =>
              Some (commit {| p_status := "ready";
                              p_total_files := p_total_files project;
                              p_total_chunks := p_total_chunks project |}, st)
          | Some (Ok all_chunks) =>
              match embed_texts (map embedding_text all_chunks) with
              | Raise _ =>
                  Some (commit {| p_status := "error";
                                  p_total_files := p_total_files project;
                                  p_total_chunks := p_total_chunks project |},
                        st)
              | Ok embeddings =>
                  let ids :=
                    map (chunk_id project_id) (seq 0 (length all_chunks)) in
                  let documents := map code all_chunks in
                  let metadatas := map chunk_metadata all_chunks in
                  let st' :=
                    add_chunks st project_id ids documents embeddings
                      metadatas in
                  Some ({| projects :=
                             <[project_id :=
                                 {| p_status := "ready";
                                    p_total_files := p_total_files project;
                                    p_total_chunks := len all_chunks |}]>
                               (projects db);
                           chunk_rows :=
                             chunk_rows db
                             ++ chunk_rows_from project_id 0 all_chunks |},
                        st')
              end
          end
      end
  end.

End Ingestion.

(** A repository with one file, and the tables with one new project. *)
Definition readme_file : FileInfo :=
  {| fi_path := "/repo/README.md"; fi_relative_path := "README.md";
     fi_language := "markdown"; fi_content := "# Title" |}.

Definition readme_chunk : CodeChunk :=
  {| file_path := "README.md"; symbol := "<file>"; code := "# Title";
     language := "markdown"; start_line := 1; end_line := 1 |}.

Definition new_project : Project :=
  {| p_status := "processing"; p_total_files := 0; p_total_chunks := 0 |}.

Definition one_project : Database :=
  {| projects := {[1 := new_project]}; chunk_rows := [] |}.

(** * Properties *)

(** * Facts about the string and sequence helpers *)

Lemma cons_line_not_nil c ls : cons_line c ls <> [].
Proof. destruct ls; discriminate. Qed.

Lemma splitlines_not_nil s : s <> EmptyString -> splitlines s <> [].
Proof.
  destruct s as [|c rest]; [congruence|intros _].
  cbn [splitlines].
  repeat match goal with
         | |- context [if ?b then _ else _] => destruct b
         | |- context [match ?r with EmptyString => _ | String _ _ => _ end] =>
             destruct r
         | |- cons_line _ _ <> [] => apply cons_line_not_nil
         | |- _ :: _ <> [] => discriminate
         end.
Qed.

Lemma len_nonneg {A} (l : list A) : 0 <= len l.
Proof. unfold len. lia. Qed.

(** * The loop of the fixed-window fallback *)

Section LoopFacts.

Variable settings : Settings.
Variables fp language : string.
Variable lines : list string.

Let W := FALLBACK_CHUNK_LINES settings.
Let S_ := FALLBACK_CHUNK_LINES settings - overlap.

Lemma rounds_i n st :
  ls_i (rounds settings fp language lines n st) = ls_i st + Z.of_nat n * S_.
Proof.
  revert st. induction n as [|n IH]; intros st; cbn [rounds].
  - lia.
  - rewrite IH. cbn. subst S_. lia.
Qed.

Lemma rounds_chunks n st :
  ls_chunks (rounds settings fp language lines n st)
  = ls_chunks st ++ windows settings fp language lines n (ls_i st) (ls_idx st).
Proof.
  revert st. induction n as [|n IH]; intros st; cbn [rounds windows].
  - now rewrite app_nil_r.
  - rewrite IH. cbn. now rewrite <- app_assoc.
Qed.

(** The loop leaves after [n] rounds when the condition holds before each of
    them, fails after them, and the fuel lasts. *)
Lemma while_loop_rounds n : forall fuel st,
  (forall m, (m < n)%nat ->
     ls_i (rounds settings fp language lines m st) < len lines) ->
  len lines <= ls_i (rounds settings fp language lines n st) ->
  (n <= fuel)%nat ->
  while_loop settings fuel fp language lines st
  = Some (rounds settings fp language lines n st).
Proof.
  induction n as [|n IH]; intros fuel st Hlt Hge Hfuel.
  - cbn in Hge.
    destruct fuel; cbn; destruct (Z.ltb_spec (ls_i st) (len lines));
      try lia; reflexivity.
  - destruct fuel as [|fuel]; [lia|].
    cbn [while_loop]. specialize (Hlt O ltac:(lia)) as H0. cbn in H0.
    destruct (Z.ltb_spec (ls_i st) (len lines)); [|lia].
    apply IH; [|exact Hge|lia].
    intros m Hm. apply (Hlt (S m)). lia.
Qed.

(** With a step that does not advance, the condition never fails. *)
Lemma while_loop_stuck fuel : forall st,
  W <= overlap -> ls_i st < len lines ->
  while_loop settings fuel fp language lines st = None.
Proof.
  induction fuel as [|fuel IH]; intros st HW Hi; cbn [while_loop];
    destruct (Z.ltb_spec (ls_i st) (len lines)); try lia; [reflexivity|].
  apply IH; [exact HW|]. cbn. subst W. lia.
Qed.

Lemma window_count_spec n :
  overlap < W -> 0 <= n ->
  n <= Z.of_nat (window_count settings n) * S_ /\
  (Z.of_nat (window_count settings n) - 1) * S_ < n.
Proof.
  intros HW Hn. unfold window_count. fold S_.
  assert (Hs : 0 < S_) by (subst S_ W; lia).
  assert (Hq : 0 <= (n + S_ - 1) / S_) by (apply Z.div_pos; lia).
  rewrite Z2Nat.id by exact Hq.
  pose proof (Z.div_mod (n + S_ - 1) S_ ltac:(lia)) as Hdm.
  pose proof (Z.mod_pos_bound (n + S_ - 1) S_ Hs) as Hm.
  nia.
Qed.

Lemma while_loop_windows fuel :
  overlap < W -> (length lines <= fuel)%nat ->
  while_loop settings fuel fp language lines loop_init
  = Some (rounds settings fp language lines
            (window_count settings (len lines)) loop_init).
Proof.
  intros HW Hfuel.
  destruct (window_count_spec (len lines) HW (len_nonneg lines)) as [Hge Hlt].
  assert (Hs : 0 < S_) by (subst S_ W; lia).
  apply while_loop_rounds.
  - intros m Hm. rewrite rounds_i. cbn [ls_i loop_init]. nia.
  - rewrite rounds_i. cbn [ls_i loop_init]. lia.
  - unfold len in *. nia.
Qed.

Lemma windows_length n i idx :
  length (windows settings fp language lines n i idx) = n.
Proof.
  revert i idx. induction n as [|n IH]; intros i idx; cbn; [|rewrite IH];
    reflexivity.
Qed.

Lemma windows_nth n : forall i idx k,
  (k < n)%nat ->
  nth_error (windows settings fp language lines n i idx) k
  = Some (window_chunk settings fp language lines
            (i + Z.of_nat k * S_) (idx + Z.of_nat k)).
Proof.
  induction n as [|n IH]; intros i idx k Hk; [lia|].
  destruct k as [|k]; cbn [windows nth_error].
  - do 2 f_equal; lia.
  - rewrite IH by lia. fold S_. do 2 f_equal; lia.
Qed.

Lemma windows_nth_inv n i idx k c :
  nth_error (windows settings fp language lines n i idx) k = Some c ->
  (k < n)%nat /\
  c = window_chunk settings fp language lines
        (i + Z.of_nat k * S_) (idx + Z.of_nat k).
Proof.
  intros H.
  assert (Hk : (k < n)%nat).
  { rewrite <- (windows_length n i idx). apply nth_error_Some. congruence. }
  split; [exact Hk|]. rewrite windows_nth in H by exact Hk. congruence.
Qed.

End LoopFacts.

(** * The fixed-window fallback *)

Section FallbackFacts.

Variable settings : Settings.
Variables fp content language : string.

Let W := FALLBACK_CHUNK_LINES settings.
Let lines := splitlines content.

Lemma window_count_zero : overlap < W -> window_count settings 0 = O.
Proof.
  intros HW. unfold window_count. fold W.
  rewrite Z.div_small by lia. reflexivity.
Qed.

(** With a window above the overlap, a file that is not emitted whole is
    cut into [window_count] windows. *)
Lemma chunk_by_lines_fuel_windows fuel :
  overlap < W -> MAX_CHUNK_LINES settings < len lines ->
  (length lines <= fuel)%nat ->
  chunk_by_lines_fuel settings fuel fp content language
  = Some (windows settings fp language lines
            (window_count settings (len lines)) 0 0).
Proof.
  intros HW HL Hfuel. unfold chunk_by_lines_fuel. fold lines.
  destruct lines as [|l ls] eqn:E.
  - change (len (@nil string)) with 0.
    rewrite window_count_zero by exact HW. reflexivity.
  - destruct (Z.leb_spec (len (l :: ls)) (MAX_CHUNK_LINES settings)); [lia|].
    rewrite while_loop_windows by assumption.
    cbn [option_map]. rewrite rounds_chunks. reflexivity.
Qed.

(** With a window within the overlap, the same files keep the loop running
    whatever the fuel. *)
Lemma chunk_by_lines_fuel_stuck fuel :
  W <= overlap -> content <> EmptyString ->
  MAX_CHUNK_LINES settings < len lines ->
  chunk_by_lines_fuel settings fuel fp content language = None.
Proof.
  intros HW Hne HL. unfold chunk_by_lines_fuel. fold lines.
  pose proof (splitlines_not_nil content Hne) as Hnil. fold lines in Hnil.
  destruct lines as [|l ls] eqn:E; [congruence|].
  destruct (Z.leb_spec (len (l :: ls)) (MAX_CHUNK_LINES settings)); [lia|].
  rewrite while_loop_stuck; [reflexivity|exact HW|].
  cbn. unfold len. cbn. lia.
Qed.

(** Files that are empty or short do not reach the loop. *)
Lemma chunk_by_lines_fuel_short fuel :
  content = EmptyString \/ len lines <= MAX_CHUNK_LINES settings ->
  exists chunks,
    chunk_by_lines_fuel settings fuel fp content language = Some chunks /\
    (content <> EmptyString -> chunks <> []) /\
    forall fuel',
      chunk_by_lines_fuel settings fuel' fp content language = Some chunks.
Proof.
  intros H. unfold chunk_by_lines_fuel. fold lines.
  destruct lines as [|l ls] eqn:E.
  - exists []. repeat split; try reflexivity.
    intros Hne. apply splitlines_not_nil in Hne. fold lines in Hne. congruence.
  - destruct H as [H|H].
    + subst content. discriminate E.
    + destruct (Z.leb_spec (len (l :: ls)) (MAX_CHUNK_LINES settings));
        [|lia].
      eexists. repeat split; try reflexivity. discriminate.
Qed.

(** Fuel beyond the number of lines changes nothing. *)
Lemma chunk_by_lines_fuel_stable fuel :
  (length lines <= fuel)%nat ->
  chunk_by_lines_fuel settings fuel fp content language
  = _chunk_by_lines settings fp content language.
Proof.
  intros Hfuel. unfold _chunk_by_lines. fold lines.
  destruct (Z.le_gt_cases (len lines) (MAX_CHUNK_LINES settings)) as [Hs|Hl].
  - destruct (chunk_by_lines_fuel_short fuel (or_intror Hs))
      as (chunks & _ & _ & Hall).
    now rewrite !Hall.
  - destruct (Z.lt_ge_cases overlap W) as [HW|HW].
    + now rewrite !chunk_by_lines_fuel_windows by (assumption || lia).
    + destruct (string_dec content EmptyString) as [He|Hne].
      * destruct (chunk_by_lines_fuel_short fuel (or_introl He))
          as (chunks & _ & _ & Hall).
        now rewrite !Hall.
      * now rewrite !chunk_by_lines_fuel_stuck by assumption.
Qed.

(** [None] stands for a loop that never ends. *)
Lemma chunk_by_lines_none_diverges :
  _chunk_by_lines settings fp content language = None <->
  forall fuel, chunk_by_lines_fuel settings fuel fp content language = None.
Proof.
  split.
  - intros HN fuel.
    destruct (Z.le_gt_cases (len lines) (MAX_CHUNK_LINES settings)) as [Hs|Hl].
    + destruct (chunk_by_lines_fuel_short O (or_intror Hs))
        as (chunks & _ & _ & Hall).
      unfold _chunk_by_lines in HN. rewrite Hall in HN. discriminate.
    + destruct (Z.lt_ge_cases overlap W) as [HW|HW].
      * unfold _chunk_by_lines in HN.
        rewrite chunk_by_lines_fuel_windows in HN by (assumption || apply Nat.le_refl).
        discriminate.
      * destruct (string_dec content EmptyString) as [He|Hne].
        -- destruct (chunk_by_lines_fuel_short O (or_introl He))
             as (chunks & _ & _ & Hall).
           unfold _chunk_by_lines in HN. rewrite Hall in HN. discriminate.
        -- now apply chunk_by_lines_fuel_stuck.
  - intros H. apply H.
Qed.

End FallbackFacts.

(** C10.  The loop of [_chunk_by_lines] terminates on every content when
    [FALLBACK_CHUNK_LINES] is above the overlap of 20 lines: some amount of
    fuel yields a result, which more fuel does not change and which
    [_chunk_by_lines] returns.  When [FALLBACK_CHUNK_LINES] is at most 20, the
    loop never terminates on a file that has lines and more of them than
    [MAX_CHUNK_LINES]: no amount of fuel yields a result. *)
Theorem chunk_by_lines_termination (settings : Settings)
    (fp content language : string) :
  (overlap < FALLBACK_CHUNK_LINES settings ->
   exists chunks,
     _chunk_by_lines settings fp content language = Some chunks /\
     forall fuel, (length (splitlines content) <= fuel)%nat ->
       chunk_by_lines_fuel settings fuel fp content language = Some chunks)
  /\
  (FALLBACK_CHUNK_LINES settings <= overlap ->
   content <> EmptyString ->
   MAX_CHUNK_LINES settings < len (splitlines content) ->
   forall fuel,
     chunk_by_lines_fuel settings fuel fp content language = None).
Proof.
  split.
  - intros HW.
    destruct (Z.le_gt_cases (len (splitlines content))
                (MAX_CHUNK_LINES settings)) as [Hs|Hl].
    + destruct (chunk_by_lines_fuel_short settings fp content language O
                  (or_intror Hs)) as (chunks & _ & _ & Hall).
      exists chunks. split; [apply Hall|intros; apply Hall].
    + eexists. split.
      * apply chunk_by_lines_fuel_windows; [exact HW|lia|apply Nat.le_refl].
      * intros fuel Hfuel.
        apply chunk_by_lines_fuel_windows; [exact HW|lia|exact Hfuel].
  - intros HW Hne HL fuel. now apply chunk_by_lines_fuel_stuck.
Qed.

Lemma chunk_by_lines_termination_witness :
  (exists chunks,
     _chunk_by_lines default_settings "a.txt" (file_of_lines 201) "text"
     = Some chunks) /\
  (forall fuel,
     chunk_by_lines_fuel settings_window_20 fuel "a.txt" (file_of_lines 201)
       "text" = None).
Proof.
  split.
  - destruct (chunk_by_lines_termination default_settings "a.txt"
                (file_of_lines 201) "text") as [Hterm _].
    destruct (Hterm ltac:(reflexivity)) as (chunks & Hrun & _).
    exists chunks. exact Hrun.
  - destruct (chunk_by_lines_termination settings_window_20 "a.txt"
                (file_of_lines 201) "text") as [_ Hloop].
    apply Hloop; [unfold overlap; cbn; lia|vm_compute; discriminate|reflexivity].
Defined.

Section WindowFacts.

Variable settings : Settings.
Variables fp content language : string.

Let W := FALLBACK_CHUNK_LINES settings.
Let S_ := FALLBACK_CHUNK_LINES settings - overlap.
Let lines := splitlines content.
Let L := len (splitlines content).

Hypothesis window_above_overlap : overlap < W.

Let chunks :=
  windows settings fp language lines (window_count settings L) 0 0.

Lemma chunk_at k c :
  nth_error chunks k = Some c ->
  Z.of_nat k * S_ < L /\
  start_line c = Z.of_nat k * S_ + 1 /\
  end_line c = Z.min (Z.of_nat k * S_ + W) L.
Proof.
  intros H. apply windows_nth_inv in H. destruct H as [Hk ->].
  destruct (window_count_spec settings L window_above_overlap
              (len_nonneg _)) as [_ Hlt].
  fold S_ in Hlt |- *. cbn. fold W lines L.
  assert (Hs : 0 < S_) by (subst S_ W; lia).
  repeat split; try (f_equal; lia). nia.
Qed.

Lemma chunk_exists k :
  0 <= k -> k * S_ < L -> exists c,
    nth_error chunks (Z.to_nat k) = Some c.
Proof.
  intros Hk Hlt.
  destruct (window_count_spec settings L window_above_overlap
              (len_nonneg _)) as [Hge _].
  fold S_ in Hge.
  assert (Hs : 0 < S_) by (subst S_ W; lia).
  eexists. apply windows_nth. nia.
Qed.

(** A full window shares exactly [overlap] lines with its successor. *)
Lemma full_window_overlap k c1 c2 :
  nth_error chunks k = Some c1 -> nth_error chunks (S k) = Some c2 ->
  line_count c1 = W -> shared_lines c1 c2 = overlap.
Proof.
  intros H1 H2 Hfull.
  apply chunk_at in H1. destruct H1 as (_ & Hs1 & He1).
  apply chunk_at in H2. destruct H2 as (Hlt & Hs2 & He2).
  unfold line_count in Hfull. unfold shared_lines.
  rewrite Nat2Z.inj_succ in *. subst W S_. unfold overlap in *. lia.
Qed.

(** When the window is at least twice the overlap less one, only the last
    window can fall short. *)
Lemma wide_window_overlap :
  2 * overlap - 1 <= W -> overlap_except_final chunks.
Proof.
  intros Hwide k c1 c2 H1 H2 Hk.
  apply (full_window_overlap k c1 c2 H1 H2).
  destruct (nth_error chunks (S (S k))) as [c3|] eqn:H3.
  - apply chunk_at in H1. destruct H1 as (_ & Hs1 & He1).
    apply chunk_at in H3. destruct H3 as (Hlt & _ & _).
    unfold line_count. rewrite !Nat2Z.inj_succ in *.
    subst W S_. unfold overlap in *. lia.
  - apply nth_error_None in H3. lia.
Qed.

(** The ranges of the windows are the lines of the file. *)
Lemma windows_cover line :
  1 <= line <= L <-> exists c, In c chunks /\ covers c line.
Proof.
  assert (Hs : 0 < S_) by (subst S_ W; lia).
  split.
  - intros Hline.
    pose proof (Z.div_mod (line - 1) S_ ltac:(lia)) as Hdm.
    pose proof (Z.mod_pos_bound (line - 1) S_ Hs) as Hm.
    assert (Hq : 0 <= (line - 1) / S_) by (apply Z.div_pos; lia).
    destruct (chunk_exists ((line - 1) / S_) Hq ltac:(nia)) as [c Hc].
    exists c. split; [eapply nth_error_In, Hc|].
    apply chunk_at in Hc. destruct Hc as (_ & Hs1 & He1).
    rewrite Z2Nat.id in * by exact Hq.
    unfold covers. subst W S_. unfold overlap in *. lia.
  - intros (c & Hin & Hcov). apply In_nth_error in Hin. destruct Hin as [k Hk].
    apply chunk_at in Hk. destruct Hk as (Hlt & Hs1 & He1).
    unfold covers in Hcov. lia.
Qed.

End WindowFacts.

(** C5 (amended).  For a file with more lines than [MAX_CHUNK_LINES] and a
    window [W = FALLBACK_CHUNK_LINES] above the overlap [V = 20], the fallback
    returns chunks such that: every two consecutive chunks of which the first
    is a full window of [W] lines share exactly [V] lines; when
    [W >= 2 * V - 1 = 39] (the default of 150 among them) this holds for
    every pair of consecutive chunks except possibly the one with the last
    chunk; and the ranges of the chunks together are exactly the lines 1 to
    the last line of the file. *)
Theorem windows_overlap_and_cover (settings : Settings)
    (fp content language : string) :
  overlap < FALLBACK_CHUNK_LINES settings ->
  MAX_CHUNK_LINES settings < len (splitlines content) ->
  exists chunks,
    _chunk_by_lines settings fp content language = Some chunks /\
    (forall k c1 c2,
       nth_error chunks k = Some c1 -> nth_error chunks (S k) = Some c2 ->
       line_count c1 = FALLBACK_CHUNK_LINES settings ->
       shared_lines c1 c2 = overlap) /\
    (2 * overlap - 1 <= FALLBACK_CHUNK_LINES settings ->
     overlap_except_final chunks) /\
    (forall line,
       1 <= line <= len (splitlines content) <->
       exists c, In c chunks /\ covers c line).
Proof.
  intros HW HL. eexists. split; [|split; [|split]].
  - apply chunk_by_lines_fuel_windows; [exact HW|exact HL|apply Nat.le_refl].
  - now apply full_window_overlap.
  - now apply wide_window_overlap.
  - now apply windows_cover.
Qed.

(** A file of 300 lines under the default settings: three windows, of which
    the first two are full; each shares 20 lines with the next one, and the
    last line of the file lies in a window. *)
Lemma windows_overlap_and_cover_witness :
  exists c1 c2 c3,
    _chunk_by_lines default_settings "big.txt" (file_of_lines 300) "text"
    = Some [c1; c2; c3] /\
    map (fun c => (start_line c, end_line c)) [c1; c2; c3]
    = [(1, 150); (131, 280); (261, 300)] /\
    shared_lines c1 c2 = overlap /\
    shared_lines c2 c3 = overlap /\
    exists c, In c [c1; c2; c3] /\ covers c 300.
Proof.
  destruct (windows_overlap_and_cover default_settings "big.txt"
              (file_of_lines 300) "text")
    as (chunks & Hrun & Hfull & Hwide & Hcover);
    [reflexivity|vm_compute; reflexivity|].
  assert (Hlines : len (splitlines (file_of_lines 300)) = 300)
    by (vm_compute; reflexivity).
  rewrite Hlines in Hcover.
  vm_compute in Hrun. injection Hrun as <-.
  do 3 eexists. split; [reflexivity|]. split; [reflexivity|].
  split; [|split].
  - apply (Hwide ltac:(vm_compute; discriminate) 0%nat _ _ eq_refl eq_refl).
    cbn [length]. lia.
  - apply (Hfull 1%nat _ _ eq_refl eq_refl). reflexivity.
  - apply Hcover. lia.
Defined.

(** C5, counterexample.  With a window of 38 lines a file of 217 lines is
    cut into 13 windows; the eleventh (lines 181 to 217) and the twelfth
    (lines 199 to 217) share 19 lines, and neither is the last one. *)
Lemma windows_overlap_counterexample :
  exists chunks,
    _chunk_by_lines settings_window_38 "big.txt" (file_of_lines 217) "text"
    = Some chunks /\
    length chunks = 13%nat /\
    map (fun c => (start_line c, end_line c)) (firstn 2 (skipn 10 chunks))
    = [(181, 217); (199, 217)] /\
    ~ overlap_except_final chunks.
Proof.
  eexists. split; [vm_compute; reflexivity|].
  split; [reflexivity|]. split; [reflexivity|].
  intros H. specialize (H 10%nat _ _ eq_refl eq_refl).
  cbn [length] in H. specialize (H ltac:(lia)). vm_compute in H. discriminate.
Qed.

(** * The strategies of [chunk_file] *)

Lemma option_map_ok {A} (x : option A) (a : A) :
  option_map (@Ok A) x = Some (Ok a) -> x = Some a.
Proof. destruct x; cbn; congruence. Qed.

Section ChunkFileFacts.

Variable settings : Settings.
Variable ast_parse : string -> result (list node).
Variable re_match : string -> string -> bool.
Variable re_search : string -> string -> option string.
Variables fp content : string.

Let lines := splitlines content.

(** A list that [chunk_file] returns is what its first strategy with a
    result returns. *)
Lemma chunk_file_cases language chunks :
  chunk_file settings ast_parse re_match re_search fp content language
  = Some (Ok chunks) ->
  (language = "python"%string /\
   _chunk_python settings ast_parse fp content = Ok chunks /\ chunks <> []) \/
  ((language = "javascript"%string \/ language = "typescript"%string) /\
   _chunk_javascript re_match re_search fp content language = chunks /\
   chunks <> []) \/
  _chunk_by_lines settings fp content language = Some chunks.
Proof.
  unfold chunk_file.
  destruct (language =? "python")%string eqn:Epy.
  - apply String.eqb_eq in Epy.
    destruct (_chunk_python settings ast_parse fp content)
      as [[|c cs]|e] eqn:E1.
    + subst language. cbn. intros H; right; right.
      now apply option_map_ok.
    + intros [= <-]. left. now repeat split.
    + discriminate.
  - destruct ((language =? "javascript") || (language =? "typescript"))%string
      eqn:Ejs.
    + apply orb_true_iff in Ejs. rewrite !String.eqb_eq in Ejs.
      destruct (_chunk_javascript re_match re_search fp content language)
        eqn:E2.
      * intros H; right; right. now apply option_map_ok.
      * intros [= <-]. right; left. now repeat split.
    + intros H; right; right. now apply option_map_ok.
Qed.

(** The three outcomes of [chunk_file]: the fallback, the list of a
    strategy, or the exception of the parser. *)
Lemma chunk_file_outcomes language :
  chunk_file settings ast_parse re_match re_search fp content language
  = option_map Ok (_chunk_by_lines settings fp content language) \/
  (exists c chunks,
     chunk_file settings ast_parse re_match re_search fp content language
     = Some (Ok (c :: chunks))) \/
  (exists e,
     language = "python"%string /\ ast_parse content = Raise e /\
     e <> SyntaxError /\
     chunk_file settings ast_parse re_match re_search fp content language
     = Some (Raise e)).
Proof.
  unfold chunk_file.
  destruct (language =? "python")%string eqn:Epy.
  - apply String.eqb_eq in Epy. unfold _chunk_python.
    destruct (ast_parse content) as [nodes|e] eqn:Ep.
    + destruct (python_preamble fp (splitlines content) nodes ++ _);
        [|right; left; eauto].
      destruct (if ((language =? "javascript") || _)%string then _ else _);
        [left; reflexivity|right; left; eauto].
    + destruct e;
        try (right; right; eexists; split;
             [exact Epy|split; [reflexivity|split; [discriminate|reflexivity]]]).
      destruct (if ((language =? "javascript") || _)%string then _ else _);
        [left; reflexivity|right; left; eauto].
  - destruct (if ((language =? "javascript") || _)%string then _ else _);
      [left; reflexivity|right; left; eauto].
Qed.

(** ** The code of the chunks *)

Lemma preamble_code nodes :
  preamble_of "<module>" content (python_preamble fp lines nodes).
Proof.
  unfold python_preamble, preamble_of.
  destruct (first_node_line nodes) as [l|]; [|split; [cbn; lia|constructor]].
  destruct (negb (l =? 0) && (1 <? l)); [|split; [cbn; lia|constructor]].
  destruct (truthy _ && _); (split; [cbn; lia|]); constructor.
  - repeat split.
  - constructor.
Qed.

Lemma method_code cls children :
  Forall (exact_code content) (flat_map (method_chunks fp lines cls) children).
Proof.
  induction children as [|child rest IH]; cbn [flat_map]; [constructor|].
  apply Forall_app. split; [|exact IH].
  destruct child; cbn [method_chunks]; repeat constructor.
Qed.

Lemma node_code n :
  Forall (exact_code content) (node_chunks settings fp lines n).
Proof.
  destruct n as [name l e|name l e children|]; cbn [node_chunks].
  - constructor; [reflexivity|constructor].
  - destruct (_ <=? _); [constructor; [reflexivity|constructor]|].
    apply Forall_app. split; [|apply method_code].
    unfold header_chunks. destruct (truthy _); constructor;
      [reflexivity|constructor].
  - constructor.
Qed.

Lemma chunk_python_code chunks :
  _chunk_python settings ast_parse fp content = Ok chunks ->
  exists preamble body,
    chunks = preamble ++ body /\
    preamble_of "<module>" content preamble /\
    Forall (exact_code content) body.
Proof.
  unfold _chunk_python. destruct (ast_parse content) as [nodes|e].
  - intros [= <-]. eexists _, _. split; [reflexivity|].
    split; [apply preamble_code|].
    induction nodes as [|n rest IH]; cbn [flat_map]; [constructor|].
    apply Forall_app. split; [apply node_code|exact IH].
  - destruct e; try discriminate. intros [= <-].
    exists [], []. repeat split; (cbn; lia) || constructor.
Qed.

Lemma js_chunks_code language boundaries :
  Forall (rstripped_code content) (js_chunks fp language lines boundaries).
Proof.
  induction boundaries as [|[line_idx sym] rest IH]; cbn [js_chunks];
    [constructor|].
  apply Forall_app. split; [|exact IH].
  destruct (truthy _); constructor; [|constructor].
  unfold rstripped_code, line_range. cbn [code start_line end_line].
  now rewrite Z.add_simpl_r.
Qed.

Lemma chunk_javascript_code language :
  exists preamble body,
    _chunk_javascript re_match re_search fp content language
    = preamble ++ body /\
    preamble_of "<imports>" content preamble /\
    Forall (rstripped_code content) body.
Proof.
  unfold _chunk_javascript. fold lines.
  destruct lines as [|l0 ls] eqn:El.
  { exists [], []. repeat split; (cbn; lia) || constructor. }
  rewrite <- El.
  destruct (find_boundaries re_match re_search 0 lines)
    as [|[first sym] rest] eqn:E.
  { exists [], []. repeat split; (cbn; lia) || constructor. }
  eexists _, _. split; [reflexivity|]. split; [|apply js_chunks_code].
  unfold js_preamble, preamble_of.
  destruct (0 <? first); [|split; [cbn; lia|constructor]].
  destruct (truthy _ && _); (split; [cbn; lia|]); constructor.
  - repeat split.
  - constructor.
Qed.

Lemma windows_code language n : forall i idx,
  Forall (exact_code content) (windows settings fp language lines n i idx).
Proof.
  induction n as [|n IH]; intros i idx; cbn [windows]; constructor; [|apply IH].
  unfold exact_code, line_range, window_chunk.
  cbn [code start_line end_line]. now rewrite Z.add_simpl_r.
Qed.

Lemma chunk_by_lines_code language chunks :
  _chunk_by_lines settings fp content language = Some chunks ->
  (content <> EmptyString /\
   len (splitlines content) <= MAX_CHUNK_LINES settings /\
   chunks = [ {| file_path := fp; symbol := "<file>"; code := content;
                 language := language; start_line := 1;
                 end_line := len (splitlines content) |} ]) \/
  ((content = EmptyString \/
    MAX_CHUNK_LINES settings < len (splitlines content)) /\
   Forall (exact_code content) chunks).
Proof.
  intros H.
  destruct (string_dec content EmptyString) as [He|Hne].
  { right. split; [now left|]. subst content. injection H as <-.
    constructor. }
  destruct (Z.le_gt_cases (len (splitlines content))
              (MAX_CHUNK_LINES settings)) as [Hs|Hl].
  - left. split; [exact Hne|]. split; [exact Hs|].
    unfold _chunk_by_lines, chunk_by_lines_fuel in H.
    pose proof (splitlines_not_nil content Hne) as Hnil.
    destruct (splitlines content) as [|l0 ls] eqn:El; [congruence|].
    rewrite (proj2 (Z.leb_le _ _) Hs) in H. now injection H as <-.
  - right. split; [now right|].
    destruct (Z.lt_ge_cases overlap (FALLBACK_CHUNK_LINES settings)) as [HW|HW].
    + unfold _chunk_by_lines in H.
      rewrite chunk_by_lines_fuel_windows in H
        by (assumption || apply Nat.le_refl).
      injection H as <-. apply windows_code.
    + unfold _chunk_by_lines in H.
      rewrite chunk_by_lines_fuel_stuck in H by assumption. discriminate.
Qed.

End ChunkFileFacts.

(** C2 (amended).  What the code of a chunk is depends on the strategy that
    [chunk_file] returns the chunks of.  Python strategy: at most one
    preamble [<module>] in front, from line 1, whose code is the text of its
    line range with the white space at both ends stripped; every other chunk
    (function, class, class header, method) has the text of its line range,
    ["\n".join(lines[start - 1 : end])], as it is.  JavaScript and
    TypeScript strategy: at most one preamble [<imports>] in front, stripped
    in the same way; every other chunk has the text of its line range with
    the white space at its end stripped.  Fallback: a file of at most
    [MAX_CHUNK_LINES] lines is the single chunk [<file>] whose code is the
    content itself, with its own line ends; the windows of a longer file
    have the text of their line range as it is. *)
Theorem chunk_code_line_range (settings : Settings)
    (ast_parse : string -> result (list node))
    (re_match : string -> string -> bool)
    (re_search : string -> string -> option string)
    (fp content language : string) (chunks : list CodeChunk) :
  chunk_file settings ast_parse re_match re_search fp content language
  = Some (Ok chunks) ->
  (language = "python"%string /\
   _chunk_python settings ast_parse fp content = Ok chunks /\
   chunks <> [] /\
   exists preamble body,
     chunks = preamble ++ body /\
     preamble_of "<module>" content preamble /\
     Forall (exact_code content) body) \/
  ((language = "javascript"%string \/ language = "typescript"%string) /\
   _chunk_javascript re_match re_search fp content language = chunks /\
   chunks <> [] /\
   exists preamble body,
     chunks = preamble ++ body /\
     preamble_of "<imports>" content preamble /\
     Forall (rstripped_code content) body) \/
  (_chunk_by_lines settings fp content language = Some chunks /\
   ((content <> EmptyString /\
     len (splitlines content) <= MAX_CHUNK_LINES settings /\
     chunks = [ {| file_path := fp; symbol := "<file>"; code := content;
                   language := language; start_line := 1;
                   end_line := len (splitlines content) |} ]) \/
    ((content = EmptyString \/
      MAX_CHUNK_LINES settings < len (splitlines content)) /\
     Forall (exact_code content) chunks))).
Proof.
  intros H. apply chunk_file_cases in H.
  destruct H as [(Hlang & Hrun & Hne)|[(Hlang & Hrun & Hne)|H]].
  - left. repeat split; try assumption.
    now apply (chunk_python_code settings ast_parse fp content).
  - right; left. repeat split; try assumption.
    rewrite <- Hrun. apply chunk_javascript_code.
  - right; right. split; [exact H|].
    now apply (chunk_by_lines_code settings fp content language).
Qed.

(** A JavaScript file of three lines, the last two of them empty: the chunk
    of the function spans the three lines and holds the first one only. *)
Lemma chunk_code_line_range_witness :
  exists c,
    chunk_file default_settings (fun _ => Raise SyntaxError)
      (fun _ line => String.prefix "function " line)
      (fun _ _ => Some "f"%string)
      "a.js" ("function f() {}" ++ nl ++ nl ++ nl) "javascript"
    = Some (Ok [c]) /\
    (start_line c, end_line c) = (1, 3) /\
    code c = rstrip (line_range ("function f() {}" ++ nl ++ nl ++ nl) c) /\
    code c = "function f() {}"%string /\
    line_range ("function f() {}" ++ nl ++ nl ++ nl) c
    = ("function f() {}" ++ nl ++ nl)%string.
Proof.
  eexists. split; [reflexivity|]. split; [reflexivity|].
  split; [|split; reflexivity].
  destruct (chunk_code_line_range default_settings
              (fun _ => Raise SyntaxError)
              (fun _ line => String.prefix "function " line)
              (fun _ _ => Some "f"%string)
              "a.js" ("function f() {}" ++ nl ++ nl ++ nl) "javascript" _
              eq_refl)
    as [(Hlang & _)|[(_ & _ & _ & preamble & body & Heq & Hpre & Hbody)|
        (Hrun & _)]].
  - discriminate Hlang.
  - destruct preamble as [|p ps].
    + cbn [app] in Heq. subst body. now inversion Hbody.
    + destruct Hpre as [_ Hpre]. inversion Hpre as [|? ? (Hsym & _) _]; subst.
      injection Heq as <- _. discriminate Hsym.
  - discriminate Hrun.
Defined.

(** C2, counterexample.  A text file of one line that ends in a line feed is
    returned as the single chunk [<file>], whose code is the content with the
    line feed, while the lines 1 to 1 joined are the line without it. *)
Lemma chunk_code_counterexample :
  chunk_file default_settings (fun _ => Raise SyntaxError) (fun _ _ => false)
    (fun _ _ => None) "notes.txt" ("hello" ++ nl) "text"
  = Some (Ok [ {| file_path := "notes.txt"; symbol := "<file>";
                  code := "hello" ++ nl; language := "text";
                  start_line := 1; end_line := 1 |} ])
  /\ join nl (slice (splitlines ("hello" ++ nl)) (1 - 1) 1) = "hello"%string
  /\ ("hello" ++ nl)%string <> "hello"%string.
Proof.
  split; [reflexivity|]. split; [reflexivity|]. discriminate.
Qed.

(** * At least one chunk *)

Lemma windows_not_nil settings fp language lines n i idx :
  n <> O -> windows settings fp language lines n i idx <> [].
Proof. destruct n; [congruence|discriminate]. Qed.

Lemma chunk_by_lines_not_empty settings fp content language :
  content <> EmptyString ->
  overlap < FALLBACK_CHUNK_LINES settings \/
  len (splitlines content) <= MAX_CHUNK_LINES settings ->
  exists chunks,
    _chunk_by_lines settings fp content language = Some chunks /\
    chunks <> [].
Proof.
  intros Hne Hcfg.
  destruct (Z.le_gt_cases (len (splitlines content))
              (MAX_CHUNK_LINES settings)) as [Hs|Hl].
  - destruct (chunk_by_lines_fuel_short settings fp content language O
                (or_intror Hs)) as (chunks & _ & Hnil & Hall).
    exists chunks. split; [apply Hall|apply Hnil, Hne].
  - destruct Hcfg as [HW|Hs]; [|lia].
    eexists. split.
    + apply chunk_by_lines_fuel_windows; [exact HW|exact Hl|apply Nat.le_refl].
    + apply windows_not_nil. intros H0.
      destruct (window_count_spec settings (len (splitlines content)) HW
                  (len_nonneg _)) as [Hge _].
      rewrite H0 in Hge.
      apply splitlines_not_nil in Hne.
      destruct (splitlines content); [congruence|]. unfold len in Hge.
      cbn in Hge. lia.
Qed.

(** The empty content has no line: without a chunk of the parser, no
    strategy returns a chunk. *)
Lemma chunk_file_empty settings ast_parse re_match re_search fp language :
  (language = "python"%string -> ast_parse EmptyString = Ok []) ->
  chunk_file settings ast_parse re_match re_search fp EmptyString language
  = Some (Ok []).
Proof.
  intros Hparse. unfold chunk_file, _chunk_python.
  destruct (language =? "python")%string eqn:Epy.
  - apply String.eqb_eq in Epy. rewrite (Hparse Epy). subst language.
    reflexivity.
  - destruct ((language =? "javascript") || (language =? "typescript"))%string;
      reflexivity.
Qed.

(** C4 (amended).  [chunk_file] on a content that is not empty, with a
    fallback that terminates (the window is above the overlap of 20 lines,
    or the file has at most [MAX_CHUNK_LINES] lines): it returns a list that
    is not empty, for every file path and language tag, unless the language
    is python and [ast.parse] raises an exception other than [SyntaxError],
    which then leaves [chunk_file].  On the empty content, which
    [ast.parse] accepts as a module without statements, it returns the
    empty list. *)
Theorem chunk_file_not_empty (settings : Settings)
    (ast_parse : string -> result (list node))
    (re_match : string -> string -> bool)
    (re_search : string -> string -> option string)
    (fp content language : string) :
  (content <> EmptyString ->
   overlap < FALLBACK_CHUNK_LINES settings \/
   len (splitlines content) <= MAX_CHUNK_LINES settings ->
   (language = "python"%string ->
    forall e, ast_parse content = Raise e -> e = SyntaxError) ->
   exists chunks,
     chunk_file settings ast_parse re_match re_search fp content language
     = Some (Ok chunks) /\
     chunks <> []) /\
  (forall e,
     language = "python"%string -> ast_parse content = Raise e ->
     e <> SyntaxError ->
     chunk_file settings ast_parse re_match re_search fp content language
     = Some (Raise e)) /\
  (content = EmptyString ->
   (language = "python"%string -> ast_parse EmptyString = Ok []) ->
   chunk_file settings ast_parse re_match re_search fp content language
   = Some (Ok [])).
Proof.
  split; [|split].
  - intros Hne Hcfg Hparse.
    destruct (chunk_file_outcomes settings ast_parse re_match re_search
                fp content language)
      as [->|[(c & chunks & ->)|(e & Hlang & He & Hne' & _)]].
    + destruct (chunk_by_lines_not_empty settings fp content language
                  Hne Hcfg) as (chunks & -> & Hnil).
      now exists chunks.
    + eexists. split; [reflexivity|discriminate].
    + now specialize (Hparse Hlang e He).
  - intros e Hlang He Hne. unfold chunk_file, _chunk_python.
    subst language. cbn. rewrite He. now destruct e.
  - intros -> Hparse. now apply chunk_file_empty.
Qed.

Lemma chunk_file_not_empty_witness :
  (exists chunks,
     chunk_file default_settings (fun _ => Raise SyntaxError)
       (fun _ _ => false) (fun _ _ => None) "broken.py" "def f(:" "python"
     = Some (Ok chunks) /\
     chunks <> []) /\
  chunk_file default_settings (fun _ => Raise ValueError)
    (fun _ _ => false) (fun _ _ => None) "bytes.py"
    ("a" ++ String (chr 0) "") "python"
  = Some (Raise ValueError).
Proof.
  split.
  - destruct (chunk_file_not_empty default_settings
                (fun _ => Raise SyntaxError) (fun _ _ => false)
                (fun _ _ => None) "broken.py" "def f(:" "python")
      as (Hsome & _).
    apply Hsome.
    + discriminate.
    + left. reflexivity.
    + intros _ e [= <-]. reflexivity.
  - destruct (chunk_file_not_empty default_settings
                (fun _ => Raise ValueError) (fun _ _ => false)
                (fun _ _ => None) "bytes.py" ("a" ++ String (chr 0) "")
                "python")
      as (_ & Hraise & _).
    apply Hraise; [reflexivity|reflexivity|discriminate].
Defined.

(** C4, counterexamples.  The empty content has no line, and the fallback
    returns the empty list for it.  A Python file with a null byte is not
    empty, [ast.parse] of CPython 3.11 raises [ValueError] on it, and so
    does [chunk_file]. *)
Lemma chunk_file_empty_content :
  chunk_file default_settings (fun _ => Ok []) (fun _ _ => false)
    (fun _ _ => None) "empty.py" "" "python" = Some (Ok []) /\
  chunk_file default_settings (fun _ => Raise ValueError) (fun _ _ => false)
    (fun _ _ => None) "nul.py" ("x = 1" ++ String (chr 0) "") "python"
  = Some (Raise ValueError).
Proof. split; reflexivity. Qed.

(** * Classes in the Python strategy *)





Section ClassFacts.

Variable settings : Settings.
Variable ast_parse : string -> result (list node).
Variables fp content : string.

Let lines := splitlines content.


Lemma chunk_python_node before n after :
  ast_parse content = Ok (before ++ n :: after) ->
  exists pre post,
    _chunk_python settings ast_parse fp content
    = Ok (pre ++ node_chunks settings fp lines n ++ post).
Proof.
  intros Hparse. unfold _chunk_python. rewrite Hparse.
  rewrite flat_map_app. cbn [flat_map].
  eexists (_ ++ _), _. rewrite <- app_assoc. reflexivity.
Qed.


End ClassFacts.




(** A class of two lines under the default limit is kept whole. *)
Example class_whole_example :
  _chunk_python default_settings
    (fun _ => Ok [ClassDef "A" 1 (Some 2) [OtherNode]])
    "a.py" small_class_file
  = Ok [ {| file_path := "a.py"; symbol := "A";
            code := "class A:" ++ nl ++ "    x = 1";
            language := "python"; start_line := 1; end_line := 2 |} ].
Proof. reflexivity. Qed.


(** * The vector store *)

Lemma load_collection_cached st pid :
  cache (fst (_load_collection st pid)) !! pid = Some (collection_of st pid).
Proof.
  unfold collection_of, _load_collection.
  destruct (cache st !! pid) eqn:Ec; [exact Ec|].
  destruct (disk st !! pid); cbn; apply lookup_insert_eq.
Qed.

Lemma load_collection_disk st pid :
  disk (fst (_load_collection st pid)) = disk st.
Proof.
  unfold _load_collection.
  destruct (cache st !! pid); [reflexivity|].
  destruct (disk st !! pid); reflexivity.
Qed.

Lemma load_collection_other st pid pid' :
  pid <> pid' ->
  cache (fst (_load_collection st pid)) !! pid' = cache st !! pid'.
Proof.
  intros Hne. unfold _load_collection.
  destruct (cache st !! pid); [reflexivity|].
  destruct (disk st !! pid); cbn; now apply lookup_insert_ne.
Qed.

Lemma load_collection_twice st pid :
  collection_of (fst (_load_collection st pid)) pid = collection_of st pid.
Proof.
  unfold collection_of at 1. unfold _load_collection at 1.
  now rewrite load_collection_cached.
Qed.

Lemma empty_collection_aligned : aligned empty_collection.
Proof. repeat split. Qed.

(** A collection that is loaded or created is aligned when the cache and
    the files are. *)
Lemma load_collection_aligned st pid :
  store_aligned st ->
  aligned (collection_of st pid) /\
  store_aligned (fst (_load_collection st pid)).
Proof.
  intros [Hc Hd]. unfold collection_of, _load_collection.
  destruct (cache st !! pid) as [c|] eqn:Ec.
  - split; [eapply Hc, Ec|now split].
  - destruct (disk st !! pid) as [data|] eqn:Ed; cbn.
    + split; [eapply Hd, Ed|]. split; [|exact Hd].
      intros pid' c'. cbn. rewrite lookup_insert.
      case_decide; [intros [= <-]; eapply Hd, Ed|apply Hc].
    + split; [apply empty_collection_aligned|]. split; [|exact Hd].
      intros pid' c'. cbn. rewrite lookup_insert.
      case_decide; [intros [= <-]; apply empty_collection_aligned|apply Hc].
Qed.

Lemma load_collection_coherent st pid :
  coherent st -> coherent (fst (_load_collection st pid)).
Proof.
  intros Hco. unfold _load_collection.
  destruct (cache st !! pid) as [c|] eqn:Ec; [exact Hco|].
  destruct (disk st !! pid) as [data|] eqn:Ed; cbn;
    intros pid' c'; cbn; rewrite lookup_insert;
    (case_decide; [intros [= <-]; subst pid'; auto|apply Hco]).
Qed.

(** What [add_chunks] leaves in the cache and in the file. *)
Lemma add_chunks_spec st pid new_ids new_docs new_embs new_metas :
  let c := collection_of st pid in
  let c' := {| ids := ids c ++ new_ids;
               documents := documents c ++ new_docs;
               embeddings := embeddings c ++ new_embs;
               metadatas := metadatas c ++ new_metas |} in
  let st' := add_chunks st pid new_ids new_docs new_embs new_metas in
  cache st' !! pid = Some c' /\ disk st' !! pid = Some c' /\
  (forall pid', pid <> pid' ->
     cache st' !! pid' = cache st !! pid' /\
     disk st' !! pid' = disk st !! pid').
Proof.
  intros c c' st'. subst st'. unfold add_chunks.
  pose proof (load_collection_disk st pid) as Hd.
  pose proof (load_collection_other st pid) as Ho.
  fold c'. unfold collection_of in c.
  destruct (_load_collection st pid) as [st1 col] eqn:El. cbn in *.
  subst c. fold c'.
  unfold _save_collection. cbn [cache]. rewrite lookup_insert_eq.
  cbn [cache disk]. rewrite !lookup_insert_eq.
  split; [reflexivity|]. split; [reflexivity|].
  intros pid' Hne. rewrite !lookup_insert_ne by exact Hne.
  rewrite Hd. split; [now apply Ho|reflexivity].
Qed.

Lemma add_chunks_coherent st pid new_ids new_docs new_embs new_metas :
  coherent st ->
  coherent (add_chunks st pid new_ids new_docs new_embs new_metas).
Proof.
  intros Hco pid' c'.
  destruct (add_chunks_spec st pid new_ids new_docs new_embs new_metas)
    as (Hc & Hd & Ho).
  destruct (decide (pid = pid')) as [<-|Hne].
  - rewrite Hc, Hd. auto.
  - destruct (Ho pid' Hne) as [-> ->]. apply Hco.
Qed.

Lemma delete_collection_coherent st pid :
  coherent st -> coherent (delete_collection st pid).
Proof.
  intros Hco pid' c'. unfold delete_collection. cbn.
  rewrite !lookup_delete. case_decide; [discriminate|apply Hco].
Qed.

Lemma fresh_store_coherent : coherent fresh_store.
Proof. intros pid c. cbn. now rewrite lookup_empty. Qed.

(** C9.  A collection that is created is aligned, and one that is loaded
    is aligned when the cache and the files are.  [query_chunks] and
    [delete_collection] keep every collection aligned.  [add_chunks] of [n]
    entries, that is of four lists of the length [n], keeps every
    collection aligned, grows each list of the collection of the project by
    [n], the entries it had staying in place in front, and leaves the other
    projects as they were. *)
Theorem collections_stay_aligned (argsort : list R -> list nat)
    (st : Store) (pid : Z) (new_ids new_docs : list string)
    (new_embs : list vec) (new_metas : list Metadata) (query : vec)
    (top_k : Z) :
  store_aligned st ->
  length new_ids = length new_embs ->
  length new_docs = length new_embs ->
  length new_metas = length new_embs ->
  aligned empty_collection /\
  aligned (collection_of st pid) /\
  store_aligned (fst (query_chunks argsort st pid query top_k)) /\
  store_aligned (delete_collection st pid) /\
  let st' := add_chunks st pid new_ids new_docs new_embs new_metas in
  store_aligned st' /\
  ids (collection_of st' pid) = ids (collection_of st pid) ++ new_ids /\
  documents (collection_of st' pid)
  = documents (collection_of st pid) ++ new_docs /\
  embeddings (collection_of st' pid)
  = embeddings (collection_of st pid) ++ new_embs /\
  metadatas (collection_of st' pid)
  = metadatas (collection_of st pid) ++ new_metas /\
  forall pid', pid <> pid' ->
    cache st' !! pid' = cache st !! pid' /\ disk st' !! pid' = disk st !! pid'.
Proof.
  intros Hst Hi Hd Hm.
  destruct (load_collection_aligned st pid Hst) as [Hal Hst1].
  split; [apply empty_collection_aligned|]. split; [exact Hal|].
  split.
  { unfold query_chunks, query_chunks_np. destruct (_load_collection st pid); exact Hst1. }
  split.
  { destruct Hst as [Hc Hdk]. split; intros pid' c'; cbn;
      rewrite lookup_delete; (case_decide; [discriminate|]);
      [apply Hc|apply Hdk]. }
  cbv zeta.
  destruct (add_chunks_spec st pid new_ids new_docs new_embs new_metas)
    as (Hc & Hdk & Ho).
  assert (Hal' : aligned
            {| ids := ids (collection_of st pid) ++ new_ids;
               documents := documents (collection_of st pid) ++ new_docs;
               embeddings := embeddings (collection_of st pid) ++ new_embs;
               metadatas := metadatas (collection_of st pid) ++ new_metas |}).
  { destruct Hal as (H1 & H2 & H3). unfold aligned. cbn.
    rewrite !length_app. lia. }
  split.
  { destruct Hst as [Hca Hda]. split; intros pid' c'.
    - destruct (decide (pid = pid')) as [<-|Hne].
      + rewrite Hc. now intros [= <-].
      + destruct (Ho pid' Hne) as [-> _]. apply Hca.
    - destruct (decide (pid = pid')) as [<-|Hne].
      + rewrite Hdk. now intros [= <-].
      + destruct (Ho pid' Hne) as [_ ->]. apply Hda. }
  assert (Hcol : collection_of
                   (add_chunks st pid new_ids new_docs new_embs new_metas) pid
                 = {| ids := ids (collection_of st pid) ++ new_ids;
                      documents := documents (collection_of st pid) ++ new_docs;
                      embeddings :=
                        embeddings (collection_of st pid) ++ new_embs;
                      metadatas :=
                        metadatas (collection_of st pid) ++ new_metas |}).
  { unfold collection_of at 1. unfold _load_collection. now rewrite Hc. }
  rewrite Hcol. cbn. repeat split; try reflexivity; now apply Ho.
Qed.

Lemma fresh_store_aligned : store_aligned fresh_store.
Proof. split; intros pid c; cbn; now rewrite lookup_empty. Qed.

(** A third chunk added to a collection of two: the store stays aligned
    and the three lists of the collection hold the old entries in front. *)
Lemma collections_stay_aligned_witness :
  store_aligned tied_store /\
  store_aligned
    (add_chunks tied_store 1 ["third"%string] ["def h(): pass"%string]
       [[0%R]] [chunk_metadata sample_chunk]) /\
  ids (collection_of
         (add_chunks tied_store 1 ["third"%string] ["def h(): pass"%string]
            [[0%R]] [chunk_metadata sample_chunk]) 1)
  = ["first"; "second"; "third"]%string /\
  embeddings (collection_of
                (add_chunks tied_store 1 ["third"%string]
                   ["def h(): pass"%string] [[0%R]]
                   [chunk_metadata sample_chunk]) 1)
  = [[1%R]; [1%R]; [0%R]].
Proof.
  assert (Htied : store_aligned tied_store).
  { destruct (collections_stay_aligned argsort_stable fresh_store 1
                ["first"; "second"]%string
                ["def f(): pass"; "def g(): pass"]%string [[1%R]; [1%R]]
                [chunk_metadata sample_chunk; chunk_metadata sample_chunk]
                [1%R] 20 fresh_store_aligned eq_refl eq_refl eq_refl)
      as (_ & _ & _ & _ & H & _).
    exact H. }
  split; [exact Htied|].
  destruct (collections_stay_aligned argsort_stable tied_store 1
              ["third"%string] ["def h(): pass"%string] [[0%R]]
              [chunk_metadata sample_chunk] [1%R] 20 Htied
              eq_refl eq_refl eq_refl)
    as (_ & _ & _ & _ & Hal & Hids & _ & Hembs & _).
  split; [exact Hal|].
  rewrite Hids, Hembs.
  destruct (collections_stay_aligned argsort_stable fresh_store 1
              ["first"; "second"]%string
              ["def f(): pass"; "def g(): pass"]%string [[1%R]; [1%R]]
              [chunk_metadata sample_chunk; chunk_metadata sample_chunk]
              [1%R] 20 fresh_store_aligned eq_refl eq_refl eq_refl)
    as (_ & _ & _ & _ & _ & Hids0 & _ & Hembs0 & _).
  unfold tied_store. rewrite Hids0, Hembs0. split; reflexivity.
Defined.

(** The lists that [add_chunks] is given must have one length, as those of
    the ingestion have: [add_chunks] does not compare them, and one id
    without document, embedding and metadata would leave a collection with
    one id and no embedding. *)
Lemma add_chunks_misaligned :
  store_aligned fresh_store /\
  ~ store_aligned (add_chunks fresh_store 1 ["chunk_1_0"%string] [] [] []).
Proof.
  split; [apply fresh_store_aligned|].
  intros [Hc _].
  destruct (add_chunks_spec fresh_store 1 ["chunk_1_0"%string] [] [] [])
    as (Hcache & _).
  apply Hc in Hcache. destruct Hcache as (H & _). cbn in H. discriminate.
Qed.

Lemma query_chunks_state argsort st pid query top_k :
  query_chunks argsort st pid query top_k
  = (fst (_load_collection st pid),
     query_collection argsort (collection_of st pid) query top_k).
Proof.
  unfold query_chunks, query_chunks_np, collection_of.
  now destruct (_load_collection st pid).
Qed.

Lemma reachable_coherent st : reachable st -> coherent st.
Proof.
  induction 1.
  - intros pid c. cbn. now rewrite lookup_empty.
  - now apply add_chunks_coherent.
  - rewrite query_chunks_state. now apply load_collection_coherent.
  - now apply delete_collection_coherent.
Qed.

(** A project without file has the empty collection. *)
Lemma collection_of_missing st pid :
  coherent st -> disk st !! pid = None ->
  collection_of st pid = empty_collection.
Proof.
  intros Hco Hd. unfold collection_of, _load_collection.
  destruct (cache st !! pid) as [c|] eqn:Ec.
  - destruct (Hco pid c Ec) as [H|[_ ->]]; [congruence|reflexivity].
  - now rewrite Hd.
Qed.

Lemma retrieve_state argsort embed_query settings st pid question top_k :
  retrieve argsort embed_query settings st pid question top_k
  = (fst (_load_collection st pid),
     let! results :=
       query_collection argsort (collection_of st pid) (embed_query question)
         (match top_k with
          | None => DEFAULT_TOP_K settings
          | Some k => k
          end) in
     match r_ids results with
     | [] => Ok []
     | [] :: _ => Ok []
     | doc_ids :: _ =>
         let! metas := getitem (r_metadatas results) 0 in
         let! docs := getitem (r_documents results) 0 in
         let! dists := getitem (r_distances results) 0 in
         retrieve_loop 0 doc_ids metas docs dists
     end).
Proof.
  unfold retrieve, retrieve_np. fold (query_chunks argsort). rewrite query_chunks_state. reflexivity.
Qed.

(** C7.  In every state that the module can reach, for a project whose
    collection has no file or has no embeddings, and for every query vector
    and [top_k], [query_chunks] returns the result with four empty lists and
    raises nothing, and [retrieve] returns the empty list for every
    question. *)
Theorem query_missing_or_empty (argsort : list R -> list nat)
    (embed_query : string -> vec) (settings : Settings) (st : Store)
    (pid : Z) (query : vec) (top_k : Z) (question : string)
    (top_k' : option Z) :
  reachable st ->
  disk st !! pid = None \/ embeddings (collection_of st pid) = [] ->
  snd (query_chunks argsort st pid query top_k) = Ok empty_result /\
  snd (retrieve argsort embed_query settings st pid question top_k') = Ok [].
Proof.
  intros Hreach H.
  assert (He : embeddings (collection_of st pid) = []).
  { destruct H as [H|H]; [|exact H].
    now rewrite (collection_of_missing st pid (reachable_coherent st Hreach) H). }
  rewrite query_chunks_state, retrieve_state. cbn [snd].
  unfold query_collection, query_collection_np. rewrite He. split; reflexivity.
Qed.

Lemma query_missing_or_empty_witness :
  snd (query_chunks argsort_stable fresh_store 7 [1%R; 0%R] 20)
  = Ok empty_result /\
  snd (retrieve argsort_stable (fun _ => [1%R; 0%R]) default_settings
         fresh_store 7 "where is main?" None) = Ok [].
Proof.
  apply (query_missing_or_empty argsort_stable (fun _ => [1%R; 0%R])
           default_settings fresh_store 7 [1%R; 0%R] 20 "where is main?" None).
  - apply reach_start.
  - left. reflexivity.
Defined.

(** * The context prompt *)

Lemma append_cons (x : ascii) (a b : string) :
  (String x a ++ b)%string = String x (a ++ b)%string.
Proof. reflexivity. Qed.

Lemma append_assoc (a b c : string) :
  ((a ++ b) ++ c = a ++ (b ++ c))%string.
Proof.
  induction a as [|x a IH]; [reflexivity|].
  rewrite !append_cons. f_equal. exact IH.
Qed.

Lemma append_empty_r (a : string) : (a ++ "")%string = a.
Proof.
  induction a as [|x a IH]; [reflexivity|].
  rewrite !append_cons. f_equal. exact IH.
Qed.

Lemma truthy_eqb s : truthy s = negb (String.eqb s EmptyString).
Proof. now destruct s. Qed.

(** The location is the path, then the range, then the symbol. *)
Lemma location_parts chunk :
  location chunk
  = (rc_file_path chunk ++ range_text chunk ++ symbol_text chunk)%string.
Proof.
  unfold location, range_text, symbol_text, sentinel_symbols.
  cbn [existsb]. rewrite truthy_eqb, orb_false_r.
  set (loc := match rc_start_line chunk with
              | Some s => if s =? 0 then _ else _
              | None => _
              end).
  assert (Hloc : loc = (rc_file_path chunk ++
                        match rc_start_line chunk with
                        | Some s =>
                            if (s =? 0)%Z then EmptyString
                            else " (lines " ++ str_of_int s ++ "-"
                                   ++ fmt_opt_int (rc_end_line chunk) ++ ")"
                        | None => EmptyString
                        end)%string).
  { subst loc. destruct (rc_start_line chunk) as [s|];
      [destruct (s =? 0)|]; now rewrite ?append_empty_r. }
  rewrite Hloc.
  destruct (String.eqb (rc_symbol chunk) ""); cbn [negb andb orb].
  - now rewrite append_empty_r.
  - destruct (String.eqb (rc_symbol chunk) "<file>"),
      (String.eqb (rc_symbol chunk) "<module>"),
      (String.eqb (rc_symbol chunk) "<imports>");
      cbn [negb andb orb]; now rewrite ?append_empty_r, ?append_assoc.
Qed.

Lemma context_sections_length chunks : forall i,
  length (context_sections i chunks) = length chunks.
Proof.
  induction chunks as [|c rest IH]; intros i; cbn; [|rewrite IH]; reflexivity.
Qed.

Lemma context_sections_nth chunks : forall i k c,
  nth_error chunks k = Some c ->
  nth_error (context_sections i chunks) k
  = Some (context_section (i + Z.of_nat k) c).
Proof.
  induction chunks as [|c0 rest IH]; intros i k c Hk;
    [now destruct k|].
  destruct k as [|k]; cbn in Hk |- *.
  - injection Hk as ->. now rewrite Z.add_0_r.
  - rewrite (IH (i + 1) k c Hk). do 2 f_equal. lia.
Qed.

(** C8.  [build_context_prompt] of the empty list is a fixed string that is
    not empty.  For a list that is not empty it is the sections of the
    chunks, one for each chunk and in their order, joined by a blank line;
    the section of the chunk at position [k] (from 1) is the header
    [--- [k] path range symbol (language) ---], a line feed and the code of
    the chunk as it is.  The range is there only when the start line is
    present, the symbol only when it is none of [<file>], [<module>] and
    [<imports>]. *)
Theorem build_context_prompt_sections (chunks : list RetrievedChunk) :
  build_context_prompt [] = "No relevant code found in the repository."%string
  /\ build_context_prompt [] <> EmptyString
  /\ (chunks <> [] ->
      exists sections,
        build_context_prompt chunks = join (nl ++ nl) sections /\
        length sections = length chunks /\
        forall k c,
          nth_error chunks k = Some c ->
          nth_error sections k
          = Some ("--- [" ++ str_of_int (Z.of_nat k + 1) ++ "] "
                  ++ (rc_file_path c ++ range_text c ++ symbol_text c)
                  ++ " (" ++ rc_language c ++ ") ---" ++ nl
                  ++ rc_code c)%string)
  /\ (forall c, range_text c <> EmptyString ->
        exists s, rc_start_line c = Some s)
  /\ (forall c, symbol_text c <> EmptyString ->
        ~ In (rc_symbol c) sentinel_symbols).
Proof.
  split; [reflexivity|]. split; [discriminate|]. split; [|split].
  - intros Hne. exists (context_sections 1 chunks).
    split; [destruct chunks; [congruence|reflexivity]|].
    split; [apply context_sections_length|].
    intros k c Hk. rewrite (context_sections_nth chunks 1 k c Hk).
    unfold context_section. rewrite location_parts.
    do 4 f_equal. lia.
  - intros c H. unfold range_text in H.
    destruct (rc_start_line c) as [s|]; [eauto|congruence].
  - intros c H Hin. unfold symbol_text in H. unfold sentinel_symbols in Hin.
    cbn [In] in Hin.
    destruct Hin as [Heq|[Heq|[Heq|[]]]]; rewrite <- Heq in H;
      now apply H.
Qed.

Lemma build_context_prompt_sections_witness :
  build_context_prompt [retrieved_f; retrieved_readme]
  = ("--- [1] src/a.py (lines 3-3) " ++ arrow ++ " f (python) ---" ++ nl
     ++ "def f(): pass" ++ nl ++ nl
     ++ "--- [2] README.md (markdown) ---" ++ nl ++ "# Title")%string.
Proof.
  destruct (build_context_prompt_sections [retrieved_f; retrieved_readme])
    as (_ & _ & H & _).
  destruct (H ltac:(discriminate)) as (sections & -> & Hlen & Hnth).
  destruct sections as [|s1 [|s2 [|s3 rest]]]; try discriminate Hlen.
  pose proof (Hnth 0%nat _ eq_refl) as H1.
  pose proof (Hnth 1%nat _ eq_refl) as H2.
  cbn [nth_error] in H1, H2.
  injection H1 as ->. injection H2 as ->. reflexivity.
Defined.

(** * Sorted lists *)

Section SortedFacts.

Context {A : Type}.

Lemma StronglySorted_impl (P Q : A -> A -> Prop) (l : list A) :
  (forall x y, P x y -> Q x y) -> StronglySorted P l -> StronglySorted Q l.
Proof.
  intros HPQ. induction 1 as [|x l Hs IH Hx]; constructor; [exact IH|].
  eapply List.Forall_impl; [|exact Hx]. intros y; apply HPQ.
Qed.

Lemma StronglySorted_snoc (P : A -> A -> Prop) (l : list A) (x : A) :
  StronglySorted P l -> Forall (fun y => P y x) l ->
  StronglySorted P (l ++ [x]).
Proof.
  induction 1 as [|y l Hs IH Hy]; intros Hall; cbn.
  - repeat constructor.
  - inversion Hall as [|? ? Hyx Hall']; subst.
    constructor; [now apply IH|].
    apply Forall_app. split; [exact Hy|now constructor].
Qed.

Lemma StronglySorted_rev (P : A -> A -> Prop) (l : list A) :
  StronglySorted P l -> StronglySorted (fun x y => P y x) (rev l).
Proof.
  induction 1 as [|x l Hs IH Hx]; cbn; [constructor|].
  apply StronglySorted_snoc; [exact IH|]. now apply Forall_rev.
Qed.

Lemma Forall_firstn_of (P : A -> Prop) (n : nat) (l : list A) :
  Forall P l -> Forall P (firstn n l).
Proof.
  intros H. revert n. induction H as [|x l Hx Hl IH]; intros [|n]; cbn;
    constructor; auto.
Qed.

Lemma StronglySorted_firstn (P : A -> A -> Prop) (n : nat) (l : list A) :
  StronglySorted P l -> StronglySorted P (firstn n l).
Proof.
  intros H. revert n. induction H as [|x l Hs IH Hx]; intros [|n]; cbn;
    constructor; [apply IH|now apply Forall_firstn_of].
Qed.

Lemma StronglySorted_map {B : Type} (P : A -> A -> Prop)
    (Q : B -> B -> Prop) (f : A -> B) (l : list A) :
  (forall x y, P x y -> Q (f x) (f y)) ->
  StronglySorted P l -> StronglySorted Q (map f l).
Proof.
  intros HPQ. induction 1 as [|x l Hs IH Hx]; cbn; constructor; [exact IH|].
  apply Forall_map. eapply List.Forall_impl; [|exact Hx]. intros y; apply HPQ.
Qed.

End SortedFacts.

(** * The stable argsort *)

Lemma Rleb_true x y : Rleb x y = true <-> (x <= y)%R.
Proof. unfold Rleb. destruct (Rle_dec x y); split; (congruence || auto). Qed.

Lemma Rleb_false x y : Rleb x y = false <-> (y < x)%R.
Proof.
  unfold Rleb. destruct (Rle_dec x y); split; try congruence; try lra.
Qed.

Section ArgsortFacts.

Variable v : list R.

Lemma insert_index_perm i sorted :
  Permutation (insert_index v i sorted) (sorted ++ [i]).
Proof.
  induction sorted as [|j rest IH]; cbn; [reflexivity|].
  destruct (Rleb _ _).
  - now constructor.
  - change (i :: j :: rest) with ([i] ++ (j :: rest)).
    apply Permutation_app_comm.
Qed.

(** An index above those of the list finds its place behind the values
    that are not above its own. *)
Lemma insert_index_sorted i sorted :
  StronglySorted (sorted_before v) sorted ->
  Forall (fun j => (j < i)%nat) sorted ->
  StronglySorted (sorted_before v) (insert_index v i sorted).
Proof.
  induction 1 as [|j rest Hs IH Hj]; intros Hlt; cbn.
  - repeat constructor.
  - inversion Hlt as [|? ? Hji Hlt']; subst.
    destruct (Rleb (nth j v 0%R) (nth i v 0%R)) eqn:E.
    + apply Rleb_true in E. constructor; [now apply IH|].
      eapply Permutation_Forall;
        [symmetry; apply insert_index_perm|].
      apply Forall_app. split; [exact Hj|]. constructor; [|constructor].
      unfold sorted_before. destruct E as [E|E]; [now left|right; now split].
    + apply Rleb_false in E. constructor; [now constructor|].
      constructor; [now left|].
      eapply List.Forall_impl; [|exact Hj]. intros k [Hk|[Hk _]]; left; lra.
Qed.

Lemma argsort_upto_spec n :
  Permutation (argsort_upto v n) (seq 0 n) /\
  StronglySorted (sorted_before v) (argsort_upto v n).
Proof.
  induction n as [|n [IHp IHs]]; cbn [argsort_upto].
  - split; [reflexivity|constructor].
  - split.
    + rewrite insert_index_perm, seq_S. cbn.
      now apply Permutation_app_tail.
    + apply insert_index_sorted; [exact IHs|].
      eapply Permutation_Forall; [symmetry; exact IHp|].
      apply List.Forall_forall. intros j Hj. apply in_seq in Hj. lia.
Qed.

End ArgsortFacts.

(** The stable sort is an [np.argsort]. *)
Lemma argsort_stable_spec : argsort_spec argsort_stable.
Proof.
  intros v. destruct (argsort_upto_spec v (length v)) as [Hp Hs].
  split; [exact Hp|].
  eapply StronglySorted_impl; [|exact Hs].
  intros i j [H|[H _]]; lra.
Qed.

(** * Slices from the start *)

Lemma slice_to_firstn {A} (l : list A) (k : Z) :
  0 <= k -> slice_to l k = firstn (Z.to_nat k) l.
Proof.
  intros Hk. unfold slice_to, slice, clamp. cbn [Z.ltb Z.compare].
  destruct (Z.ltb_spec k 0); [lia|].
  rewrite (Z.min_l 0) by apply len_nonneg.
  rewrite Z.sub_0_r. cbn [Z.to_nat skipn].
  destruct (Z.le_ge_cases k (len l)).
  - now rewrite Z.min_l.
  - rewrite Z.min_r by lia. unfold len in *.
    rewrite Nat2Z.id, !firstn_all2; (reflexivity || lia).
Qed.

(** * Cosine similarity *)

Lemma dot_cons x u y v : dot (x :: u) (y :: v) = (x * y + dot u v)%R.
Proof. reflexivity. Qed.

Lemma dot_nil_r u : dot u [] = 0%R.
Proof. now destruct u. Qed.

Lemma dot_self_nonneg u : (0 <= dot u u)%R.
Proof.
  induction u as [|x u IH]; [cbn; lra|]. rewrite dot_cons. nra.
Qed.

(** The inequality of Cauchy and Schwarz. *)
Lemma dot_square_le u : forall v,
  (dot u v * dot u v <= dot u u * dot v v)%R.
Proof.
  induction u as [|x u IH]; intros v.
  - cbn. lra.
  - destruct v as [|y v]; [rewrite !dot_nil_r; lra|].
    rewrite !dot_cons. specialize (IH v).
    pose proof (dot_self_nonneg u) as HA.
    pose proof (dot_self_nonneg v) as HC.
    set (A := dot u u) in *. set (C := dot v v) in *. set (B := dot u v) in *.
    assert (Hkey : (2 * (x * y * B) <= x * x * C + y * y * A)%R).
    { destruct (Rle_dec (2 * (x * y * B)) (x * x * C + y * y * A)) as [H|H];
        [exact H|exfalso].
      apply Rnot_le_lt in H.
      assert (H0 : (0 <= x * x * C + y * y * A)%R) by nra.
      assert (H1 : ((x * x * C + y * y * A) * (x * x * C + y * y * A)
                    < (2 * (x * y * B)) * (2 * (x * y * B)))%R) by nra.
      pose proof (Rle_0_sqr (x * x * C - y * y * A)) as H2.
      unfold Rsqr in H2.
      assert (H3 : (0 <= (x * y) * (x * y) * (A * C - B * B))%R).
      { apply Rmult_le_pos; [apply Rle_0_sqr|lra]. }
      nra. }
    nra.
Qed.

Lemma norm_nonneg u : (0 <= norm u)%R.
Proof. apply sqrt_pos. Qed.

Lemma dot_abs_le u v : (Rabs (dot u v) <= norm u * norm v)%R.
Proof.
  unfold norm. rewrite <- sqrt_mult_alt by apply dot_self_nonneg.
  rewrite <- sqrt_Rsqr_abs. apply sqrt_le_1_alt. unfold Rsqr.
  apply dot_square_le.
Qed.

Lemma tiny_pos : (0 < tiny)%R.
Proof. unfold tiny. apply Rdiv_lt_0_compat; [lra|]. apply pow_lt. lra. Qed.

Lemma dot_scaled a b u : forall v,
  a <> 0%R -> b <> 0%R ->
  dot (map (fun x => (x / a)%R) u) (map (fun y => (y / b)%R) v)
  = (dot u v / (a * b))%R.
Proof.
  induction u as [|x u IH]; intros v Ha Hb.
  - cbn. unfold Rdiv. now rewrite Rmult_0_l.
  - destruct v as [|y v].
    + rewrite dot_nil_r. cbn [map]. rewrite dot_nil_r. unfold Rdiv.
      now rewrite Rmult_0_l.
    + cbn [map]. rewrite !dot_cons, IH by assumption. field. now split.
Qed.

(** The cosine of two vectors, as the query computes it, lies between -1
    and 1. *)
Lemma cosine_bounds s q :
  (-1 <= dot (normalize s) (normalize q) <= 1)%R.
Proof.
  unfold normalize.
  pose proof (norm_nonneg s) as Hs. pose proof (norm_nonneg q) as Hq.
  pose proof tiny_pos as Ht.
  rewrite dot_scaled by lra.
  pose proof (dot_abs_le s q) as Habs.
  set (a := (norm s + tiny)%R). set (b := (norm q + tiny)%R).
  assert (Hab : (0 < a * b)%R) by (apply Rmult_lt_0_compat; unfold a, b; lra).
  assert (Hle : (norm s * norm q <= a * b)%R) by (unfold a, b; nra).
  assert (Hup : (dot s q <= a * b)%R).
  { pose proof (Rle_abs (dot s q)). lra. }
  assert (Hlo : (- (a * b) <= dot s q)%R).
  { pose proof (Rle_abs (- dot s q)) as H. rewrite Rabs_Ropp in H. lra. }
  unfold Rdiv. split; apply (Rmult_le_reg_r (a * b)); try exact Hab;
    rewrite Rmult_assoc, Rinv_l by lra; lra.
Qed.

(** * The query *)

Lemma gather_ok {A} (l : list A) (d : A) (idx : list nat) :
  Forall (fun i => (i < length l)%nat) idx ->
  gather l idx = Ok (map (fun i => nth i l d) idx).
Proof.
  induction 1 as [|i idx Hi Hidx IH]; [reflexivity|].
  cbn [gather map]. unfold getitem.
  destruct (nth_error l i) as [x|] eqn:E.
  - cbn [bind]. rewrite IH. cbn [bind].
    now rewrite (nth_error_nth l i d E).
  - apply nth_error_None in E. lia.
Qed.

Lemma similarities_ok stored query :
  stored <> [] ->
  Forall (fun e => length e = length query) stored ->
  similarities stored query = Ok (cosines stored query).
Proof.
  intros Hne Hdim. unfold similarities, columns.
  destruct stored as [|r rest]; [congruence|].
  inversion Hdim as [|? ? Hr Hrest]; subst.
  assert (Hall : forallb (fun r' => (length r' =? length r)%nat) rest = true).
  { apply forallb_forall. intros r' Hin. apply Nat.eqb_eq.
    rewrite List.Forall_forall in Hrest. rewrite (Hrest r' Hin). now symmetry. }
  rewrite Hall. cbn [bind]. rewrite Hr, Nat.eqb_refl. reflexivity.
Qed.

Lemma cosines_length stored query :
  length (cosines stored query) = length stored.
Proof. apply length_map. Qed.

Lemma cosines_bounds stored query :
  Forall (fun s => (-1 <= s <= 1)%R) (cosines stored query).
Proof.
  unfold cosines. apply Forall_map. apply List.Forall_forall.
  intros s _. apply cosine_bounds.
Qed.

Section QueryFacts.

Variable argsort : list R -> list nat.
Hypothesis argsort_ok : argsort_spec argsort.

Lemma argsort_length v : length (argsort v) = length v.
Proof.
  destruct (argsort_ok v) as [Hp _].
  rewrite (Permutation_length Hp). apply length_seq.
Qed.

Lemma argsort_in_range v :
  Forall (fun i => (i < length v)%nat) (argsort v).
Proof.
  destruct (argsort_ok v) as [Hp _].
  eapply Permutation_Forall; [symmetry; exact Hp|].
  apply List.Forall_forall. intros i Hi. apply in_seq in Hi. lia.
Qed.

(** The indices of a query for [top_k >= 0]: as many as asked for and
    stored, all of them indices of the collection, the higher similarity
    first. *)
Lemma top_indices_spec sims top_k :
  0 <= top_k ->
  len (top_indices argsort sims top_k) = Z.min top_k (len sims) /\
  Forall (fun i => (i < length sims)%nat) (top_indices argsort sims top_k) /\
  StronglySorted (fun i j => (nth j sims 0 <= nth i sims 0)%R)
    (top_indices argsort sims top_k).
Proof.
  intros Hk. unfold top_indices.
  rewrite slice_to_firstn by (pose proof (len_nonneg sims); lia).
  split; [|split].
  - unfold len. rewrite length_firstn, length_rev, argsort_length. lia.
  - apply Forall_firstn_of, Forall_rev, argsort_in_range.
  - apply StronglySorted_firstn.
    destruct (argsort_ok sims) as [_ Hs].
    apply StronglySorted_rev in Hs. exact Hs.
Qed.

(** A query with [top_k >= 1] on an aligned collection whose vectors have
    the length of the query vector returns the entries at the top indices. *)
Lemma query_collection_ok c query top_k :
  aligned c -> embeddings c <> [] ->
  Forall (fun e => length e = length query) (embeddings c) ->
  1 <= top_k ->
  query_collection argsort c query top_k
  = Ok (result_at c (cosines (embeddings c) query)
          (top_indices argsort (cosines (embeddings c) query) top_k)).
Proof.
  intros (Hi & Hd & Hm) Hne Hdim Hk. unfold query_collection, query_collection_np.
  destruct (embeddings c) as [|e0 es] eqn:Ee; [congruence|].
  rewrite <- Ee in *. rewrite similarities_ok by assumption. cbn [bind].
  set (sims := cosines (embeddings c) query).
  assert (Hlen : length sims = length (embeddings c))
    by apply cosines_length.
  destruct (top_indices_spec sims top_k ltac:(lia)) as (Hn & Hrange & _).
  set (top := top_indices argsort sims top_k) in *.
  assert (Hpos : 0 < len sims).
  { unfold len. rewrite Hlen, Ee. cbn. lia. }
  destruct top as [|best rest] eqn:Et; [unfold len in *; cbn in Hn; lia|].
  rewrite <- Et in *.
  assert (Hbest : (best < length sims)%nat).
  { rewrite Et in Hrange. now inversion Hrange. }
  unfold getitem at 1. rewrite Et at 1. cbn [nth_error bind].
  unfold getitem at 1.
  destruct (nth_error sims best) eqn:Eb;
    [|apply nth_error_None in Eb; lia].
  cbn [bind].
  rewrite (gather_ok (ids c) EmptyString), (gather_ok (documents c) EmptyString),
    (gather_ok (metadatas c) no_metadata), (gather_ok sims 0%R);
    try (eapply List.Forall_impl; [|exact Hrange]; cbn; intros; lia).
  cbn [bind]. unfold result_at. now rewrite map_map.
Qed.

Lemma query_collection_empty c query top_k :
  embeddings c = [] ->
  query_collection argsort c query top_k = Ok empty_result.
Proof. intros H. unfold query_collection, query_collection_np. now rewrite H. Qed.

End QueryFacts.

(** With [top_k = 0] no index is selected, and the first index, which the
    debug message asks for, does not exist. *)
Lemma query_collection_zero argsort c query :
  embeddings c <> [] ->
  Forall (fun e => length e = length query) (embeddings c) ->
  query_collection argsort c query 0 = Raise IndexError.
Proof.
  intros Hne Hdim. unfold query_collection, query_collection_np.
  destruct (embeddings c) as [|e0 es] eqn:Ee; [congruence|].
  rewrite <- Ee in *. rewrite similarities_ok by assumption. cbn [bind].
  unfold top_indices.
  assert (H0 : Z.min 0 (len (cosines (embeddings c) query)) = 0)
    by (apply Z.min_l, len_nonneg).
  rewrite H0, slice_to_firstn by lia. reflexivity.
Qed.

(** The collection of a project after its first [add_chunks]. *)
Lemma collection_of_first_add pid new_ids new_docs new_embs new_metas :
  collection_of
    (add_chunks fresh_store pid new_ids new_docs new_embs new_metas) pid
  = {| ids := new_ids; documents := new_docs; embeddings := new_embs;
       metadatas := new_metas |}.
Proof.
  destruct (add_chunks_spec fresh_store pid new_ids new_docs new_embs
              new_metas) as (Hc & _).
  unfold collection_of at 1. unfold _load_collection. rewrite Hc.
  reflexivity.
Qed.

(** C1, the failing input.  A collection with one chunk, queried with
    [top_k = 0]: the claim promises a result with [min(0, 1) = 0] entries,
    the code raises [IndexError] at [top_indices[0]]. *)
Theorem query_chunks_top_k_zero :
  snd (query_chunks argsort_stable single_store 1 [1%R] 0)
  = Raise IndexError.
Proof.
  rewrite query_chunks_state. cbn [snd]. unfold single_store.
  rewrite collection_of_first_add.
  apply query_collection_zero; cbn [embeddings].
  - discriminate.
  - repeat constructor.
Qed.

(** With the stable sort the ranking puts the higher similarity first and,
    among equal similarities, the entry that was added later. *)
Lemma top_indices_stable_ranked sims top_k :
  0 <= top_k ->
  StronglySorted (ranked_before sims) (top_indices argsort_stable sims top_k).
Proof.
  intros Hk. unfold top_indices.
  rewrite slice_to_firstn by (pose proof (len_nonneg sims); lia).
  apply StronglySorted_firstn.
  destruct (argsort_upto_spec sims (length sims)) as [_ Hs].
  apply StronglySorted_rev in Hs.
  eapply StronglySorted_impl; [|exact Hs].
  intros i j [H|[H Hlt]]; [now left|right; now split].
Qed.

Lemma result_at_nil c sims : result_at c sims [] = empty_result.
Proof. reflexivity. Qed.

(** The supporting half of C1: for [top_k >= 1], over the real numbers. *)
Lemma query_chunks_ranked (argsort : list R -> list nat) (st : Store)
    (pid : Z) (query : vec) (top_k : Z) :
  argsort_spec argsort ->
  aligned (collection_of st pid) ->
  Forall (fun e => length e = length query)
    (embeddings (collection_of st pid)) ->
  1 <= top_k ->
  exists res_ids res_docs res_metas res_dists,
    snd (query_chunks argsort st pid query top_k)
    = Ok {| r_ids := [res_ids]; r_documents := [res_docs];
            r_metadatas := [res_metas]; r_distances := [res_dists] |} /\
    len res_ids = Z.min top_k (len (embeddings (collection_of st pid))) /\
    len res_docs = len res_ids /\ len res_metas = len res_ids /\
    len res_dists = len res_ids /\
    StronglySorted Rle res_dists /\
    Forall (fun d => (0 <= d <= 2)%R) res_dists.
Proof.
  intros Hspec Hal Hdim Hk. rewrite query_chunks_state. cbn [snd].
  set (c := collection_of st pid) in *.
  destruct (embeddings c) as [|e0 es] eqn:Ee.
  - rewrite query_collection_empty by exact Ee.
    exists [], [], [], []. change (len (@nil vec)) with 0.
    rewrite Z.min_r by lia. repeat split; constructor.
  - rewrite <- Ee in *.
    rewrite (query_collection_ok argsort Hspec) by (assumption || congruence).
    set (sims := cosines (embeddings c) query).
    destruct (top_indices_spec argsort Hspec sims top_k ltac:(lia))
      as (Hn & Hrange & Hsorted).
    set (top := top_indices argsort sims top_k) in *.
    eexists _, _, _, _. split; [reflexivity|].
    unfold len in *. rewrite !length_map.
    unfold sims in Hn. rewrite cosines_length in Hn.
    repeat split; try reflexivity.
    + exact Hn.
    + eapply StronglySorted_map; [|exact Hsorted]. cbn. intros i j H. lra.
    + apply Forall_map. eapply List.Forall_impl; [|exact Hrange].
      cbn. intros i Hi.
      pose proof (cosines_bounds (embeddings c) query) as Hb.
      rewrite List.Forall_forall in Hb.
      specialize (Hb (nth i sims 0%R) (nth_In sims 0%R Hi)). cbn in Hb. lra.
Qed.

(** * The query in the arithmetic of NumPy *)

Lemma StronglySorted_nth_error {A} (P : A -> A -> Prop) (l : list A) :
  StronglySorted P l ->
  forall p q x y, (p < q)%nat ->
    nth_error l p = Some x -> nth_error l q = Some y -> P x y.
Proof.
  induction 1 as [|a l Hs IH Ha]; intros p q x y Hpq Hp Hq.
  - now destruct p.
  - destruct q as [|q]; [lia|]. cbn [nth_error] in Hq.
    destruct p as [|p].
    + cbn in Hp. injection Hp as <-.
      rewrite List.Forall_forall in Ha. eapply Ha, nth_error_In, Hq.
    + cbn [nth_error] in Hp. apply (IH p q); (assumption || lia).
Qed.

Lemma query_chunks_np_state np_similarities np_distance argsort st pid
    query top_k :
  query_chunks_np np_similarities np_distance argsort st pid query top_k
  = (fst (_load_collection st pid),
     query_collection_np np_similarities np_distance argsort
       (collection_of st pid) query top_k).
Proof.
  unfold query_chunks_np, collection_of.
  now destruct (_load_collection st pid).
Qed.

Section NumpyFacts.

Variable np_similarities : list vec -> vec -> result (list R).
Variable np_distance : R -> R.
Variable argsort : list R -> list nat.
Hypothesis argsort_ok : argsort_spec argsort.

Lemma top_indices_range sims top_k :
  Forall (fun i => (i < length sims)%nat) (top_indices argsort sims top_k).
Proof.
  unfold top_indices, slice_to, slice.
  apply Forall_firstn_of.
  assert (H : forall n, Forall (fun i => (i < length sims)%nat)
                          (skipn n (rev (argsort sims)))).
  { intros n. apply List.Forall_forall. intros i Hi.
    assert (Hin : In i (rev (argsort sims))).
    { rewrite <- (firstn_skipn n). apply in_or_app. now right. }
    apply in_rev in Hin.
    pose proof (argsort_in_range argsort argsort_ok sims) as Hr.
    rewrite List.Forall_forall in Hr. now apply Hr. }
  apply H.
Qed.

(** The query on a collection with vectors, for similarities that NumPy
    has computed, one for each vector: the entries at the top indices, or
    [IndexError] when there is no top index. *)
Lemma query_collection_np_top c query top_k sims :
  aligned c -> embeddings c <> [] ->
  np_similarities (embeddings c) query = Ok sims ->
  length sims = length (embeddings c) ->
  query_collection_np np_similarities np_distance argsort c query top_k
  = match top_indices argsort sims top_k with
    | [] => Raise IndexError
    | top => Ok (result_with np_distance c sims top)
    end.
Proof.
  intros (Hi & Hd & Hm) Hne Hsims Hlen. unfold query_collection_np.
  destruct (embeddings c) as [|e0 es] eqn:Ee; [congruence|].
  rewrite <- Ee in *. rewrite Hsims. cbn [bind].
  pose proof (top_indices_range sims top_k) as Hrange.
  destruct (top_indices argsort sims top_k) as [|best rest] eqn:Et;
    [reflexivity|].
  assert (Hbest : (best < length sims)%nat) by now inversion Hrange.
  unfold getitem at 1. cbn [nth_error bind]. unfold getitem at 1.
  destruct (nth_error sims best) eqn:Eb;
    [|apply nth_error_None in Eb; lia].
  cbn [bind].
  rewrite (gather_ok (ids c) EmptyString), (gather_ok (documents c) EmptyString),
    (gather_ok (metadatas c) no_metadata), (gather_ok sims 0%R);
    try (eapply List.Forall_impl; [|exact Hrange]; cbn; intros; lia).
  cbn [bind]. unfold result_with. now rewrite map_map.
Qed.

End NumpyFacts.

(** C3 (amended).  The ranking of a query is
    [np.argsort(similarities)[::-1][:k]] on the similarities that NumPy has
    computed: for [top_k >= 1] the result holds the entries at the first
    [top_k] indices of the reversed ascending argsort, so the entries come
    by descending similarity, and the order among entries of equal
    similarity is the one of the argsort, reversed.  With a stable
    ascending sort, two returned entries of equal similarity come in the
    reverse of the order they were added in: the one added later first. *)
Theorem query_ties_reversed
    (np_similarities : list vec -> vec -> result (list R))
    (np_distance : R -> R) (argsort : list R -> list nat) (st : Store)
    (pid : Z) (query : vec) (top_k : Z) (sims : list R) :
  argsort_spec argsort ->
  aligned (collection_of st pid) ->
  embeddings (collection_of st pid) <> [] ->
  np_similarities (embeddings (collection_of st pid)) query = Ok sims ->
  length sims = length (embeddings (collection_of st pid)) ->
  1 <= top_k ->
  snd (query_chunks_np np_similarities np_distance argsort st pid query top_k)
  = Ok (result_with np_distance (collection_of st pid) sims
          (firstn (Z.to_nat top_k) (rev (argsort sims)))) /\
  len (firstn (Z.to_nat top_k) (rev (argsort sims)))
  = Z.min top_k (len (embeddings (collection_of st pid))) /\
  StronglySorted (fun i j => (nth j sims 0 <= nth i sims 0)%R)
    (firstn (Z.to_nat top_k) (rev (argsort sims))) /\
  (StronglySorted (sorted_before sims) (argsort sims) ->
   forall p q i j,
     (p < q)%nat ->
     nth_error (firstn (Z.to_nat top_k) (rev (argsort sims))) p = Some i ->
     nth_error (firstn (Z.to_nat top_k) (rev (argsort sims))) q = Some j ->
     nth i sims 0%R = nth j sims 0%R ->
     (j < i)%nat).
Proof.
  intros Hspec Hal Hne Hsims Hlen Hk.
  assert (Htop : top_indices argsort sims top_k
                 = firstn (Z.to_nat top_k) (rev (argsort sims))).
  { unfold top_indices. pose proof (len_nonneg sims).
    rewrite slice_to_firstn by lia.
    destruct (Z.le_ge_cases top_k (len sims)).
    - now rewrite Z.min_l.
    - rewrite Z.min_r by lia.
      rewrite !firstn_all2; try reflexivity;
        rewrite length_rev, (argsort_length argsort Hspec);
        unfold len in *; lia. }
  destruct (top_indices_spec argsort Hspec sims top_k ltac:(lia))
    as (Hn & _ & Hsorted).
  rewrite Htop in Hn, Hsorted.
  assert (Hpos : 0 < len sims).
  { unfold len. rewrite Hlen.
    destruct (embeddings (collection_of st pid)); [congruence|cbn; lia]. }
  split; [|split; [|split]].
  - rewrite query_chunks_np_state. cbn [snd].
    rewrite (query_collection_np_top np_similarities np_distance argsort
               Hspec _ _ _ sims) by assumption.
    rewrite Htop.
    destruct (firstn (Z.to_nat top_k) (rev (argsort sims))) eqn:E;
      [|reflexivity].
    unfold len in Hn, Hpos. cbn [length] in Hn. lia.
  - rewrite Hn. unfold len. now rewrite Hlen.
  - exact Hsorted.
  - intros Hstable p q i j Hpq Hp Hq Heq.
    assert (Hranked : StronglySorted (ranked_before sims)
                        (firstn (Z.to_nat top_k) (rev (argsort sims)))).
    { apply StronglySorted_firstn. apply StronglySorted_rev in Hstable.
      eapply StronglySorted_impl; [|exact Hstable].
      intros a b [H|[H Hlt]]; [now left|right; now split]. }
    destruct (StronglySorted_nth_error _ _ Hranked p q i j Hpq Hp Hq)
      as [Hlt|[_ Hlt]]; [lra|exact Hlt].
Qed.

Lemma argsort_stable_pair (s : R) : argsort_stable [s; s] = [0; 1]%nat.
Proof.
  unfold argsort_stable. cbn [length argsort_upto insert_index nth].
  now rewrite (proj2 (Rleb_true s s)) by lra.
Qed.

Lemma tied_store_collection :
  collection_of tied_store 1
  = {| ids := ["first"; "second"]%string;
       documents := ["def f(): pass"; "def g(): pass"]%string;
       embeddings := [[1%R]; [1%R]];
       metadatas := [chunk_metadata sample_chunk;
                     chunk_metadata sample_chunk] |}.
Proof. apply collection_of_first_add. Qed.

Lemma tied_store_query top_k :
  2 <= top_k ->
  snd (query_chunks argsort_stable tied_store 1 [1%R] top_k)
  = Ok (result_at (collection_of tied_store 1)
          (cosines [[1%R]; [1%R]] [1%R]) [1; 0]%nat).
Proof.
  intros Hk. rewrite query_chunks_state. cbn [snd].
  rewrite (query_collection_ok argsort_stable argsort_stable_spec);
    rewrite ?tied_store_collection; cbn [embeddings];
    try (repeat constructor; discriminate || lia).
  - do 2 f_equal. unfold top_indices, cosines. cbn [map].
    rewrite argsort_stable_pair. unfold len. cbn [length rev app].
    rewrite slice_to_firstn by lia.
    rewrite firstn_all2; [reflexivity|cbn; lia].
Qed.

(** Two chunks with the same vector, in exact arithmetic and with the
    stable sort: the similarities are equal, the result lists the second
    chunk first, and in the ranking the index that is higher comes first. *)
Lemma query_ties_reversed_witness :
  exists s,
    similarities [[1%R]; [1%R]] [1%R] = Ok [s; s] /\
    snd (query_chunks_np similarities (fun s => (1 - s)%R) argsort_stable
           tied_store 1 [1%R] 20)
    = Ok {| r_ids := [["second"; "first"]%string];
            r_documents := [["def g(): pass"; "def f(): pass"]%string];
            r_metadatas := [[chunk_metadata sample_chunk;
                             chunk_metadata sample_chunk]];
            r_distances := [[(1 - s)%R; (1 - s)%R]] |} /\
    forall p q i j,
      (p < q)%nat ->
      nth_error [1; 0]%nat p = Some i -> nth_error [1; 0]%nat q = Some j ->
      (j < i)%nat.
Proof.
  eexists. split; [reflexivity|].
  destruct (query_ties_reversed similarities (fun s => (1 - s)%R)
              argsort_stable tied_store 1 [1%R] 20
              (cosines [[1%R]; [1%R]] [1%R]))
    as (Hq & _ & _ & Hstable).
  - apply argsort_stable_spec.
  - rewrite tied_store_collection. repeat split.
  - rewrite tied_store_collection. discriminate.
  - rewrite tied_store_collection. reflexivity.
  - rewrite tied_store_collection. reflexivity.
  - lia.
  - assert (Hr : firstn (Z.to_nat 20)
                   (rev (argsort_stable (cosines [[1%R]; [1%R]] [1%R])))
                 = [1; 0]%nat).
    { unfold cosines. cbn [map]. rewrite argsort_stable_pair. reflexivity. }
    split.
    + rewrite Hq, tied_store_collection, Hr. reflexivity.
    + intros p q i j Hpq Hp Hq'.
      apply (Hstable
               (proj2 (argsort_upto_spec (cosines [[1%R]; [1%R]] [1%R]) 2))
               p q i j Hpq); rewrite ?Hr; try assumption.
      apply nth_error_In in Hp, Hq'. cbn [In] in Hp, Hq'.
      destruct Hp as [<-|[<-|[]]], Hq' as [<-|[<-|[]]]; reflexivity.
Defined.

(** C3, counterexample.  Two chunks with the same embedding, ["first"] added
    before ["second"]: both have the same similarity to the query, in any
    arithmetic, since they are computed from the same numbers; both have the
    same distance, and the result lists ["second"] before ["first"]. *)
Lemma query_ties_counterexample :
  exists r d,
    snd (query_chunks argsort_stable tied_store 1 [1%R] 20) = Ok r /\
    r_ids r = [["second"; "first"]%string] /\
    r_distances r = [[d; d]].
Proof.
  eexists _, _. rewrite tied_store_query by lia.
  split; [reflexivity|]. rewrite tied_store_collection.
  split; reflexivity.
Qed.

(** * Further properties of the chunker *)

(** X1.  A file that has lines, and at most [MAX_CHUNK_LINES] of them, is
    returned by the fallback as one chunk [<file>] that holds the content
    as it is and spans the lines 1 to the last. *)
Theorem small_file_single_chunk (settings : Settings)
    (fp content language : string) :
  content <> EmptyString ->
  len (splitlines content) <= MAX_CHUNK_LINES settings ->
  _chunk_by_lines settings fp content language
  = Some [ {| file_path := fp; symbol := "<file>"; code := content;
              language := language; start_line := 1;
              end_line := len (splitlines content) |} ].
Proof.
  intros Hne Hs. unfold _chunk_by_lines, chunk_by_lines_fuel.
  pose proof (splitlines_not_nil content Hne) as Hnil.
  destruct (splitlines content) as [|l ls] eqn:E; [congruence|].
  now rewrite (proj2 (Z.leb_le _ _) Hs).
Qed.

Lemma small_file_single_chunk_witness :
  _chunk_by_lines default_settings "README.md" (file_of_lines 3) "markdown"
  = Some [ {| file_path := "README.md"; symbol := "<file>";
              code := file_of_lines 3; language := "markdown";
              start_line := 1; end_line := 3 |} ].
Proof.
  apply (small_file_single_chunk default_settings "README.md"
           (file_of_lines 3) "markdown").
  - vm_compute. discriminate.
  - vm_compute. discriminate.
Defined.

Section DispatchFacts.

Variable settings : Settings.
Variable ast_parse : string -> result (list node).
Variable re_match : string -> string -> bool.
Variable re_search : string -> string -> option string.
Variables fp content : string.

Lemma first_node_line_other nodes :
  Forall (fun n => n = OtherNode) nodes -> first_node_line nodes = None.
Proof. induction 1 as [|n rest -> _ IH]; [reflexivity|exact IH]. Qed.

Lemma chunk_python_no_definition nodes :
  ast_parse content = Ok nodes ->
  Forall (fun n => n = OtherNode) nodes ->
  _chunk_python settings ast_parse fp content = Ok [].
Proof.
  intros Hparse Hother. unfold _chunk_python, python_preamble.
  rewrite Hparse, (first_node_line_other nodes Hother). cbn [app].
  clear Hparse. f_equal.
  induction Hother as [|n rest -> _ IH]; [reflexivity|exact IH].
Qed.

Lemma find_boundaries_none i lines :
  Forall (fun line =>
            Forall (fun p => re_match p line = false) _JS_PATTERNS) lines ->
  find_boundaries re_match re_search i lines = [].
Proof.
  intros H. revert i. induction H as [|line rest Hline _ IH]; intros i;
    [reflexivity|].
  cbn [find_boundaries].
  assert (Hex : existsb (fun p => re_match p line) _JS_PATTERNS = false).
  { apply not_true_is_false. intros Hex. apply existsb_exists in Hex.
    destruct Hex as (p & Hin & Hp). rewrite List.Forall_forall in Hline.
    rewrite (Hline p Hin) in Hp. discriminate. }
  rewrite Hex. apply IH.
Qed.

End DispatchFacts.

(** X2.  [chunk_file] is the fixed-window fallback in each of these cases:
    the language is none of python, javascript and typescript; the language
    is python and [ast.parse] raises [SyntaxError]; the language is python
    and the module has no function or class at top level; the language is
    javascript or typescript and no line matches a pattern of
    [_JS_PATTERNS]. *)
Theorem chunk_file_falls_back (settings : Settings)
    (ast_parse : string -> result (list node))
    (re_match : string -> string -> bool)
    (re_search : string -> string -> option string)
    (fp content language : string) :
  (language <> "python"%string /\ language <> "javascript"%string /\
   language <> "typescript"%string) \/
  (language = "python"%string /\ ast_parse content = Raise SyntaxError) \/
  (language = "python"%string /\
   exists nodes, ast_parse content = Ok nodes /\
                 Forall (fun n => n = OtherNode) nodes) \/
  ((language = "javascript"%string \/ language = "typescript"%string) /\
   Forall (fun line =>
             Forall (fun p => re_match p line = false) _JS_PATTERNS)
     (splitlines content)) ->
  chunk_file settings ast_parse re_match re_search fp content language
  = option_map Ok (_chunk_by_lines settings fp content language).
Proof.
  intros [(Hpy & Hjs & Hts)|[[-> Hparse]|[[-> (nodes & Hparse & Hother)]|
          [Hlang Hnone]]]]; unfold chunk_file.
  - apply String.eqb_neq in Hpy, Hjs, Hts. now rewrite Hpy, Hjs, Hts.
  - cbn. unfold _chunk_python. now rewrite Hparse.
  - cbn. now rewrite (chunk_python_no_definition settings ast_parse fp
                        content nodes Hparse Hother).
  - assert (Hpy : (language =? "python")%string = false)
      by (destruct Hlang as [-> | ->]; reflexivity).
    assert (Hjs : ((language =? "javascript") || (language =? "typescript"))
                  %string = true)
      by (destruct Hlang as [-> | ->]; reflexivity).
    rewrite Hpy, Hjs. unfold _chunk_javascript.
    rewrite (find_boundaries_none re_match re_search 0 _ Hnone).
    now destruct (splitlines content).
Qed.

Lemma chunk_file_falls_back_witness :
  chunk_file default_settings (fun _ => Raise SyntaxError) (fun _ _ => false)
    (fun _ _ => None) "broken.py" "def f(:" "python"
  = option_map Ok
      (_chunk_by_lines default_settings "broken.py" "def f(:" "python").
Proof.
  apply (chunk_file_falls_back default_settings (fun _ => Raise SyntaxError)
           (fun _ _ => false) (fun _ _ => None) "broken.py" "def f(:"
           "python").
  right. left. split; reflexivity.
Defined.

(** ** Path and language of the chunks *)

Section TagFacts.

Variable settings : Settings.
Variable ast_parse : string -> result (list node).
Variable re_match : string -> string -> bool.
Variable re_search : string -> string -> option string.
Variables fp content : string.

Let tagged (lang : string) (c : CodeChunk) : Prop :=
  file_path c = fp /\ language c = lang.

Lemma chunk_python_tagged chunks :
  _chunk_python settings ast_parse fp content = Ok chunks ->
  Forall (tagged "python") chunks.
Proof.
  unfold _chunk_python. destruct (ast_parse content) as [nodes|e];
    [|destruct e; try discriminate; intros [= <-]; constructor].
  intros [= <-].
  apply Forall_app. split.
  - unfold python_preamble. destruct (first_node_line nodes); [|constructor].
    destruct (negb _ && _); [|constructor].
    destruct (truthy _ && _); repeat constructor.
  - induction nodes as [|n rest IH]; cbn [flat_map]; [constructor|].
    apply Forall_app. split; [|exact IH].
    destruct n as [name l e|name l e children|]; cbn [node_chunks];
      [repeat constructor| |constructor].
    destruct (_ <=? _); [repeat constructor|].
    apply Forall_app. split.
    + unfold header_chunks. destruct (truthy _); repeat constructor.
    + induction children as [|child cs IHc]; cbn [flat_map]; [constructor|].
      apply Forall_app. split; [|exact IHc].
      destruct child; cbn; repeat constructor.
Qed.

Lemma chunk_javascript_tagged lang :
  Forall (tagged lang)
    (_chunk_javascript re_match re_search fp content lang).
Proof.
  unfold _chunk_javascript.
  destruct (splitlines content) as [|l0 ls] eqn:El; [constructor|].
  rewrite <- El.
  destruct (find_boundaries re_match re_search 0 (splitlines content))
    as [|[first sym] rest]; [constructor|].
  apply Forall_app. split.
  - unfold js_preamble. destruct (0 <? first); [|constructor].
    destruct (truthy _ && _); repeat constructor.
  - generalize ((first, sym) :: rest). intros bs.
    induction bs as [|[b s] bs IH]; cbn [js_chunks]; [constructor|].
    apply Forall_app. split; [|exact IH].
    destruct (truthy _); repeat constructor.
Qed.

Lemma windows_tagged lang lines n : forall i idx,
  Forall (tagged lang) (windows settings fp lang lines n i idx).
Proof.
  induction n as [|n IH]; intros i idx; cbn [windows]; constructor;
    [now split|apply IH].
Qed.

Lemma chunk_by_lines_tagged lang chunks :
  _chunk_by_lines settings fp content lang = Some chunks ->
  Forall (tagged lang) chunks.
Proof.
  intros H.
  destruct (Z.le_gt_cases (len (splitlines content))
              (MAX_CHUNK_LINES settings)) as [Hs|Hl].
  - unfold _chunk_by_lines, chunk_by_lines_fuel in H.
    destruct (splitlines content) as [|l0 ls] eqn:El;
      [injection H as <-; constructor|].
    rewrite (proj2 (Z.leb_le _ _) Hs) in H. injection H as <-.
    repeat constructor.
  - destruct (Z.lt_ge_cases overlap (FALLBACK_CHUNK_LINES settings)) as [HW|HW].
    + unfold _chunk_by_lines in H.
      rewrite chunk_by_lines_fuel_windows in H
        by (assumption || apply Nat.le_refl).
      injection H as <-. apply windows_tagged.
    + destruct (string_dec content EmptyString) as [->|Hne].
      * injection H as <-. constructor.
      * unfold _chunk_by_lines in H.
        rewrite chunk_by_lines_fuel_stuck in H by assumption. discriminate.
Qed.

End TagFacts.

(** X3.  Every chunk that [chunk_file] returns carries the file path and
    the language tag that [chunk_file] was called with, whichever strategy
    produced it. *)
Theorem chunk_file_tags (settings : Settings)
    (ast_parse : string -> result (list node))
    (re_match : string -> string -> bool)
    (re_search : string -> string -> option string)
    (fp content lang : string) (chunks : list CodeChunk) :
  chunk_file settings ast_parse re_match re_search fp content lang
  = Some (Ok chunks) ->
  Forall (fun c => file_path c = fp /\ language c = lang) chunks.
Proof.
  intros H. apply chunk_file_cases in H.
  destruct H as [(-> & Hrun & _)|[(_ & <- & _)|H]].
  - eapply chunk_python_tagged, Hrun.
  - apply chunk_javascript_tagged.
  - eapply chunk_by_lines_tagged, H.
Qed.

Lemma chunk_file_tags_witness :
  Forall (fun c => file_path c = "a.txt"%string /\
                   language c = "text"%string)
    [ {| file_path := "a.txt"; symbol := "<file>"; code := "x = 1";
         language := "text"; start_line := 1; end_line := 1 |} ].
Proof.
  apply (chunk_file_tags default_settings (fun _ => Raise SyntaxError)
           (fun _ _ => false) (fun _ _ => None) "a.txt" "x = 1" "text").
  reflexivity.
Defined.

(** ** The windows of the fallback *)

(** X4.  For a file with more lines than [MAX_CHUNK_LINES] and a window [W]
    above the overlap, the fallback returns [ceil(L / (W - 20))] chunks for
    [L] lines; the chunk at position [k] (from 0) is named [<block_k>],
    starts at line [k * (W - 20) + 1] and ends at line
    [min(k * (W - 20) + W, L)], so that it lies within the file, is not
    empty and has at most [W] lines. *)
Theorem window_chunks_numbered (settings : Settings)
    (fp content language : string) :
  overlap < FALLBACK_CHUNK_LINES settings ->
  MAX_CHUNK_LINES settings < len (splitlines content) ->
  exists chunks,
    _chunk_by_lines settings fp content language = Some chunks /\
    Z.of_nat (length chunks)
    = (len (splitlines content) + (FALLBACK_CHUNK_LINES settings - overlap) - 1)
      / (FALLBACK_CHUNK_LINES settings - overlap) /\
    forall k c,
      nth_error chunks k = Some c ->
      symbol c = ("<block_" ++ str_of_int (Z.of_nat k) ++ ">")%string /\
      start_line c
      = Z.of_nat k * (FALLBACK_CHUNK_LINES settings - overlap) + 1 /\
      end_line c
      = Z.min (Z.of_nat k * (FALLBACK_CHUNK_LINES settings - overlap)
               + FALLBACK_CHUNK_LINES settings)
          (len (splitlines content)) /\
      1 <= start_line c <= end_line c /\
      end_line c <= len (splitlines content) /\
      line_count c <= FALLBACK_CHUNK_LINES settings.
Proof.
  intros HW HL. eexists. split; [|split].
  - apply chunk_by_lines_fuel_windows; [exact HW|exact HL|apply Nat.le_refl].
  - rewrite windows_length. unfold window_count.
    apply Z2Nat.id. apply Z.div_pos; unfold overlap in *;
      pose proof (len_nonneg (splitlines content)); lia.
  - intros k c Hk.
    pose proof (chunk_at settings fp content language HW k c Hk)
      as (Hlt & Hs & He).
    apply windows_nth_inv in Hk. destruct Hk as [_ Hc].
    split; [rewrite Hc; reflexivity|].
    split; [exact Hs|]. split; [exact He|].
    unfold line_count. rewrite Hs, He. unfold overlap in *.
    assert (0 <= Z.of_nat k * (FALLBACK_CHUNK_LINES settings - 20)) by nia.
    lia.
Qed.

Lemma window_chunks_numbered_witness :
  exists chunks,
    _chunk_by_lines default_settings "big.txt" (file_of_lines 201) "text"
    = Some chunks /\
    map symbol chunks = ["<block_0>"; "<block_1>"]%string.
Proof.
  destruct (window_chunks_numbered default_settings "big.txt"
              (file_of_lines 201) "text")
    as (chunks & Hrun & _); [reflexivity|reflexivity|].
  exists chunks. split; [exact Hrun|].
  vm_compute in Hrun. injection Hrun as <-. reflexivity.
Defined.

(** ** The ranges of the JavaScript and TypeScript chunks *)

Section BoundaryFacts.

Variable re_match : string -> string -> bool.
Variable re_search : string -> string -> option string.
Variables fp lang : string.
Variable lines : list string.

(** The chunks lie behind line [lo], inside the file, and follow each other
    without a common line. *)
Let ordered_after (lo : Z) (chunks : list CodeChunk) : Prop :=
  Forall (fun c => lo < start_line c /\ start_line c <= end_line c /\
                   end_line c <= len lines) chunks /\
  StronglySorted (fun c1 c2 => end_line c1 < start_line c2) chunks.

Lemma find_boundaries_increasing ls : forall i,
  Forall (fun b => i <= fst b < i + len ls)
    (find_boundaries re_match re_search i ls) /\
  StronglySorted (fun b1 b2 => fst b1 < fst b2)
    (find_boundaries re_match re_search i ls).
Proof.
  induction ls as [|line rest IH]; intros i; cbn [find_boundaries].
  - split; constructor.
  - destruct (IH (i + 1)) as [Hr Hs].
    assert (Hr' : Forall (fun b => i < fst b < i + len (line :: rest))
                    (find_boundaries re_match re_search (i + 1) rest)).
    { eapply List.Forall_impl; [|exact Hr]. cbn. intros b Hb.
      unfold len in *. cbn [length]. lia. }
    destruct (existsb _ _).
    + split.
      * constructor; [cbn; unfold len; cbn [length]; lia|].
        eapply List.Forall_impl; [|exact Hr']. cbn. intros b Hb. lia.
      * constructor; [exact Hs|].
        eapply List.Forall_impl; [|exact Hr']. cbn. intros b Hb. lia.
    + split; [|exact Hs].
      eapply List.Forall_impl; [|exact Hr']. cbn. intros b Hb. lia.
Qed.

Lemma js_chunks_ordered boundaries : forall lo,
  Forall (fun b => lo <= fst b < len lines) boundaries ->
  StronglySorted (fun b1 b2 => fst b1 < fst b2) boundaries ->
  ordered_after lo (js_chunks fp lang lines boundaries).
Proof.
  induction boundaries as [|[b sym] rest IH]; intros lo Hr Hs;
    cbn [js_chunks].
  - split; constructor.
  - inversion Hr as [|? ? Hb Hrest]; subst. cbn [fst] in Hb.
    inversion Hs as [|? ? Hs' Hlt]; subst.
    set (end_ := match rest with
                 | (next, _) :: _ => next - 1
                 | [] => len lines - 1
                 end).
    assert (Hend : b <= end_ /\ end_ + 1 <= len lines /\
                   Forall (fun b' => end_ + 1 <= fst b' < len lines) rest).
    { subst end_. destruct rest as [|[next s'] rest'].
      - repeat split; try lia. constructor.
      - inversion Hlt as [|? ? Hn Hlt']; subst. cbn [fst] in Hn.
        inversion Hrest as [|? ? Hnr Hrest']; subst. cbn [fst] in Hnr.
        inversion Hs' as [|? ? _ Hafter]; subst.
        repeat split; try lia.
        constructor; [cbn [fst]; lia|].
        rewrite List.Forall_forall in *. intros b' Hin.
        specialize (Hafter b' Hin). specialize (Hrest' b' Hin).
        cbn [fst] in *. lia. }
    destruct Hend as (He1 & He2 & Hrest2).
    destruct (IH (end_ + 1) Hrest2 Hs') as [Hall Hsorted].
    destruct (truthy _); cbn [app].
    + split.
      * constructor; [cbn; lia|].
        eapply List.Forall_impl; [|exact Hall]. cbn. intros c Hc. lia.
      * constructor; [exact Hsorted|].
        eapply List.Forall_impl; [|exact Hall]. cbn. intros c Hc. lia.
    + split; [|exact Hsorted].
      eapply List.Forall_impl; [|exact Hall]. cbn. intros c Hc. lia.
Qed.

End BoundaryFacts.

(** X5.  The chunks of the JavaScript and TypeScript strategy come in the
    order of the file: each one spans lines inside the file, with its start
    not behind its end, and each one ends before the next one starts, the
    preamble included. *)
Theorem javascript_chunks_disjoint
    (re_match : string -> string -> bool)
    (re_search : string -> string -> option string)
    (fp content lang : string) :
  Forall (fun c => 1 <= start_line c /\ start_line c <= end_line c /\
                   end_line c <= len (splitlines content))
    (_chunk_javascript re_match re_search fp content lang) /\
  StronglySorted (fun c1 c2 => end_line c1 < start_line c2)
    (_chunk_javascript re_match re_search fp content lang).
Proof.
  unfold _chunk_javascript.
  destruct (splitlines content) as [|l0 ls] eqn:El; [split; constructor|].
  rewrite <- El.
  destruct (find_boundaries_increasing re_match re_search
              (splitlines content) 0) as [Hr Hs].
  destruct (find_boundaries re_match re_search 0 (splitlines content))
    as [|[first sym] rest] eqn:Eb; [split; constructor|].
  assert (Hfirst : 0 <= first < len (splitlines content)).
  { inversion Hr as [|? ? Hb _]; subst. cbn [fst] in Hb. lia. }
  assert (Hr' : Forall (fun b => first <= fst b < len (splitlines content))
                  ((first, sym) :: rest)).
  { constructor; [cbn [fst]; lia|].
    inversion Hs as [|? ? _ Hlt]; subst.
    inversion Hr as [|? ? _ Hrest]; subst.
    rewrite List.Forall_forall in *. intros b Hin.
    specialize (Hlt b Hin). specialize (Hrest b Hin). cbn [fst] in *. lia. }
  destruct (js_chunks_ordered fp lang (splitlines content) _ first Hr' Hs)
    as [Hall Hsorted].
  unfold js_preamble.
  destruct (Z.ltb_spec 0 first) as [Hpos|Hzero]; cbn [app].
  - destruct (truthy _ && _); cbn [app].
    + split.
      * constructor; [cbn; lia|].
        eapply List.Forall_impl; [|exact Hall]. cbn. intros c Hc. lia.
      * constructor; [exact Hsorted|].
        eapply List.Forall_impl; [|exact Hall]. cbn. intros c Hc. lia.
    + split; [|exact Hsorted].
      eapply List.Forall_impl; [|exact Hall]. cbn. intros c Hc. lia.
  - split; [|exact Hsorted].
    eapply List.Forall_impl; [|exact Hall]. cbn. intros c Hc. lia.
Qed.

(** A matcher for the examples: a line is a boundary when it starts with
    [function ]. *)
Example javascript_chunks_example :
  map (fun c => (symbol c, start_line c, end_line c))
    (_chunk_javascript
       (fun _ line => String.prefix "function " line)
       (fun _ line => if String.prefix "function f" line then Some "f"%string
                      else if String.prefix "function g" line
                           then Some "g"%string else None)
       "a.js"
       ("import a" ++ nl ++ "import b" ++ nl ++ "function f() {}" ++ nl
        ++ nl ++ "function g() {}" ++ nl)
       "javascript")
  = [("<imports>"%string, 1, 2); ("f"%string, 3, 4); ("g"%string, 5, 5)].
Proof. reflexivity. Qed.

(** X6.  Every function at the top level of a file that [ast.parse]
    accepts is one chunk of the Python strategy, named by the function, over
    the lines from its [lineno] to its [end_lineno] (to [lineno] when there
    is no [end_lineno]), with these lines as its code. *)
Theorem python_function_chunk (settings : Settings)
    (ast_parse : string -> result (list node)) (fp content : string)
    (before after : list node) (name : string) (lineno : Z)
    (end_lineno : option Z) :
  ast_parse content
  = Ok (before ++ FunctionDef name lineno end_lineno :: after) ->
  exists pre post,
    _chunk_python settings ast_parse fp content
    = Ok (pre
          ++ [ {| file_path := fp; symbol := name;
                  code := join nl (slice (splitlines content) (lineno - 1)
                                     (or_else end_lineno lineno));
                  language := "python"; start_line := lineno;
                  end_line := or_else end_lineno lineno |} ]
          ++ post).
Proof.
  intros Hparse.
  destruct (chunk_python_node settings ast_parse fp content _ _ _ Hparse)
    as (pre & post & Heq).
  now exists pre, post.
Qed.

Lemma python_function_chunk_witness :
  exists pre post,
    _chunk_python default_settings
      (fun _ => Ok [OtherNode; FunctionDef "f" 3 (Some 4)])
      "a.py" ("import os" ++ nl ++ nl ++ "def f():" ++ nl ++ "    pass" ++ nl)
    = Ok (pre
          ++ [ {| file_path := "a.py"; symbol := "f";
                  code := "def f():" ++ nl ++ "    pass";
                  language := "python"; start_line := 3; end_line := 4 |} ]
          ++ post).
Proof.
  apply (python_function_chunk default_settings
           (fun _ => Ok [OtherNode; FunctionDef "f" 3 (Some 4)])
           "a.py" ("import os" ++ nl ++ nl ++ "def f():" ++ nl ++ "    pass" ++ nl)
           [OtherNode] [] "f" 3 (Some 4)).
  reflexivity.
Defined.

(** * Further properties of the vector store *)

(** What [add_chunks] returns, in one piece. *)
Lemma add_chunks_eq st pid new_ids new_docs new_embs new_metas :
  add_chunks st pid new_ids new_docs new_embs new_metas
  = {| cache :=
         <[pid := {| ids := ids (collection_of st pid) ++ new_ids;
                     documents := documents (collection_of st pid) ++ new_docs;
                     embeddings :=
                       embeddings (collection_of st pid) ++ new_embs;
                     metadatas :=
                       metadatas (collection_of st pid) ++ new_metas |}]>
           (cache st);
       disk :=
         <[pid := {| ids := ids (collection_of st pid) ++ new_ids;
                     documents := documents (collection_of st pid) ++ new_docs;
                     embeddings :=
                       embeddings (collection_of st pid) ++ new_embs;
                     metadatas :=
                       metadatas (collection_of st pid) ++ new_metas |}]>
           (disk st) |}.
Proof.
  unfold add_chunks, collection_of, _load_collection, _save_collection.
  destruct (cache st !! pid) as [c|] eqn:Ec.
  - cbn [fst snd cache disk]. now rewrite lookup_insert_eq.
  - destruct (disk st !! pid) as [data|] eqn:Ed; cbn [fst snd cache disk];
      now rewrite lookup_insert_eq, insert_insert_eq.
Qed.

Lemma collection_of_deleted st pid :
  collection_of (delete_collection st pid) pid = empty_collection.
Proof.
  unfold collection_of, _load_collection, delete_collection.
  cbn [cache disk]. now rewrite !lookup_delete_eq.
Qed.

(** X7.  After [delete_collection] the project has neither a cached
    collection nor a file: a query returns the empty result and [retrieve]
    the empty list.  Deleting again changes nothing, and the collections
    and files of the other projects stay as they were. *)
Theorem delete_collection_forgets (argsort : list R -> list nat)
    (embed_query : string -> vec) (settings : Settings) (st : Store)
    (pid : Z) (query : vec) (top_k : Z) (question : string)
    (top_k' : option Z) :
  cache (delete_collection st pid) !! pid = None /\
  disk (delete_collection st pid) !! pid = None /\
  snd (query_chunks argsort (delete_collection st pid) pid query top_k)
  = Ok empty_result /\
  snd (retrieve argsort embed_query settings (delete_collection st pid) pid
         question top_k') = Ok [] /\
  delete_collection (delete_collection st pid) pid = delete_collection st pid
  /\
  forall pid', pid <> pid' ->
    cache (delete_collection st pid) !! pid' = cache st !! pid' /\
    disk (delete_collection st pid) !! pid' = disk st !! pid'.
Proof.
  split; [apply lookup_delete_eq|]. split; [apply lookup_delete_eq|].
  rewrite query_chunks_state, retrieve_state. cbn [snd].
  rewrite collection_of_deleted. split; [reflexivity|].
  split; [reflexivity|]. split.
  - unfold delete_collection. cbn [cache disk]. now rewrite !delete_delete_eq.
  - intros pid' Hne. unfold delete_collection. cbn [cache disk].
    now rewrite !lookup_delete_ne.
Qed.

(** X8.  [add_chunks] writes the collection through to its file: a process
    that starts afterwards, with an empty cache over the same files, loads
    the collection that the adding process holds. *)
Theorem add_chunks_persists (st : Store) (pid : Z)
    (new_ids new_docs : list string) (new_embs : list vec)
    (new_metas : list Metadata) :
  disk (add_chunks st pid new_ids new_docs new_embs new_metas) !! pid
  = cache (add_chunks st pid new_ids new_docs new_embs new_metas) !! pid /\
  collection_of
    {| cache := ∅;
       disk := disk (add_chunks st pid new_ids new_docs new_embs new_metas) |}
    pid
  = collection_of (add_chunks st pid new_ids new_docs new_embs new_metas) pid.
Proof.
  destruct (add_chunks_spec st pid new_ids new_docs new_embs new_metas)
    as (Hc & Hd & _).
  split; [now rewrite Hc, Hd|].
  unfold collection_of, _load_collection. cbn [cache disk].
  now rewrite lookup_empty, Hc, Hd.
Qed.

(** X9.  Two [add_chunks] in a row on a project leave the state that one
    [add_chunks] of the concatenated lists leaves. *)
Theorem add_chunks_twice (st : Store) (pid : Z)
    (ids1 docs1 : list string) (embs1 : list vec) (metas1 : list Metadata)
    (ids2 docs2 : list string) (embs2 : list vec) (metas2 : list Metadata) :
  add_chunks (add_chunks st pid ids1 docs1 embs1 metas1) pid
    ids2 docs2 embs2 metas2
  = add_chunks st pid (ids1 ++ ids2) (docs1 ++ docs2) (embs1 ++ embs2)
      (metas1 ++ metas2).
Proof.
  rewrite (add_chunks_eq (add_chunks _ _ _ _ _ _)).
  assert (Hcol : collection_of (add_chunks st pid ids1 docs1 embs1 metas1) pid
                 = {| ids := ids (collection_of st pid) ++ ids1;
                      documents := documents (collection_of st pid) ++ docs1;
                      embeddings := embeddings (collection_of st pid) ++ embs1;
                      metadatas := metadatas (collection_of st pid) ++ metas1
                   |}).
  { destruct (add_chunks_spec st pid ids1 docs1 embs1 metas1) as (Hc & _).
    unfold collection_of at 1. unfold _load_collection. now rewrite Hc. }
  rewrite Hcol. cbn [ids documents embeddings metadatas].
  rewrite !add_chunks_eq. cbn [cache disk].
  now rewrite !insert_insert_eq, !app_assoc.
Qed.

(** X10.  A query only reads: it leaves every file as it is, and every
    project has the collection afterwards that it had before. *)
Theorem query_chunks_read_only (argsort : list R -> list nat) (st : Store)
    (pid : Z) (query : vec) (top_k : Z) (pid' : Z) :
  disk (fst (query_chunks argsort st pid query top_k)) = disk st /\
  collection_of (fst (query_chunks argsort st pid query top_k)) pid'
  = collection_of st pid'.
Proof.
  rewrite query_chunks_state. cbn [fst].
  split; [apply load_collection_disk|].
  destruct (decide (pid = pid')) as [<-|Hne].
  - apply load_collection_twice.
  - pose proof (load_collection_other st pid pid' Hne) as Hc.
    pose proof (load_collection_disk st pid) as Hd.
    destruct (_load_collection st pid) as [st1 c1]. cbn [fst] in *.
    unfold collection_of, _load_collection. rewrite Hc, Hd.
    destruct (cache st !! pid'); [reflexivity|].
    destruct (disk st !! pid'); reflexivity.
Qed.

(** ** Further properties of the query *)

Lemma slice_to_clamp {A} (l : list A) (k : Z) :
  slice_to l k = firstn (Z.to_nat (clamp (len l) k)) l.
Proof.
  unfold slice_to, slice.
  assert (H0 : clamp (len l) 0 = 0).
  { unfold clamp. cbn. apply Z.min_l, len_nonneg. }
  rewrite H0, Z.sub_0_r. reflexivity.
Qed.

Lemma map_nth_seq {A} (l : list A) (d : A) :
  map (fun i => nth i l d) (seq 0 (length l)) = l.
Proof.
  induction l as [|x l IH]; [reflexivity|].
  cbn [length seq map nth]. f_equal.
  rewrite <- seq_shift, map_map. exact IH.
Qed.

Section QueryMore.

Variable argsort : list R -> list nat.
Hypothesis argsort_ok : argsort_spec argsort.

(** The query on a collection with vectors: the entries at the top indices,
    or [IndexError] when there is no top index. *)
Lemma query_collection_top c query top_k :
  aligned c -> embeddings c <> [] ->
  Forall (fun e => length e = length query) (embeddings c) ->
  query_collection argsort c query top_k
  = match top_indices argsort (cosines (embeddings c) query) top_k with
    | [] => Raise IndexError
    | top => Ok (result_at c (cosines (embeddings c) query) top)
    end.
Proof.
  intros (Hi & Hd & Hm) Hne Hdim. unfold query_collection, query_collection_np.
  destruct (embeddings c) as [|e0 es] eqn:Ee; [congruence|].
  rewrite <- Ee in *. rewrite similarities_ok by assumption. cbn [bind].
  set (sims := cosines (embeddings c) query).
  assert (Hlen : length sims = length (embeddings c))
    by apply cosines_length.
  pose proof (top_indices_range argsort argsort_ok sims top_k) as Hrange.
  destruct (top_indices argsort sims top_k) as [|best rest] eqn:Et;
    [reflexivity|].
  assert (Hbest : (best < length sims)%nat) by now inversion Hrange.
  unfold getitem at 1. cbn [nth_error bind]. unfold getitem at 1.
  destruct (nth_error sims best) eqn:Eb;
    [|apply nth_error_None in Eb; lia].
  cbn [bind].
  rewrite (gather_ok (ids c) EmptyString), (gather_ok (documents c) EmptyString),
    (gather_ok (metadatas c) no_metadata), (gather_ok sims 0%R);
    try (eapply List.Forall_impl; [|exact Hrange]; cbn; intros; lia).
  cbn [bind]. unfold result_at. now rewrite map_map.
Qed.

Lemma top_indices_all sims top_k :
  len sims <= top_k ->
  top_indices argsort sims top_k = rev (argsort sims).
Proof.
  intros Hk. unfold top_indices.
  pose proof (len_nonneg sims).
  rewrite slice_to_firstn by lia. rewrite Z.min_r by lia.
  apply firstn_all2. rewrite length_rev, (argsort_length argsort argsort_ok).
  unfold len. lia.
Qed.

Lemma top_indices_negative sims top_k :
  top_k < 0 ->
  top_indices argsort sims top_k
  = firstn (Z.to_nat (top_k + len sims)) (rev (argsort sims)).
Proof.
  intros Hk. unfold top_indices. pose proof (len_nonneg sims).
  rewrite Z.min_l by lia. rewrite slice_to_clamp. unfold clamp.
  destruct (Z.ltb_spec top_k 0); [|lia].
  unfold len at 1. rewrite length_rev, (argsort_length argsort argsort_ok).
  fold (len sims).
  destruct (Z.le_gt_cases 0 (top_k + len sims)).
  - now rewrite Z.max_r.
  - rewrite Z.max_l by lia.
    now replace (Z.to_nat (top_k + len sims)) with O by lia.
Qed.

End QueryMore.

(** X11.  A query that asks for at least as many entries as the collection
    holds returns every entry once: the ids, the documents and the metadata
    of the result are those of the collection in another order. *)
Theorem query_returns_all (argsort : list R -> list nat) (st : Store)
    (pid : Z) (query : vec) (top_k : Z) :
  argsort_spec argsort ->
  aligned (collection_of st pid) ->
  Forall (fun e => length e = length query)
    (embeddings (collection_of st pid)) ->
  len (embeddings (collection_of st pid)) <= top_k ->
  exists res_ids res_docs res_metas res_dists,
    snd (query_chunks argsort st pid query top_k)
    = Ok {| r_ids := [res_ids]; r_documents := [res_docs];
            r_metadatas := [res_metas]; r_distances := [res_dists] |} /\
    Permutation res_ids (ids (collection_of st pid)) /\
    Permutation res_docs (documents (collection_of st pid)) /\
    Permutation res_metas (metadatas (collection_of st pid)) /\
    length res_dists = length (embeddings (collection_of st pid)).
Proof.
  intros Hspec Hal Hdim Hk. rewrite query_chunks_state. cbn [snd].
  set (c := collection_of st pid) in *.
  destruct (embeddings c) as [|e0 es] eqn:Ee.
  - rewrite query_collection_empty by exact Ee.
    destruct Hal as (Hi & Hd & Hm). rewrite Ee in Hi, Hd, Hm.
    destruct (ids c), (documents c), (metadatas c); try discriminate.
    exists [], [], [], []. repeat split; constructor.
  - rewrite <- Ee in *.
    rewrite (query_collection_top argsort Hspec) by (assumption || congruence).
    set (sims := cosines (embeddings c) query).
    assert (Hlen : length sims = length (embeddings c))
      by apply cosines_length.
    rewrite (top_indices_all argsort Hspec sims top_k)
      by (unfold len in *; lia).
    destruct (Hspec sims) as [Hperm _].
    assert (Hp : Permutation (rev (argsort sims))
                   (seq 0 (length (embeddings c)))).
    { rewrite <- Hlen. now rewrite <- Permutation_rev. }
    destruct (rev (argsort sims)) as [|i0 top] eqn:Er.
    { apply Permutation_length in Hp. rewrite length_seq, Ee in Hp.
      discriminate. }
    rewrite <- Er in *. destruct Hal as (Hi & Hd & Hm).
    eexists _, _, _, _. split; [reflexivity|].
    split; [|split; [|split]].
    + eapply Permutation_trans; [apply Permutation_map, Hp|].
      rewrite <- Hi, map_nth_seq. reflexivity.
    + eapply Permutation_trans; [apply Permutation_map, Hp|].
      rewrite <- Hd, map_nth_seq. reflexivity.
    + eapply Permutation_trans; [apply Permutation_map, Hp|].
      rewrite <- Hm, map_nth_seq. reflexivity.
    + rewrite length_map. apply Permutation_length in Hp.
      now rewrite length_seq in Hp.
Qed.

Lemma query_returns_all_witness :
  exists res_ids r,
    Permutation res_ids ["first"; "second"]%string /\
    snd (query_chunks argsort_stable tied_store 1 [1%R] 20) = Ok r /\
    r_ids r = [res_ids].
Proof.
  destruct (query_returns_all argsort_stable tied_store 1 [1%R] 20)
    as (res_ids & res_docs & res_metas & res_dists & Hq & Hp & _).
  - apply argsort_stable_spec.
  - rewrite tied_store_collection. repeat split.
  - rewrite tied_store_collection. repeat constructor.
  - rewrite tied_store_collection. unfold len. cbn. lia.
  - eexists res_ids, _. rewrite tied_store_collection in Hp.
    split; [exact Hp|]. split; [exact Hq|reflexivity].
Defined.

Lemma StronglySorted_app_split {A} (P : A -> A -> Prop) (l1 l2 : list A) :
  StronglySorted P (l1 ++ l2) ->
  StronglySorted P l1 /\ Forall (fun x => Forall (P x) l2) l1.
Proof.
  induction l1 as [|a l1 IH]; cbn [app]; intros H.
  - split; constructor.
  - inversion H as [|? ? Hs Ha]; subst.
    destruct (IH Hs) as [Hs1 Hf]. apply Forall_app in Ha. destruct Ha as [Ha1 Ha2].
    split; constructor; assumption.
Qed.

(** X12.  On a collection that holds [N >= 1] vectors, a [top_k] of zero or
    of at most [-N] selects no index, and the query raises [IndexError]
    where the debug message reads [top_indices[0]].  A negative [top_k]
    above [-N] acts as the slice bound it is: the query returns the
    [N + top_k] best entries, that is the first [N + top_k] indices of the
    ranking of all entries, by descending similarity, and each of them
    has a similarity that is not below that of any entry left out.  The
    similarities are those that NumPy has computed. *)
Theorem query_top_k_not_positive
    (np_similarities : list vec -> vec -> result (list R))
    (np_distance : R -> R) (argsort : list R -> list nat) (st : Store)
    (pid : Z) (query : vec) (top_k : Z) (sims : list R) :
  argsort_spec argsort ->
  aligned (collection_of st pid) ->
  embeddings (collection_of st pid) <> [] ->
  np_similarities (embeddings (collection_of st pid)) query = Ok sims ->
  length sims = length (embeddings (collection_of st pid)) ->
  (top_k = 0 \/ top_k <= - len (embeddings (collection_of st pid)) ->
   snd (query_chunks_np np_similarities np_distance argsort st pid query
          top_k) = Raise IndexError) /\
  (- len (embeddings (collection_of st pid)) < top_k < 0 ->
   exists top rest,
     rev (argsort sims) = top ++ rest /\
     len top = len (embeddings (collection_of st pid)) + top_k /\
     snd (query_chunks_np np_similarities np_distance argsort st pid query
            top_k)
     = Ok (result_with np_distance (collection_of st pid) sims top) /\
     StronglySorted (fun i j => (nth j sims 0 <= nth i sims 0)%R) top /\
     Forall (fun i => Forall (fun j => (nth j sims 0 <= nth i sims 0)%R) rest)
       top).
Proof.
  intros Hspec Hal Hne Hsims Hlen'. rewrite query_chunks_np_state. cbn [snd].
  set (c := collection_of st pid) in *.
  rewrite (query_collection_np_top np_similarities np_distance argsort
             Hspec c query top_k sims) by assumption.
  assert (Hlen : len sims = len (embeddings c))
    by (unfold len; now rewrite Hlen').
  split.
  - intros [-> | Hk].
    + unfold top_indices. rewrite Z.min_l by apply len_nonneg.
      now rewrite slice_to_firstn by lia.
    + assert (Hpos : 0 < len (embeddings c)).
      { destruct (embeddings c); [congruence|]. unfold len. cbn. lia. }
      rewrite (top_indices_negative argsort Hspec) by lia.
      now replace (Z.to_nat (top_k + len sims)) with O by lia.
  - intros Hk.
    assert (Htop : top_indices argsort sims top_k
                   = firstn (Z.to_nat (top_k + len sims))
                       (rev (argsort sims)))
      by (apply (top_indices_negative argsort Hspec); lia).
    exists (firstn (Z.to_nat (top_k + len sims)) (rev (argsort sims))),
      (skipn (Z.to_nat (top_k + len sims)) (rev (argsort sims))).
    assert (Hn : length (firstn (Z.to_nat (top_k + len sims))
                           (rev (argsort sims)))
                 = Z.to_nat (top_k + len sims)).
    { rewrite length_firstn, length_rev,
        (argsort_length argsort Hspec). unfold len. lia. }
    assert (Hsorted : StronglySorted
                        (fun i j => (nth j sims 0 <= nth i sims 0)%R)
                        (rev (argsort sims))).
    { destruct (Hspec sims) as [_ Hs]. now apply StronglySorted_rev in Hs. }
    rewrite <- (firstn_skipn (Z.to_nat (top_k + len sims))) in Hsorted.
    apply StronglySorted_app_split in Hsorted. destruct Hsorted as [Hs1 Hs2].
    split; [symmetry; apply firstn_skipn|].
    split; [unfold len in *; rewrite Hn; lia|].
    split; [|split; assumption].
    rewrite Htop.
    destruct (firstn (Z.to_nat (top_k + len sims)) (rev (argsort sims)))
      eqn:E; [|reflexivity].
    cbn [length] in Hn. lia.
Qed.

Lemma query_top_k_not_positive_witness :
  snd (query_chunks_np similarities (fun s => (1 - s)%R) argsort_stable
         tied_store 1 [1%R] (-2))
  = Raise IndexError /\
  exists r,
    snd (query_chunks_np similarities (fun s => (1 - s)%R) argsort_stable
           tied_store 1 [1%R] (-1)) = Ok r /\
    r_ids r = [["second"%string]].
Proof.
  assert (Hal : aligned (collection_of tied_store 1))
    by (rewrite tied_store_collection; repeat split).
  assert (Hne : embeddings (collection_of tied_store 1) <> [])
    by (rewrite tied_store_collection; discriminate).
  assert (Hsims : similarities (embeddings (collection_of tied_store 1))
                    [1%R]
                  = Ok (cosines [[1%R]; [1%R]] [1%R]))
    by (rewrite tied_store_collection; reflexivity).
  assert (Hlen : length (cosines [[1%R]; [1%R]] [1%R])
                 = length (embeddings (collection_of tied_store 1)))
    by (rewrite tied_store_collection; reflexivity).
  split.
  - destruct (query_top_k_not_positive similarities (fun s => (1 - s)%R)
                argsort_stable tied_store 1 [1%R] (-2) _
                argsort_stable_spec Hal Hne Hsims Hlen) as [Hraise _].
    apply Hraise. right. rewrite tied_store_collection. unfold len. cbn. lia.
  - destruct (query_top_k_not_positive similarities (fun s => (1 - s)%R)
                argsort_stable tied_store 1 [1%R] (-1) _
                argsort_stable_spec Hal Hne Hsims Hlen) as [_ Hok].
    destruct Hok as (top & rest & Hrank & Hn & Hq & _).
    { rewrite tied_store_collection. unfold len. cbn. lia. }
    eexists. split; [exact Hq|]. cbn [r_ids result_with].
    unfold cosines in Hrank. cbn [map] in Hrank.
    rewrite argsort_stable_pair in Hrank. cbn [rev app] in Hrank.
    rewrite tied_store_collection in Hn |- *. unfold len in Hn. cbn in Hn.
    destruct top as [|i [|i' top']]; cbn in Hn; try lia.
    injection Hrank as <- _. reflexivity.
Defined.

(** X13.  On a collection that holds vectors, a query vector whose length
    differs from the length of a stored vector makes the query raise
    [ValueError], whatever [top_k] is: NumPy refuses the ragged matrix or
    the product. *)
Theorem query_dimension_mismatch (argsort : list R -> list nat) (st : Store)
    (pid : Z) (query : vec) (top_k : Z) :
  Exists (fun e => length e <> length query)
    (embeddings (collection_of st pid)) ->
  snd (query_chunks argsort st pid query top_k) = Raise ValueError.
Proof.
  intros Hex. rewrite query_chunks_state. cbn [snd].
  unfold query_collection, query_collection_np.
  destruct (embeddings (collection_of st pid)) as [|r rest] eqn:Ee;
    [inversion Hex|].
  unfold similarities, columns.
  destruct (forallb (fun r' => (length r' =? length r)%nat) rest) eqn:Eall;
    [|reflexivity].
  cbn [bind].
  destruct (Nat.eqb_spec (length r) (length query)) as [Heq|Hneq];
    [|reflexivity].
  exfalso. apply List.Exists_exists in Hex. destruct Hex as (e & Hin & He).
  destruct Hin as [<-|Hin]; [congruence|].
  rewrite forallb_forall in Eall. specialize (Eall e Hin).
  apply Nat.eqb_eq in Eall. congruence.
Qed.

Lemma query_dimension_mismatch_witness :
  snd (query_chunks argsort_stable tied_store 1 [1%R; 0%R] 20)
  = Raise ValueError.
Proof.
  apply (query_dimension_mismatch argsort_stable tied_store 1 [1%R; 0%R] 20).
  rewrite tied_store_collection. left. cbn. discriminate.
Defined.

Lemma dot_zero_r u : forall v,
  Forall (fun x => x = 0%R) v -> dot u v = 0%R.
Proof.
  induction u as [|x u IH]; intros v Hv; [reflexivity|].
  destruct Hv as [|y v -> Hv]; [apply dot_nil_r|].
  rewrite dot_cons, (IH v Hv). lra.
Qed.

Lemma normalize_zero v :
  Forall (fun x => x = 0%R) v -> Forall (fun x => x = 0%R) (normalize v).
Proof.
  intros Hv. unfold normalize. apply Forall_map.
  eapply List.Forall_impl; [|exact Hv]. cbn. intros x ->.
  unfold Rdiv. apply Rmult_0_l.
Qed.

(** X14.  For a query vector of zeros the constant [1e-10] keeps the
    division defined: every similarity is 0, and every entry of the result
    has the distance 1. *)
Theorem query_zero_vector (argsort : list R -> list nat) (st : Store)
    (pid : Z) (query : vec) (top_k : Z) :
  argsort_spec argsort ->
  aligned (collection_of st pid) ->
  Forall (fun e => length e = length query)
    (embeddings (collection_of st pid)) ->
  1 <= top_k ->
  Forall (fun x => x = 0%R) query ->
  exists res_ids res_docs res_metas res_dists,
    snd (query_chunks argsort st pid query top_k)
    = Ok {| r_ids := [res_ids]; r_documents := [res_docs];
            r_metadatas := [res_metas]; r_distances := [res_dists] |} /\
    len res_dists = Z.min top_k (len (embeddings (collection_of st pid))) /\
    Forall (fun d => d = 1%R) res_dists.
Proof.
  intros Hspec Hal Hdim Hk Hzero. rewrite query_chunks_state. cbn [snd].
  set (c := collection_of st pid) in *.
  destruct (embeddings c) as [|e0 es] eqn:Ee.
  - rewrite query_collection_empty by exact Ee.
    exists [], [], [], []. change (len (@nil vec)) with 0.
    rewrite Z.min_r by lia. repeat split; constructor.
  - rewrite <- Ee in *.
    rewrite (query_collection_ok argsort Hspec) by (assumption || congruence).
    set (sims := cosines (embeddings c) query).
    destruct (top_indices_spec argsort Hspec sims top_k ltac:(lia))
      as (Hn & Hrange & _).
    eexists _, _, _, _. split; [reflexivity|]. split.
    + unfold len in *. rewrite length_map.
      unfold sims in Hn. now rewrite cosines_length in Hn.
    + apply Forall_map. eapply List.Forall_impl; [|exact Hrange].
      cbn. intros i Hi.
      assert (Hs : nth i sims 0%R = 0%R).
      { unfold sims, cosines.
        rewrite (nth_indep _ 0%R
                   (dot (normalize []) (normalize query)))
          by (now rewrite length_map; unfold sims in Hi;
              rewrite cosines_length in Hi).
        rewrite (map_nth (fun s => dot (normalize s) (normalize query))).
        apply dot_zero_r, normalize_zero, Hzero. }
      rewrite Hs. lra.
Qed.

Lemma query_zero_vector_witness :
  exists r,
    snd (query_chunks argsort_stable tied_store 1 [0%R] 20) = Ok r /\
    r_distances r = [[1%R; 1%R]].
Proof.
  destruct (query_zero_vector argsort_stable tied_store 1 [0%R] 20)
    as (res_ids & res_docs & res_metas & res_dists & Hq & Hlen & Hone).
  - apply argsort_stable_spec.
  - rewrite tied_store_collection. repeat split.
  - rewrite tied_store_collection. repeat constructor.
  - lia.
  - repeat constructor.
  - eexists. split; [exact Hq|]. cbn [r_distances].
    rewrite tied_store_collection in Hlen. unfold len in Hlen. cbn in Hlen.
    destruct res_dists as [|d1 [|d2 [|d3 rest]]]; cbn in Hlen; try lia.
    inversion Hone as [|? ? -> Hone']; subst.
    now inversion Hone' as [|? ? -> _]; subst.
Defined.

(** * Further properties of the retrieval *)

Lemma getitem_or_ok {A} (xs : list A) (i : nat) (d d' : A) :
  (i < length xs)%nat -> getitem_or xs i d = Ok (nth i xs d').
Proof.
  intros Hi. unfold getitem_or, getitem.
  destruct xs as [|x xs']; [cbn in Hi; lia|].
  destruct (nth_error (x :: xs') i) eqn:E.
  - now rewrite (nth_error_nth _ _ d' E).
  - apply nth_error_None in E. lia.
Qed.

Lemma retrieve_loop_ok metas docs dists doc_ids : forall i,
  (i + length doc_ids <= length metas)%nat ->
  (i + length doc_ids <= length docs)%nat ->
  (i + length doc_ids <= length dists)%nat ->
  retrieve_loop i doc_ids metas docs dists
  = Ok (map (fun j =>
               {| rc_file_path :=
                    get_or_unknown (m_file_path (nth j metas no_metadata));
                  rc_symbol :=
                    get_or_unknown (m_symbol (nth j metas no_metadata));
                  rc_code := nth j docs EmptyString;
                  rc_language :=
                    get_or_unknown (m_language (nth j metas no_metadata));
                  rc_distance := nth j dists 0%R;
                  rc_start_line := m_start_line (nth j metas no_metadata);
                  rc_end_line := m_end_line (nth j metas no_metadata) |})
          (seq i (length doc_ids))).
Proof.
  induction doc_ids as [|doc_id rest IH]; intros i Hm Hd Hs; [reflexivity|].
  cbn [length] in *. cbn [retrieve_loop seq map].
  rewrite (getitem_or_ok metas i no_metadata no_metadata),
    (getitem_or_ok docs i EmptyString EmptyString),
    (getitem_or_ok dists i 1%R 0%R) by lia.
  cbn [bind]. rewrite IH by lia. reflexivity.
Qed.

Lemma map_seq_nth3 {A B C D E : Type} (f1 : A -> B) (f2 : A -> C)
    (f3 : A -> D) (d1 : B) (d2 : C) (d3 : D) (F : B -> C -> D -> E)
    (l : list A) :
  map (fun j => F (nth j (map f1 l) d1) (nth j (map f2 l) d2)
                  (nth j (map f3 l) d3))
    (seq 0 (length l))
  = map (fun x => F (f1 x) (f2 x) (f3 x)) l.
Proof.
  induction l as [|x l IH]; [reflexivity|].
  cbn [length seq map nth]. f_equal.
  rewrite <- seq_shift, map_map. exact IH.
Qed.

(** What [retrieve] returns for a [top_k >= 1]. *)
Lemma retrieve_top_chunks (argsort : list R -> list nat)
    (embed_query : string -> vec) (settings : Settings) (st : Store)
    (pid : Z) (question : string) (top_k : option Z) :
  argsort_spec argsort ->
  aligned (collection_of st pid) ->
  Forall (fun e => length e = length (embed_query question))
    (embeddings (collection_of st pid)) ->
  1 <= match top_k with None => DEFAULT_TOP_K settings | Some k => k end ->
  snd (retrieve argsort embed_query settings st pid question top_k)
  = Ok (map (retrieved_at (collection_of st pid)
               (cosines (embeddings (collection_of st pid))
                  (embed_query question)))
          (top_indices argsort
             (cosines (embeddings (collection_of st pid))
                (embed_query question))
             match top_k with None => DEFAULT_TOP_K settings | Some k => k end))
  /\
  len (top_indices argsort
         (cosines (embeddings (collection_of st pid)) (embed_query question))
         match top_k with None => DEFAULT_TOP_K settings | Some k => k end)
  = Z.min match top_k with None => DEFAULT_TOP_K settings | Some k => k end
      (len (embeddings (collection_of st pid))).
Proof.
  intros Hspec Hal Hdim Hk. rewrite retrieve_state. cbn [snd].
  set (k := match top_k with None => DEFAULT_TOP_K settings | Some k => k end)
    in *.
  set (c := collection_of st pid) in *.
  set (sims := cosines (embeddings c) (embed_query question)).
  destruct (top_indices_spec argsort Hspec sims k ltac:(lia))
    as (Hn & _ & _).
  assert (Hlen : len sims = len (embeddings c))
    by (unfold sims, len; now rewrite cosines_length).
  split; [|now rewrite <- Hlen].
  assert (Hcases : embeddings c = [] \/ embeddings c <> [])
    by (destruct (embeddings c); [left|right]; congruence).
  destruct Hcases as [Ee|Hne].
  - rewrite query_collection_empty by exact Ee. cbn [bind].
    assert (Htop : top_indices argsort sims k = []).
    { rewrite Hlen, Ee in Hn. change (len (@nil vec)) with 0 in Hn.
      destruct (top_indices argsort sims k); [reflexivity|].
      unfold len in Hn. cbn [length] in Hn. lia. }
    now rewrite Htop.
  - rewrite (query_collection_ok argsort Hspec) by assumption.
    cbn [bind]. fold sims.
    destruct (top_indices argsort sims k) as [|i0 top] eqn:Et.
    { assert (0 < len (embeddings c)).
      { destruct (embeddings c); [congruence|]. unfold len. cbn. lia. }
      unfold len in *. cbn [length] in Hn. lia. }
    generalize (i0 :: top) (@nil_cons _ i0 top). clear Et Hn. intros l Hl.
    unfold result_at. cbn [r_ids r_metadatas r_documents r_distances].
    unfold getitem. cbn [nth_error bind].
    destruct (map (fun i => nth i (ids c) EmptyString) l) as [|d0 ds] eqn:Em.
    { destruct l; [congruence|discriminate]. }
    rewrite <- Em.
    rewrite retrieve_loop_ok by (rewrite !length_map; lia).
    rewrite length_map.
    apply f_equal.
    apply (map_seq_nth3
             (fun i => nth i (metadatas c) no_metadata)
             (fun i => nth i (documents c) EmptyString)
             (fun i => (1 - nth i sims 0)%R)
             no_metadata EmptyString 0%R
             (fun meta code distance =>
                {| rc_file_path := get_or_unknown (m_file_path meta);
                   rc_symbol := get_or_unknown (m_symbol meta);
                   rc_code := code;
                   rc_language := get_or_unknown (m_language meta);
                   rc_distance := distance;
                   rc_start_line := m_start_line meta;
                   rc_end_line := m_end_line meta |})).
Qed.

Lemma retrieve_np_state np_similarities np_distance argsort embed_query
    settings st pid question top_k :
  retrieve_np np_similarities np_distance argsort embed_query settings st pid
    question top_k
  = (fst (_load_collection st pid),
     let! results :=
       query_collection_np np_similarities np_distance argsort
         (collection_of st pid) (embed_query question)
         (match top_k with
          | None => DEFAULT_TOP_K settings
          | Some k => k
          end) in
     match r_ids results with
     | [] => Ok []
     | [] :: _ => Ok []
     | doc_ids :: _ =>
         let! metas := getitem (r_metadatas results) 0 in
         let! docs := getitem (r_documents results) 0 in
         let! dists := getitem (r_distances results) 0 in
         retrieve_loop 0 doc_ids metas docs dists
     end).
Proof.
  unfold retrieve_np. rewrite query_chunks_np_state. reflexivity.
Qed.

(** X15.  On an aligned collection, for the similarities that NumPy has
    computed between the vectors and the embedded question, one for each
    vector, [retrieve] with a [top_k >= 1] (its argument, or
    [DEFAULT_TOP_K] without one) returns one chunk for each top index, in
    the order of [np.argsort(similarities)[::-1][:k]]: the document as code,
    [float(1.0 - s)] of the similarity as distance, the file path, symbol
    and language of the metadata, or ["unknown"] where the metadata lacks
    the key, and the line numbers of the metadata. *)
Theorem retrieve_ranked_chunks
    (np_similarities : list vec -> vec -> result (list R))
    (np_distance : R -> R) (argsort : list R -> list nat)
    (embed_query : string -> vec) (settings : Settings) (st : Store)
    (pid : Z) (question : string) (top_k : option Z) (sims : list R) :
  argsort_spec argsort ->
  aligned (collection_of st pid) ->
  np_similarities (embeddings (collection_of st pid)) (embed_query question)
  = Ok sims ->
  length sims = length (embeddings (collection_of st pid)) ->
  1 <= match top_k with None => DEFAULT_TOP_K settings | Some k => k end ->
  snd (retrieve_np np_similarities np_distance argsort embed_query settings
         st pid question top_k)
  = Ok (map (retrieved_with np_distance (collection_of st pid) sims)
          (top_indices argsort sims
             match top_k with None => DEFAULT_TOP_K settings | Some k => k end))
  /\
  len (top_indices argsort sims
         match top_k with None => DEFAULT_TOP_K settings | Some k => k end)
  = Z.min match top_k with None => DEFAULT_TOP_K settings | Some k => k end
      (len (embeddings (collection_of st pid))).
Proof.
  intros Hspec Hal Hsims Hlen' Hk. rewrite retrieve_np_state. cbn [snd].
  set (k := match top_k with None => DEFAULT_TOP_K settings | Some k => k end)
    in *.
  set (c := collection_of st pid) in *.
  destruct (top_indices_spec argsort Hspec sims k ltac:(lia))
    as (Hn & _ & _).
  assert (Hlen : len sims = len (embeddings c))
    by (unfold len; now rewrite Hlen').
  split; [|now rewrite <- Hlen].
  assert (Hcases : embeddings c = [] \/ embeddings c <> [])
    by (destruct (embeddings c); [left|right]; congruence).
  destruct Hcases as [Ee|Hne].
  - unfold query_collection_np. rewrite Ee. cbn [bind].
    assert (Htop : top_indices argsort sims k = []).
    { rewrite Hlen, Ee in Hn. change (len (@nil vec)) with 0 in Hn.
      destruct (top_indices argsort sims k); [reflexivity|].
      unfold len in Hn. cbn [length] in Hn. lia. }
    now rewrite Htop.
  - rewrite (query_collection_np_top np_similarities np_distance argsort
               Hspec c (embed_query question) k sims) by assumption.
    pose proof (top_indices_range argsort Hspec sims k) as Hrange.
    destruct (top_indices argsort sims k) as [|i0 top] eqn:Et.
    { assert (0 < len (embeddings c)).
      { destruct (embeddings c); [congruence|]. unfold len. cbn. lia. }
      unfold len in *. cbn [length] in Hn. lia. }
    cbn [bind].
    generalize (i0 :: top) (@nil_cons _ i0 top). clear Et Hn Hrange.
    intros l Hl.
    unfold result_with. cbn [r_ids r_metadatas r_documents r_distances].
    unfold getitem. cbn [nth_error bind].
    destruct (map (fun i => nth i (ids c) EmptyString) l) as [|d0 ds] eqn:Em.
    { destruct l; [congruence|discriminate]. }
    rewrite <- Em.
    rewrite retrieve_loop_ok by (rewrite !length_map; lia).
    rewrite length_map.
    apply f_equal.
    apply (map_seq_nth3
             (fun i => nth i (metadatas c) no_metadata)
             (fun i => nth i (documents c) EmptyString)
             (fun i => np_distance (nth i sims 0%R))
             no_metadata EmptyString 0%R
             (fun meta code distance =>
                {| rc_file_path := get_or_unknown (m_file_path meta);
                   rc_symbol := get_or_unknown (m_symbol meta);
                   rc_code := code;
                   rc_language := get_or_unknown (m_language meta);
                   rc_distance := distance;
                   rc_start_line := m_start_line meta;
                   rc_end_line := m_end_line meta |})).
Qed.

Lemma tied_store_top_indices top_k :
  2 <= top_k ->
  top_indices argsort_stable (cosines [[1%R]; [1%R]] [1%R]) top_k
  = [1; 0]%nat.
Proof.
  intros Hk. unfold top_indices, cosines. cbn [map].
  rewrite argsort_stable_pair. unfold len. cbn [length rev app].
  rewrite slice_to_firstn by lia.
  rewrite firstn_all2; [reflexivity|cbn; lia].
Qed.

Lemma retrieve_ranked_chunks_witness :
  exists chunks,
    snd (retrieve_np similarities (fun s => (1 - s)%R) argsort_stable
           (fun _ => [1%R]) default_settings tied_store 1 "where is g?" None)
    = Ok chunks /\
    map rc_code chunks = ["def g(): pass"; "def f(): pass"]%string /\
    map rc_file_path chunks = ["a.py"; "a.py"]%string.
Proof.
  destruct (retrieve_ranked_chunks similarities (fun s => (1 - s)%R)
              argsort_stable (fun _ => [1%R]) default_settings tied_store 1
              "where is g?" None (cosines [[1%R]; [1%R]] [1%R]))
    as [Hq _].
  - apply argsort_stable_spec.
  - rewrite tied_store_collection. repeat split.
  - rewrite tied_store_collection. reflexivity.
  - rewrite tied_store_collection. reflexivity.
  - cbn. lia.
  - eexists. split; [exact Hq|].
    rewrite tied_store_collection. cbn [embeddings DEFAULT_TOP_K default_settings].
    rewrite tied_store_top_indices by lia. split; reflexivity.
Defined.

(** X16.  In every state that the module can reach, for a project without
    file or without embeddings, the context that the chat and edit routes
    build from [retrieve] is the placeholder
    [No relevant code found in the repository.] *)
Theorem empty_project_context (argsort : list R -> list nat)
    (embed_query : string -> vec) (settings : Settings) (st : Store)
    (pid : Z) (question : string) (top_k : option Z) :
  reachable st ->
  disk st !! pid = None \/ embeddings (collection_of st pid) = [] ->
  exists chunks,
    snd (retrieve argsort embed_query settings st pid question top_k)
    = Ok chunks /\
    build_context_prompt chunks
    = "No relevant code found in the repository."%string.
Proof.
  intros Hreach H.
  assert (He : embeddings (collection_of st pid) = []).
  { destruct H as [H|H]; [|exact H].
    now rewrite (collection_of_missing st pid (reachable_coherent st Hreach) H). }
  exists []. split; [|reflexivity].
  rewrite retrieve_state. cbn [snd].
  now rewrite query_collection_empty by exact He.
Qed.

Lemma empty_project_context_witness :
  exists chunks,
    snd (retrieve argsort_stable (fun _ => [1%R]) default_settings fresh_store
           3 "what does main do?" None) = Ok chunks /\
    build_context_prompt chunks
    = "No relevant code found in the repository."%string.
Proof.
  apply (empty_project_context argsort_stable (fun _ => [1%R])
           default_settings fresh_store 3 "what does main do?" None).
  - apply reach_start.
  - left. reflexivity.
Defined.

(** X17.  [build_context_prompt] never returns the empty string: for the
    empty list it is the placeholder, and for any other list it starts with
    the header of the first chunk. *)
Theorem build_context_prompt_not_empty (chunks : list RetrievedChunk) :
  build_context_prompt chunks <> EmptyString /\
  forall c rest,
    chunks = c :: rest ->
    exists tail,
      build_context_prompt chunks
      = ("--- [1] " ++ rc_file_path c ++ tail)%string.
Proof.
  assert (Hhead : forall c rest, exists tail,
             build_context_prompt (c :: rest)
             = ("--- [1] " ++ rc_file_path c ++ tail)%string).
  { intros c rest. unfold build_context_prompt, join.
    cbn [context_sections String.concat].
    unfold context_section. rewrite location_parts.
    change (str_of_int 1) with "1"%string.
    destruct (context_sections (1 + 1) rest) as [|s ss].
    - eexists. change ("--- [" ++ "1" ++ "] " ++ ?x)%string
        with ("--- [1] " ++ x)%string.
      rewrite !append_assoc. reflexivity.
    - eexists. change ("--- [" ++ "1" ++ "] " ++ ?x)%string
        with ("--- [1] " ++ x)%string.
      rewrite !append_assoc. reflexivity. }
  split.
  - destruct chunks as [|c rest]; [discriminate|].
    destruct (Hhead c rest) as [tail ->]. discriminate.
  - intros c rest ->. apply Hhead.
Qed.

(** * The sources of an answer *)

Lemma sources_loop_spec chunks : forall sources seen,
  (forall p, p ∈ seen <-> In p (map src_file_path sources)) ->
  List.NoDup (map src_file_path sources) ->
  exists new,
    sources_loop sources seen chunks = sources ++ new /\
    List.NoDup (map src_file_path (sources ++ new)) /\
    (forall p, In p (map src_file_path (sources ++ new)) <->
               In p (map src_file_path sources) \/
               In p (map rc_file_path chunks)) /\
    forall s, In s new ->
      exists pre c post,
        chunks = pre ++ c :: post /\ s = source_of c /\
        ~ In (rc_file_path c) (map rc_file_path pre) /\
        ~ In (rc_file_path c) (map src_file_path sources).
Proof.
  induction chunks as [|chunk rest IH]; intros sources seen Hseen Hnd.
  - exists []. rewrite app_nil_r. cbn. repeat split; tauto.
  - cbn [sources_loop]. destruct (decide (rc_file_path chunk ∈ seen)) as [Hin|Hout].
    + destruct (IH sources seen Hseen Hnd) as (new & Heq & Hnd' & Hmem & Hfirst).
      exists new. split; [exact Heq|]. split; [exact Hnd'|]. split.
      * intros p. rewrite Hmem. cbn [map In]. split; [tauto|].
        intros [H|[<-|H]]; auto. left. now apply Hseen.
      * intros s Hs. destruct (Hfirst s Hs) as (pre & c & post & -> & -> & Hp & Hs').
        exists (chunk :: pre), c, post. repeat split; auto.
        cbn [map In]. intros [Heq'|H]; [|contradiction].
        apply Hs'. rewrite <- Heq'. now apply Hseen.
    + assert (Hfresh : ~ In (rc_file_path chunk) (map src_file_path sources))
        by (intros H; apply Hout, Hseen, H).
      destruct (IH (sources ++ [source_of chunk])
                  (seen ∪ {[rc_file_path chunk]})) as (new & Heq & Hnd' & Hmem & Hfirst).
      * intros p. rewrite map_app, in_app_iff. cbn [map In source_of src_file_path].
        rewrite elem_of_union, elem_of_singleton, Hseen. intuition.
      * rewrite map_app. cbn [map source_of src_file_path].
        apply List.NoDup_app; [exact Hnd|repeat constructor; auto|].
        intros p Hp [<-|[]]. contradiction.
      * exists (source_of chunk :: new). rewrite <- app_assoc in *. cbn [app] in *.
        split; [exact Heq|]. split; [exact Hnd'|]. split.
        -- intros p. rewrite Hmem. rewrite map_app, in_app_iff.
           cbn [map In source_of src_file_path]. tauto.
        -- intros s [<-|Hs].
           ++ exists [], chunk, rest. repeat split; auto.
           ++ destruct (Hfirst s Hs) as (pre & c & post & -> & -> & Hp & Hs').
              exists (chunk :: pre), c, post. repeat split; auto.
              ** cbn [map In]. intros [Heq'|H]; [|contradiction].
                 apply Hs'. rewrite map_app, in_app_iff. right.
                 cbn [map In source_of src_file_path]. now left.
              ** intros H. apply Hs'. rewrite map_app, in_app_iff. now left.
Qed.

(** X18.  The sources of an answer name every file of the retrieved chunks
    once: no file path occurs twice, the file paths are those of the chunks,
    and the entry of a file is taken from the first chunk of that file in
    the ranking. *)
Theorem chat_sources_first_per_file (chunks : list RetrievedChunk) :
  List.NoDup (map src_file_path (chat_sources chunks)) /\
  (forall p, In p (map src_file_path (chat_sources chunks)) <->
             In p (map rc_file_path chunks)) /\
  forall s, In s (chat_sources chunks) ->
    exists pre c post,
      chunks = pre ++ c :: post /\ s = source_of c /\
      ~ In (rc_file_path c) (map rc_file_path pre).
Proof.
  destruct (sources_loop_spec chunks [] ∅) as (new & Heq & Hnd & Hmem & Hfirst).
  - intros p. cbn. split; [apply not_elem_of_empty|tauto].
  - constructor.
  - unfold chat_sources. rewrite Heq. cbn [app] in *.
    split; [exact Hnd|]. split.
    + intros p. rewrite Hmem. cbn. tauto.
    + intros s Hs. destruct (Hfirst s Hs) as (pre & c & post & H1 & H2 & H3 & _).
      now exists pre, c, post.
Qed.

Example chat_sources_example :
  map src_file_path
    (chat_sources [retrieved_f; retrieved_readme; retrieved_f])
  = ["src/a.py"; "README.md"]%string.
Proof. reflexivity. Qed.

(** * Masking of [.env] files *)

Lemma contains_char_app c a b :
  contains_char c (a ++ String c b) = true.
Proof.
  induction a as [|x a IH]; rewrite ?append_cons; cbn [contains_char].
  - change (("" ++ String c b)%string) with (String c b).
    cbn [contains_char]. now rewrite Ascii.eqb_refl.
  - rewrite IH. apply orb_true_r.
Qed.

Lemma before_char_app c a b :
  contains_char c a = false -> before_char c (a ++ String c b) = a.
Proof.
  induction a as [|x a IH]; intros Hc.
  - change (("" ++ String c b)%string) with (String c b).
    cbn [before_char]. now rewrite Ascii.eqb_refl.
  - rewrite append_cons. cbn [contains_char before_char] in *.
    apply orb_false_iff in Hc. destruct Hc as [Hx Ha].
    now rewrite Hx, (IH Ha).
Qed.

Lemma append_not_empty a c b : (a ++ String c b)%string <> EmptyString.
Proof. destruct a; discriminate. Qed.

(** X19.  [_mask_env_content] rewrites the file line by line and joins the
    results by line feeds.  A line whose stripped text is [key=value], with
    no [=] in the key and no [#] in front, becomes [key=***MASKED***]
    whatever the value is; a line that is blank, a comment or without [=]
    stays as it is. *)
Theorem mask_env_content_lines (content : string) :
  exists masked_lines,
    _mask_env_content content = join nl masked_lines /\
    Forall2
      (fun line masked =>
         (forall key value,
            strip line = (key ++ "=" ++ value)%string ->
            contains_char "=" key = false ->
            startswith "#" (strip line) = false ->
            masked = (key ++ "=***MASKED***")%string) /\
         (strip line = EmptyString \/ startswith "#" (strip line) = true \/
          contains_char "=" (strip line) = false ->
          masked = line))
      (splitlines content) masked_lines.
Proof.
  exists (map mask_line (splitlines content)). split; [reflexivity|].
  induction (splitlines content) as [|line rest IH]; cbn [map];
    constructor; [|exact IH].
  unfold mask_line. split.
  - intros key value Hs Hkey Hcomment. rewrite Hcomment, Hs.
    change (key ++ "=" ++ value)%string with (key ++ String "=" value)%string.
    rewrite contains_char_app, (before_char_app _ _ _ Hkey).
    destruct (key ++ String "=" value)%string eqn:E;
      [now apply append_not_empty in E|reflexivity].
  - intros [-> | [-> | ->]]; cbn [truthy negb andb];
      rewrite ?andb_false_r; reflexivity.
Qed.

Lemma mask_env_content_lines_witness :
  _mask_env_content
    ("# keys" ++ nl ++ "API_KEY=sk-123" ++ nl ++ "  DEBUG = true" ++ nl)
  = ("# keys" ++ nl ++ "API_KEY=***MASKED***" ++ nl ++ "DEBUG =***MASKED***")
    %string.
Proof.
  destruct (mask_env_content_lines
              ("# keys" ++ nl ++ "API_KEY=sk-123" ++ nl ++ "  DEBUG = true"
               ++ nl))
    as (masked & -> & H).
  inversion H as [|l1 m1 ls1 ms1 [_ H1] H']; subst; clear H.
  inversion H' as [|l2 m2 ls2 ms2 [H2 _] H'']; subst; clear H'.
  inversion H'' as [|l3 m3 ls3 ms3 [H3 _] H''']; subst; clear H''.
  inversion H'''; subst; clear H'''.
  rewrite (H1 ltac:(right; left; reflexivity)).
  rewrite (H2 "API_KEY"%string "sk-123"%string eq_refl eq_refl eq_refl).
  rewrite (H3 "DEBUG "%string " true"%string eq_refl eq_refl eq_refl).
  reflexivity.
Defined.

(** * Code fences around an edit *)

Lemma split_char_not_nil c s : split_char c s <> [].
Proof.
  destruct s as [|x rest]; cbn [split_char]; [discriminate|].
  destruct (Ascii.eqb x c); [discriminate|apply cons_line_not_nil].
Qed.

Lemma cons_line_app x ls ks :
  ls <> [] -> cons_line x (ls ++ ks) = cons_line x ls ++ ks.
Proof. destruct ls; [congruence|reflexivity]. Qed.

(** Splitting at a separator of the text splits the parts. *)
Lemma split_char_app c a b :
  split_char c (a ++ String c b) = split_char c a ++ split_char c b.
Proof.
  induction a as [|x a IH].
  - change (("" ++ String c b)%string) with (String c b).
    cbn [split_char]. now rewrite Ascii.eqb_refl.
  - rewrite append_cons. cbn [split_char]. rewrite IH.
    destruct (Ascii.eqb x c); [reflexivity|].
    apply cons_line_app, split_char_not_nil.
Qed.

Lemma split_char_none c s :
  contains_char c s = false -> split_char c s = [s].
Proof.
  induction s as [|x s IH]; intros Hc; [reflexivity|].
  cbn [contains_char split_char] in *. apply orb_false_iff in Hc.
  destruct Hc as [Hx Hs]. now rewrite Hx, (IH Hs).
Qed.

Lemma join_cons_line sep x ls :
  ls <> [] -> join sep (cons_line x ls) = String x (join sep ls).
Proof.
  destruct ls as [|l ls]; [congruence|intros _].
  unfold join. cbn [cons_line String.concat]. now destruct ls.
Qed.

(** Joining the parts by the separator gives the text back. *)
Lemma join_split_char s : join nl (split_char (chr 10) s) = s.
Proof.
  induction s as [|x s IH]; [reflexivity|].
  cbn [split_char]. destruct (Ascii.eqb_spec x (chr 10)) as [->|Hne].
  - unfold join in *. cbn [String.concat].
    destruct (split_char (chr 10) s) as [|l ls] eqn:E;
      [now apply split_char_not_nil in E|].
    rewrite IH. reflexivity.
  - rewrite join_cons_line by apply split_char_not_nil. now rewrite IH.
Qed.

Lemma startswith_app a b : startswith a (a ++ b) = true.
Proof.
  unfold startswith. induction a as [|x a IH]; [now destruct b|].
  rewrite append_cons. cbn [String.prefix].
  destruct (ascii_dec x x); [exact IH|congruence].
Qed.

(** X20.  [generate_code_edit] removes one pair of code fences from the
    answer of the provider: when the stripped answer is a line that starts
    with three backquotes, the code, and a line of three backquotes, the
    result is the code, whatever it contains.  An answer that does not
    start with three backquotes is returned stripped, and an exception of
    the provider is passed on. *)
Theorem generate_code_edit_fences
    (_generate : string -> R -> Z -> string -> result string)
    (temperature : R)
    (context file_content file_path instruction provider : string) :
  (forall answer lang code,
     _generate (_edit_prompt context file_content file_path instruction)
       temperature 8192 provider = Ok answer ->
     strip answer = ("```" ++ lang ++ nl ++ code ++ nl ++ "```")%string ->
     contains_char (chr 10) lang = false ->
     generate_code_edit _generate temperature context file_content file_path
       instruction provider = Ok code) /\
  (forall answer,
     _generate (_edit_prompt context file_content file_path instruction)
       temperature 8192 provider = Ok answer ->
     startswith "```" (strip answer) = false ->
     generate_code_edit _generate temperature context file_content file_path
       instruction provider = Ok (strip answer)) /\
  (forall e,
     _generate (_edit_prompt context file_content file_path instruction)
       temperature 8192 provider = Raise e ->
     generate_code_edit _generate temperature context file_content file_path
       instruction provider = Raise e).
Proof.
  unfold generate_code_edit. split; [|split].
  - intros answer lang code -> Hs Hlang. cbn [bind]. rewrite Hs.
    assert (Hfence : contains_char (chr 10) ("```" ++ lang)%string = false)
      by exact Hlang.
    replace ("```" ++ lang ++ nl ++ code ++ nl ++ "```")%string
      with (("```" ++ lang) ++ String (chr 10)
              (code ++ String (chr 10) "```"))%string
      by (now rewrite append_assoc).
    assert (Hstart : startswith "```"
                       (("```" ++ lang) ++ String (chr 10)
                          (code ++ String (chr 10) "```"))%string = true).
    { rewrite append_assoc. apply startswith_app. }
    rewrite Hstart, !split_char_app, (split_char_none _ _ Hfence).
    cbn [app List.tl].
    change (split_char (chr 10) "```") with ["```"%string].
    destruct (split_char (chr 10) code ++ ["```"%string]) as [|l ls] eqn:E.
    { apply app_eq_nil in E. destruct E as [_ E]. discriminate. }
    rewrite <- E, last_last, removelast_last.
    change (strip "```") with "```"%string. rewrite String.eqb_refl.
    now rewrite join_split_char.
  - intros answer -> Hno. cbn [bind]. now rewrite Hno.
  - intros e ->. reflexivity.
Qed.

Lemma generate_code_edit_fences_witness :
  generate_code_edit
    (fun _ _ _ _ =>
       Ok ("```python" ++ nl ++ "x = 1" ++ nl ++ "y = 2" ++ nl ++ "```" ++ nl)
          %string)
    (2 / 10)%R "context" "x = 0" "a.py" "set x to 1" "gemini"
  = Ok ("x = 1" ++ nl ++ "y = 2")%string.
Proof.
  destruct (generate_code_edit_fences
              (fun _ _ _ _ =>
                 Ok ("```python" ++ nl ++ "x = 1" ++ nl ++ "y = 2" ++ nl
                     ++ "```" ++ nl)%string)
              (2 / 10)%R "context" "x = 0" "a.py" "set x to 1" "gemini")
    as [Hfenced _].
  apply (Hfenced
           ("```python" ++ nl ++ "x = 1" ++ nl ++ "y = 2" ++ nl ++ "```" ++ nl)
           %string "python"%string ("x = 1" ++ nl ++ "y = 2")%string).
  - reflexivity.
  - reflexivity.
  - reflexivity.
Defined.

(** * Ingestion *)

Lemma append_inj_l (a x y : string) :
  (a ++ x)%string = (a ++ y)%string -> x = y.
Proof.
  induction a as [|c a IH]; [trivial|].
  rewrite !append_cons. intros [= H]. exact (IH H).
Qed.

(** The decimal numeral determines the integer. *)
Lemma str_of_int_inj (a b : Z) : str_of_int a = str_of_int b -> a = b.
Proof.
  unfold str_of_int. intros H. apply DecimalZ.to_int_inj.
  assert (Hnn : forall z, Z.to_int z <> Decimal.Pos Decimal.Nil /\
                          Z.to_int z <> Decimal.Neg Decimal.Nil).
  { intros [|p|p]; cbn; split; try discriminate; intros [= Hp];
      now apply DecimalPos.Unsigned.to_uint_nonnil in Hp. }
  destruct (Hnn a) as [Ha1 Ha2]. destruct (Hnn b) as [Hb1 Hb2].
  pose proof (NilZero.isi _ Ha1 Ha2) as Ia.
  pose proof (NilZero.isi _ Hb1 Hb2) as Ib.
  rewrite H in Ia. congruence.
Qed.

Lemma chunk_id_inj pid i j : chunk_id pid i = chunk_id pid j -> i = j.
Proof.
  unfold chunk_id. intros H.
  apply append_inj_l, append_inj_l, append_inj_l, str_of_int_inj in H.
  lia.
Qed.

Lemma chunk_ids_distinct pid n :
  List.NoDup (map (chunk_id pid) (seq 0 n)).
Proof.
  generalize (seq_NoDup n 0). generalize (seq 0 n) as l.
  induction 1 as [|i l Hi Hl IH]; cbn [map]; constructor; [|exact IH].
  intros Hin. apply in_map_iff in Hin as (j & Hj & Hin).
  apply chunk_id_inj in Hj. subst j. contradiction.
Qed.

Lemma chunk_rows_from_length pid chunks : forall i,
  length (chunk_rows_from pid i chunks) = length chunks.
Proof.
  induction chunks as [|c rest IH]; intros i; cbn; [|rewrite IH];
    reflexivity.
Qed.

Lemma chunk_rows_from_nth pid chunks : forall i k c,
  nth_error chunks k = Some c ->
  nth_error (chunk_rows_from pid i chunks) k
  = Some {| row_project_id := pid; row_file_path := file_path c;
            row_symbol := symbol c; row_content := code c;
            row_language := language c; row_start_line := start_line c;
            row_end_line := end_line c;
            row_chunk_index := Z.of_nat (i + k) |}.
Proof.
  induction chunks as [|c0 rest IH]; intros i k c Hk; [now destruct k|].
  destruct k as [|k]; cbn in Hk |- *.
  - injection Hk as ->. now rewrite Nat.add_0_r.
  - rewrite (IH (S i) k c Hk). do 2 f_equal. lia.
Qed.

Lemma collection_of_add st pid new_ids new_docs new_embs new_metas :
  collection_of (add_chunks st pid new_ids new_docs new_embs new_metas) pid
  = {| ids := ids (collection_of st pid) ++ new_ids;
       documents := documents (collection_of st pid) ++ new_docs;
       embeddings := embeddings (collection_of st pid) ++ new_embs;
       metadatas := metadatas (collection_of st pid) ++ new_metas |}.
Proof.
  destruct (add_chunks_spec st pid new_ids new_docs new_embs new_metas)
    as (Hc & _).
  unfold collection_of at 1. unfold _load_collection. now rewrite Hc.
Qed.

Lemma collection_of_add_other st pid other new_ids new_docs new_embs
    new_metas :
  pid <> other ->
  collection_of (add_chunks st pid new_ids new_docs new_embs new_metas) other
  = collection_of st other.
Proof.
  intros Hne.
  destruct (add_chunks_spec st pid new_ids new_docs new_embs new_metas)
    as (_ & _ & Ho).
  destruct (Ho other Hne) as [Hc Hd].
  unfold collection_of, _load_collection. rewrite Hc, Hd.
  destruct (cache st !! other); [reflexivity|].
  destruct (disk st !! other); reflexivity.
Qed.

Lemma add_chunks_aligned st pid new_ids new_docs new_embs new_metas :
  store_aligned st ->
  length new_ids = length new_embs ->
  length new_docs = length new_embs ->
  length new_metas = length new_embs ->
  store_aligned (add_chunks st pid new_ids new_docs new_embs new_metas).
Proof.
  intros Hs Hi Hd Hm.
  destruct (load_collection_aligned st pid Hs) as [(Ha1 & Ha2 & Ha3) _].
  rewrite add_chunks_eq. destruct Hs as [Hcache Hdisk].
  assert (Hnew : aligned
            {| ids := ids (collection_of st pid) ++ new_ids;
               documents := documents (collection_of st pid) ++ new_docs;
               embeddings := embeddings (collection_of st pid) ++ new_embs;
               metadatas := metadatas (collection_of st pid) ++ new_metas |}).
  { unfold aligned. cbn [ids documents embeddings metadatas].
    rewrite !length_app. lia. }
  split; intros pid' c'; cbn [cache disk]; rewrite lookup_insert;
    case_decide; try (intros [= <-]; exact Hnew);
    [apply Hcache|apply Hdisk].
Qed.

Section IngestionFacts.

Variable settings : Settings.
Variable ast_parse : string -> result (list node).
Variable re_match : string -> string -> bool.
Variable re_search : string -> string -> option string.
Variable filter_files : string -> list FileInfo.
Variable embed_texts : list string -> result (list vec).

(** The task, by what the chunker and the embedder return. *)
Lemma process_repo_cases db st pid repo_path project :
  projects db !! pid = Some project ->
  _process_repo settings ast_parse re_match re_search filter_files
    embed_texts db st pid repo_path
  = match chunk_all settings ast_parse re_match re_search
            (filter_files repo_path) with
    | None => None
    | Some (Raise _) =>
        Some ({| projects :=
                   <[pid := {| p_status := "error";
                               p_total_files := len (filter_files repo_path);
                               p_total_chunks := p_total_chunks project |}]>
                     (projects db);
                 chunk_rows := chunk_rows db |}, st)
    | Some (Ok []) =>
        Some ({| projects :=
                   <[pid := {| p_status := "ready";
                               p_total_files := len (filter_files repo_path);
                               p_total_chunks :=
                                 match filter_files repo_path with
                                 | [] => 0
                                 | _ => p_total_chunks project
                                 end |}]> (projects db);
                 chunk_rows := chunk_rows db |}, st)
    | Some (Ok ((_ :: _) as all_chunks)) =>
        match embed_texts (map embedding_text all_chunks) with
        | Raise _ =>
            Some ({| projects :=
                       <[pid := {| p_status := "error";
                                   p_total_files :=
                                     len (filter_files repo_path);
                                   p_total_chunks := p_total_chunks project |}]>
                         (projects db);
                     chunk_rows := chunk_rows db |}, st)
        | Ok embeddings =>
            Some ({| projects :=
                       <[pid := {| p_status := "ready";
                                   p_total_files :=
                                     len (filter_files repo_path);
                                   p_total_chunks := len all_chunks |}]>
                         (projects db);
                     chunk_rows :=
                       chunk_rows db ++ chunk_rows_from pid 0 all_chunks |},
                  add_chunks st pid
                    (map (chunk_id pid) (seq 0 (length all_chunks)))
                    (map code all_chunks) embeddings
                    (map chunk_metadata all_chunks))
        end
    end.
Proof.
  intros Hp. unfold _process_repo. rewrite Hp.
  cbn [p_status p_total_files p_total_chunks].
  destruct (filter_files repo_path) as [|f files] eqn:Ef; [reflexivity|].
  destruct (chunk_all _ _ _ _ (f :: files)) as [[[|c cs]|e]|]; reflexivity.
Qed.

End IngestionFacts.

(** X21.  When the project exists and the chunker returns or raises for
    every file, the task returns and leaves the project as ["ready"] or
    ["error"], with the number of files that the filter kept.  When
    [chunk_file] raises on a file, or there are chunks and [embed_texts]
    raises, the project is ["error"], its chunk count is as before, and the
    vector store and the table of chunks are untouched: the failure comes
    before any write.  When there is no chunk at all the project is
    ["ready"], again without a write.  In every case the rows that were in
    the table stay, the new rows belong to this project, and the other
    projects and their collections are as before. *)
Theorem process_repo_outcome (settings : Settings)
    (ast_parse : string -> result (list node))
    (re_match : string -> string -> bool)
    (re_search : string -> string -> option string)
    (filter_files : string -> list FileInfo)
    (embed_texts : list string -> result (list vec))
    (db : Database) (st : Store) (pid : Z) (repo_path : string)
    (project : Project) (outcome : result (list CodeChunk)) :
  projects db !! pid = Some project ->
  chunk_all settings ast_parse re_match re_search (filter_files repo_path)
  = Some outcome ->
  exists db' st' project',
    _process_repo settings ast_parse re_match re_search filter_files
      embed_texts db st pid repo_path = Some (db', st') /\
    projects db' !! pid = Some project' /\
    p_total_files project' = len (filter_files repo_path) /\
    (p_status project' = "ready"%string \/
     p_status project' = "error"%string) /\
    ((exists e, outcome = Raise e) \/
     (exists chunks e,
        outcome = Ok chunks /\ chunks <> [] /\
        embed_texts (map embedding_text chunks) = Raise e) ->
     p_status project' = "error"%string /\
     p_total_chunks project' = p_total_chunks project /\
     st' = st /\ chunk_rows db' = chunk_rows db) /\
    (outcome = Ok [] ->
     p_status project' = "ready"%string /\
     st' = st /\ chunk_rows db' = chunk_rows db) /\
    (exists rows,
       chunk_rows db' = chunk_rows db ++ rows /\
       Forall (fun row => row_project_id row = pid) rows) /\
    forall other, other <> pid ->
      projects db' !! other = projects db !! other /\
      collection_of st' other = collection_of st other.
Proof.
  intros Hp Hchunks.
  rewrite (process_repo_cases _ _ _ _ _ _ _ _ _ _ _ Hp), Hchunks.
  assert (Hrows : forall cs i,
             Forall (fun row => row_project_id row = pid)
               (chunk_rows_from pid i cs)).
  { induction cs as [|c cs IH]; intros i; cbn; constructor;
      [reflexivity|apply IH]. }
  destruct outcome as [[|c cs]|e0].
  - do 3 eexists. split; [reflexivity|]. cbn [projects chunk_rows].
    rewrite lookup_insert_eq. split; [reflexivity|].
    cbn [p_status p_total_files p_total_chunks]. split; [reflexivity|].
    split; [now left|]. split.
    { intros [[e He]|(chunks & e & [= <-] & Hne & _)];
        [discriminate|congruence]. }
    split; [now intros _|]. split.
    + exists []. now rewrite app_nil_r.
    + intros other Hne. now rewrite lookup_insert_ne by congruence.
  - destruct (embed_texts (map embedding_text (c :: cs))) as [embs|e] eqn:Ee.
    + do 3 eexists. split; [reflexivity|]. cbn [projects chunk_rows].
      rewrite lookup_insert_eq. split; [reflexivity|].
      cbn [p_status p_total_files p_total_chunks]. split; [reflexivity|].
      split; [now left|]. split.
      { intros [[e He]|(chunks & e & [= <-] & _ & He)];
          [discriminate|congruence]. }
      split; [discriminate|]. split.
      * eexists. split; [reflexivity|apply Hrows].
      * intros other Hne. rewrite lookup_insert_ne by congruence.
        split; [reflexivity|].
        apply collection_of_add_other. congruence.
    + do 3 eexists. split; [reflexivity|]. cbn [projects chunk_rows].
      rewrite lookup_insert_eq. split; [reflexivity|].
      cbn [p_status p_total_files p_total_chunks]. split; [reflexivity|].
      split; [now right|]. split; [now intros _|].
      split; [discriminate|]. split.
      * exists []. now rewrite app_nil_r.
      * intros other Hne. now rewrite lookup_insert_ne by congruence.
  - do 3 eexists. split; [reflexivity|]. cbn [projects chunk_rows].
    rewrite lookup_insert_eq. split; [reflexivity|].
    cbn [p_status p_total_files p_total_chunks]. split; [reflexivity|].
    split; [now right|]. split; [now intros _|].
    split; [discriminate|]. split.
    + exists []. now rewrite app_nil_r.
    + intros other Hne. now rewrite lookup_insert_ne by congruence.
Qed.

(** X22.  When the embedder returns one vector for each chunk, the task
    leaves the project ["ready"] with the number of chunks, appends one row
    for each chunk, in the order of the chunks and numbered from 0, and
    extends the collection of the project by the chunks: ids
    [chunk_<project>_<i>], which differ from one another, the code as
    document, the vector, and the metadata.  An aligned store stays
    aligned. *)
Theorem process_repo_success (settings : Settings)
    (ast_parse : string -> result (list node))
    (re_match : string -> string -> bool)
    (re_search : string -> string -> option string)
    (filter_files : string -> list FileInfo)
    (embed_texts : list string -> result (list vec))
    (db : Database) (st : Store) (pid : Z) (repo_path : string)
    (project : Project) (chunks : list CodeChunk) (vectors : list vec) :
  projects db !! pid = Some project ->
  chunk_all settings ast_parse re_match re_search (filter_files repo_path)
  = Some (Ok chunks) ->
  chunks <> [] ->
  embed_texts (map embedding_text chunks) = Ok vectors ->
  length vectors = length chunks ->
  store_aligned st ->
  exists db' st',
    _process_repo settings ast_parse re_match re_search filter_files
      embed_texts db st pid repo_path = Some (db', st') /\
    projects db' !! pid
    = Some {| p_status := "ready";
              p_total_files := len (filter_files repo_path);
              p_total_chunks := len chunks |} /\
    (exists rows,
       chunk_rows db' = chunk_rows db ++ rows /\
       length rows = length chunks /\
       forall k c, nth_error chunks k = Some c ->
         nth_error rows k
         = Some {| row_project_id := pid; row_file_path := file_path c;
                   row_symbol := symbol c; row_content := code c;
                   row_language := language c;
                   row_start_line := start_line c;
                   row_end_line := end_line c;
                   row_chunk_index := Z.of_nat k |}) /\
    store_aligned st' /\
    collection_of st' pid
    = {| ids := ids (collection_of st pid)
                ++ map (chunk_id pid) (seq 0 (length chunks));
         documents := documents (collection_of st pid) ++ map code chunks;
         embeddings := embeddings (collection_of st pid) ++ vectors;
         metadatas := metadatas (collection_of st pid)
                      ++ map chunk_metadata chunks |} /\
    List.NoDup (map (chunk_id pid) (seq 0 (length chunks))).
Proof.
  intros Hp Hchunks Hne He Hlen Hal.
  rewrite (process_repo_cases _ _ _ _ _ _ _ _ _ _ _ Hp), Hchunks.
  destruct chunks as [|c cs]; [contradiction|]. rewrite He.
  do 2 eexists. split; [reflexivity|]. cbn [projects chunk_rows].
  rewrite lookup_insert_eq. split; [reflexivity|]. split.
  { eexists. split; [reflexivity|]. split; [apply chunk_rows_from_length|].
    intros k c' Hk. now rewrite (chunk_rows_from_nth pid _ 0 k c' Hk). }
  split.
  { apply add_chunks_aligned; [exact Hal|..];
      rewrite ?length_map, ?length_seq; lia. }
  split; [apply collection_of_add|apply chunk_ids_distinct].
Qed.

(** X23.  Ingestion followed by retrieval.  After the task has indexed a
    project that had no collection, with one vector for each chunk, all as
    long as the vector of the question, [retrieve] with [top_k >= 1]
    returns [min top_k n] chunks of the [n] that were indexed, each with the
    file path, symbol, code, language and line numbers of one of them. *)
Theorem ingested_chunks_retrieved (argsort : list R -> list nat)
    (embed_query : string -> vec) (settings : Settings)
    (ast_parse : string -> result (list node))
    (re_match : string -> string -> bool)
    (re_search : string -> string -> option string)
    (filter_files : string -> list FileInfo)
    (embed_texts : list string -> result (list vec))
    (db : Database) (st : Store) (pid : Z) (repo_path : string)
    (project : Project) (chunks : list CodeChunk) (vectors : list vec)
    (question : string) (top_k : Z) :
  argsort_spec argsort ->
  projects db !! pid = Some project ->
  collection_of st pid = empty_collection ->
  chunk_all settings ast_parse re_match re_search (filter_files repo_path)
  = Some (Ok chunks) ->
  embed_texts (map embedding_text chunks) = Ok vectors ->
  length vectors = length chunks ->
  Forall (fun e => length e = length (embed_query question)) vectors ->
  1 <= top_k ->
  exists db' st' retrieved,
    _process_repo settings ast_parse re_match re_search filter_files
      embed_texts db st pid repo_path = Some (db', st') /\
    snd (retrieve argsort embed_query settings st' pid question (Some top_k))
    = Ok retrieved /\
    len retrieved = Z.min top_k (len chunks) /\
    Forall (fun r => exists c,
              In c chunks /\
              rc_file_path r = file_path c /\ rc_symbol r = symbol c /\
              rc_code r = code c /\ rc_language r = language c /\
              rc_start_line r = m_start_line (chunk_metadata c) /\
              rc_end_line r = m_end_line (chunk_metadata c))
      retrieved.
Proof.
  intros Hspec Hp Hempty Hchunks He Hlen Hdim Hk.
  rewrite (process_repo_cases _ _ _ _ _ _ _ _ _ _ _ Hp), Hchunks.
  destruct chunks as [|c cs].
  - destruct (retrieve_top_chunks argsort embed_query settings st pid
                question (Some top_k) Hspec) as [Hq Hn].
    + rewrite Hempty. repeat split.
    + rewrite Hempty. constructor.
    + exact Hk.
    + do 3 eexists. split; [reflexivity|]. split; [exact Hq|].
      rewrite Hempty in *. cbn [embeddings empty_collection] in *.
      assert (Htop : top_indices argsort (cosines [] (embed_query question))
                       top_k = []).
      { destruct (top_indices _ _ _); [reflexivity|].
        unfold len in Hn. cbn in Hn. lia. }
      rewrite Htop. cbn. split; [unfold len; cbn; lia|constructor].
  - rewrite He.
    set (st' := add_chunks st pid _ _ _ _).
    assert (Hc : collection_of st' pid
                 = {| ids := map (chunk_id pid) (seq 0 (length (c :: cs)));
                      documents := map code (c :: cs);
                      embeddings := vectors;
                      metadatas := map chunk_metadata (c :: cs) |}).
    { subst st'. rewrite collection_of_add, Hempty. reflexivity. }
    destruct (retrieve_top_chunks argsort embed_query settings st' pid
                question (Some top_k) Hspec) as [Hq Hn].
    + rewrite Hc. unfold aligned. cbn [ids documents embeddings metadatas].
      rewrite !length_map, length_seq. lia.
    + rewrite Hc. exact Hdim.
    + exact Hk.
    + do 3 eexists. split; [reflexivity|]. split; [exact Hq|].
      rewrite Hc in *. cbn [embeddings] in *. split.
      * unfold len in *. rewrite length_map, Hn, Hlen. reflexivity.
      * apply Forall_map.
        pose proof (top_indices_range argsort Hspec
                      (cosines vectors (embed_query question)) top_k) as Hr.
        rewrite cosines_length, Hlen in Hr.
        eapply List.Forall_impl; [|exact Hr]. intros i Hi.
        exists (nth i (c :: cs) c). split; [now apply nth_In|].
        unfold retrieved_at.
        cbn [rc_file_path rc_symbol rc_code rc_language rc_start_line
             rc_end_line documents metadatas].
        rewrite (nth_indep _ no_metadata (chunk_metadata c))
          by (rewrite length_map; exact Hi).
        rewrite (nth_indep _ EmptyString (code c))
          by (rewrite length_map; exact Hi).
        rewrite !map_nth. repeat split.
Qed.

Lemma readme_chunks :
  chunk_all default_settings (fun _ => Raise SyntaxError) (fun _ _ => false)
    (fun _ _ => None) [readme_file]
  = Some (Ok [readme_chunk]).
Proof. vm_compute. reflexivity. Qed.

Lemma process_repo_outcome_witness :
  exists db' st' project',
    _process_repo default_settings (fun _ => Raise SyntaxError)
      (fun _ _ => false) (fun _ _ => None) (fun _ => [readme_file])
      (fun _ => Raise RuntimeError)
      one_project fresh_store 1 "/repo" = Some (db', st') /\
    projects db' !! 1 = Some project' /\
    p_total_files project' = 1 /\
    p_status project' = "error"%string /\
    st' = fresh_store /\ chunk_rows db' = [].
Proof.
  destruct (process_repo_outcome default_settings (fun _ => Raise SyntaxError)
              (fun _ _ => false) (fun _ _ => None) (fun _ => [readme_file])
              (fun _ => Raise RuntimeError) one_project fresh_store 1 "/repo"
              new_project (Ok [readme_chunk]))
    as (db' & st' & project' & Hrun & Hp & Hfiles & _ & Herr & _).
  - reflexivity.
  - exact readme_chunks.
  - destruct Herr as (He & _ & Hst & Hrows).
    { right. exists [readme_chunk], RuntimeError.
      split; [reflexivity|]. split; [discriminate|reflexivity]. }
    exists db', st', project'. repeat split; assumption.
Defined.

Lemma process_repo_success_witness :
  exists db' st',
    _process_repo default_settings (fun _ => Raise SyntaxError)
      (fun _ _ => false) (fun _ _ => None) (fun _ => [readme_file])
      (fun texts => Ok (map (fun _ => [1%R]) texts))
      one_project fresh_store 1 "/repo" = Some (db', st') /\
    projects db' !! 1
    = Some {| p_status := "ready"; p_total_files := 1;
              p_total_chunks := 1 |} /\
    ids (collection_of st' 1) = ["chunk_1_0"%string] /\
    documents (collection_of st' 1) = ["# Title"%string].
Proof.
  destruct (process_repo_success default_settings (fun _ => Raise SyntaxError)
              (fun _ _ => false) (fun _ _ => None) (fun _ => [readme_file])
              (fun texts => Ok (map (fun _ => [1%R]) texts))
              one_project fresh_store 1 "/repo" new_project [readme_chunk]
              [[1%R]])
    as (db' & st' & Hrun & Hp & _ & _ & Hc & _).
  - reflexivity.
  - exact readme_chunks.
  - discriminate.
  - reflexivity.
  - reflexivity.
  - apply fresh_store_aligned.
  - exists db', st'. split; [exact Hrun|]. split; [exact Hp|].
    rewrite Hc. split; reflexivity.
Defined.

Lemma ingested_chunks_retrieved_witness :
  exists db' st' retrieved,
    _process_repo default_settings (fun _ => Raise SyntaxError)
      (fun _ _ => false) (fun _ _ => None) (fun _ => [readme_file])
      (fun texts => Ok (map (fun _ => [1%R]) texts))
      one_project fresh_store 1 "/repo" = Some (db', st') /\
    snd (retrieve argsort_stable (fun _ => [1%R]) default_settings st' 1
           "what is the title?" (Some 5)) = Ok retrieved /\
    map rc_file_path retrieved = ["README.md"%string] /\
    map rc_code retrieved = ["# Title"%string].
Proof.
  destruct (ingested_chunks_retrieved argsort_stable (fun _ => [1%R])
              default_settings (fun _ => Raise SyntaxError)
              (fun _ _ => false)
              (fun _ _ => None) (fun _ => [readme_file])
              (fun texts => Ok (map (fun _ => [1%R]) texts))
              one_project fresh_store 1 "/repo" new_project [readme_chunk]
              [[1%R]] "what is the title?" 5)
    as (db' & st' & retrieved & Hrun & Hq & Hn & Hall).
  - apply argsort_stable_spec.
  - reflexivity.
  - reflexivity.
  - exact readme_chunks.
  - reflexivity.
  - reflexivity.
  - repeat constructor.
  - lia.
  - exists db', st', retrieved. split; [exact Hrun|]. split; [exact Hq|].
    destruct retrieved as [|r [|r' rest]]; try (unfold len in Hn; cbn in Hn; lia).
    apply Forall_inv in Hall.
    destruct Hall as (c & [<-|[]] & Hf & _ & Hcode & _).
    cbn [map]. now rewrite Hf, Hcode.
Defined.
